(** * Real-time map: event coordination and marker reconciliation

    A shallow embedding of the coordination core of the map component:
    - [IconSizeUtils]    (iconSizeUtils.js)     zoom level -> icon size profile
    - [GeoUtils]         (geoUtils.js)          longitude normalisation
    - [MarkerManager]    (markerManager.js)     the live marker set and its diff
    - [MapCoordinator]   (mapCoordinator.js)    the event queue and the active slot
    - [RealtimeManager]  (realtimeManager.js)   the polling timer
    - [RealtimeControl]  (realtimeManager.js)   its interface as a sequence of steps
    - [MarkerLookup]     (markerManager.js)     lookups and the registry invariant
    - [InteractionManager] (userInteractionManager.js, iconSizeUtils.js)
                                                 sizes and modes that follow the zoom
    - [GeoPoints]        (geoUtils.js)          longitudes as numbers

    Conventions.  A JavaScript number is an exact rational ([Q]).  Where the
    code computes a product or a quotient, which doubles round (the interval
    copies of the real-time manager, the progress percentage of the marker
    loop), the operands are recorded and the result is not evaluated.
    [null] and [undefined] are kept apart
    wherever the code tells them apart.  Mutable module objects become records
    that are passed in and returned.  Calls that leave the module (the Leaflet
    surface, dynamic imports, the console, timers) are recorded in a trace
    field of the state, newest last. *)

From Stdlib Require Import ZArith QArith Qround Lqa List String Ascii Bool Lia Arith.
From Stdlib Require Import Permutation.
From Stdlib Require Import DecimalString.
Import ListNotations.

Open Scope string_scope.
Open Scope list_scope.
Open Scope Q_scope.

(* ------------------------------------------------------------------ *)
(** * JavaScript primitives the code relies on *)

Module Js.

(** A JavaScript number. *)
Definition number := Q.

(** [a >= b], [a > b], [a < b] on numbers. *)
Definition ge (a b : number) : bool := Qle_bool b a.
Definition gt (a b : number) : bool := negb (Qle_bool a b).
Definition lt (a b : number) : bool := negb (Qle_bool b a).

(** The value of a numeric field of an incoming record: the field may be
    absent ([undefined]), explicitly [null], a number, or [NaN] (the result
    of arithmetic on [undefined]). *)
Inductive value : Type :=
| VNull
| VUndefined
| VNaN
| VNum (x : number).

(** ToNumber: [null] is 0, [undefined] is NaN ([None]). *)
Definition to_number (v : value) : option number :=
  match v with
  | VNull => Some 0
  | VUndefined => None
  | VNaN => None
  | VNum x => Some x
  end.

Definition of_number (o : option number) : value :=
  match o with
  | Some x => VNum x
  | None => VNaN
  end.

(** [v < k] and [v > k] for a numeric literal [k]; a comparison with NaN is
    false. *)
Definition lt_lit (v : value) (k : number) : bool :=
  match to_number v with
  | Some x => lt x k
  | None => false
  end.

Definition gt_lit (v : value) (k : number) : bool :=
  match to_number v with
  | Some x => gt x k
  | None => false
  end.

(** [v === null]. *)
Definition is_null (v : value) : bool :=
  match v with
  | VNull => true
  | _ => false
  end.

(** [a !== b] (strict inequality; NaN differs from itself). *)
Definition strict_neq (a b : value) : bool :=
  match a, b with
  | VNull, VNull => false
  | VUndefined, VUndefined => false
  | VNum x, VNum y => negb (Qeq_bool x y)
  | _, _ => true
  end.

(** Truthiness of a string and of an optional string ([None] is
    [undefined] or [null]). *)
Definition truthy_string (s : string) : bool :=
  match s with
  | EmptyString => false
  | String _ _ => true
  end.

Definition truthy (o : option string) : bool :=
  match o with
  | Some s => truthy_string s
  | None => false
  end.

(** [a !== b] on optional strings and on optional integers. *)
Definition opt_string_neq (a b : option string) : bool :=
  match a, b with
  | Some x, Some y => negb (String.eqb x y)
  | None, None => false
  | _, _ => true
  end.

Definition opt_int_neq (a b : option Z) : bool :=
  match a, b with
  | Some x, Some y => negb (Z.eqb x y)
  | None, None => false
  | _, _ => true
  end.

(** Template-literal rendering of an integer and of a possibly absent one.
    The integers rendered are record indices, far below the 1e21 from which
    JavaScript prints an exponent. *)
Definition show_int (z : Z) : string := NilZero.string_of_int (Z.to_int z).

Definition show_opt_int (o : option Z) : string :=
  match o with
  | Some z => show_int z
  | None => "undefined"
  end.

Definition show_opt_string (o : option string) : string :=
  match o with
  | Some s => s
  | None => "undefined"
  end.

(** [o || d] for an optional string. *)
Definition or_default (o : option string) (d : string) : string :=
  match o with
  | Some s => if truthy_string s then s else d
  | None => d
  end.

(** [s.includes(sub)]. *)
Definition includes (sub s : string) : bool :=
  match String.index 0 sub s with
  | Some _ => true
  | None => false
  end.

(** [Array.prototype.sort(cmp)].  The language specification makes the
    sort stable, and for a consistent comparator the result of a stable sort
    is unique, so any stable algorithm models it; this one is insertion:
    an element, coming from the front, passes exactly the entries that
    compare strictly before it ([cmp(y, x) < 0]). *)
Section Sort.
Context {A : Type} (cmp : A -> A -> Z).

Fixpoint insert (x : A) (l : list A) : list A :=
  match l with
  | [] => [x]
  | y :: l' => if (cmp y x <? 0)%Z then y :: insert x l' else x :: y :: l'
  end.

Fixpoint sort (l : list A) : list A :=
  match l with
  | [] => []
  | x :: l' => insert x (sort l')
  end.
End Sort.

End Js.

(* ------------------------------------------------------------------ *)
(** * iconSizeUtils.js *)

Module IconSizeUtils.
Import Js.

Record IconConfig : Type := {
  size : number * number;
  anchor : number * number;
  popupAnchor : number * number
}.

Record IconSizes : Type := {
  icon : IconConfig;
  satellite : IconConfig
}.

Definition config_of (sz : number * number) : IconConfig :=
  {| size := sz;
     anchor := (fst sz / 2, snd sz / 2);
     popupAnchor := (0, - snd sz / 2) |}.

Definition calculateIconSizes (zoomLevel : number) : IconSizes :=
  let sizes : (number * number) * (number * number) :=
    if ge zoomLevel 13 then ((16, 16), (14, 14))
    else if ge zoomLevel 10 then ((24, 24), (20, 20))
    else if ge zoomLevel 7 then ((32, 32), (26, 26))
    else if ge zoomLevel 5 then ((40, 40), (32, 32))
    else ((48, 48), (40, 40)) in
  {| icon := config_of (fst sizes);
     satellite := config_of (snd sizes) |}.

End IconSizeUtils.

(* ------------------------------------------------------------------ *)
(** * geoUtils.js *)

Module GeoUtils.
Import Js.

(** [normalizeCoordinates(lon)]: one wrap of 360 degrees in either
    direction; anything that compares false both ways is returned as is. *)
Definition normalizeCoordinates (lon : value) : value :=
  if gt_lit lon 180 then of_number (option_map (fun x => x - 360) (to_number lon))
  else if lt_lit lon (-180) then of_number (option_map (fun x => x + 360) (to_number lon))
  else lon.

End GeoUtils.

(* ------------------------------------------------------------------ *)
(** * markerManager.js *)

Module MarkerManager.
Import Js.

(** An incoming marker record and, after processing, an entry of
    [this.markers]. *)
Record Marker : Type := {
  id : option string;
  i : option Z;
  lat : value;
  lon : value;
  name : option string;
  var : value;
  iconNumber : value;
  iconColor : value
}.

Definition with_id (m : Marker) (x : option string) : Marker :=
  {| id := x; i := i m; lat := lat m; lon := lon m; name := name m;
     var := var m; iconNumber := iconNumber m; iconColor := iconColor m |}.

Definition with_lon (m : Marker) (x : value) : Marker :=
  {| id := id m; i := i m; lat := lat m; lon := x; name := name m;
     var := var m; iconNumber := iconNumber m; iconColor := iconColor m |}.


Definition with_icon (m : Marker) (n c : value) : Marker :=
  {| id := id m; i := i m; lat := lat m; lon := lon m; name := name m;
     var := var m; iconNumber := n; iconColor := c |}.

(** The Leaflet marker object behind an id: its position, the options it
    was created with, and whether its popup is open. *)
Record Handle : Type := {
  latlng : value * value;
  markerId : option string;
  markerVar : value;
  tooltipContent : option string;
  tooltipPermanent : bool;
  popupOpen : bool
}.

(** Calls that reach the rendering surface, the console or the
    coordinator's progress field. *)
Inductive SurfaceCall : Type :=
| ClearLayers
| CreateClusterGroup
| RemoveClusterGroup
| AddLayer (cluster : bool) (key : option string)
| RemoveLayer (cluster : bool) (key : option string)
| SetLatLng (key : option string) (lat lon : value)
| SetIcon (key : option string)
| UnbindPopup (key : option string)
| BindPopup (key : option string)
| OpenPopup (key : option string)
| ReportProgress (index length : nat)
| WarnInvalidList
| WarnInvalidData
| WarnMissingMarker (key : option string).

(** What the manager reads from the coordinator; the mode is a non-empty
    string, as [createCoordinator] and [updateMarkerMode] leave it. *)
Record CoordinatorView : Type := {
  currentMarkerMode : string;
  currentTooltipState : bool
}.

Record State : Type := {
  markers : list Marker;
  markerInstances : list (option string * Handle);
  currentClusterMode : bool;
  clusterGroup : bool;
  surface : list SurfaceCall
}.

Definition with_markers (st : State) (ms : list Marker) : State :=
  {| markers := ms; markerInstances := markerInstances st;
     currentClusterMode := currentClusterMode st;
     clusterGroup := clusterGroup st; surface := surface st |}.

Definition with_instances (st : State) (mi : list (option string * Handle)) : State :=
  {| markers := markers st; markerInstances := mi;
     currentClusterMode := currentClusterMode st;
     clusterGroup := clusterGroup st; surface := surface st |}.

Definition with_cluster (st : State) (mode group : bool) : State :=
  {| markers := markers st; markerInstances := markerInstances st;
     currentClusterMode := mode;
     clusterGroup := group; surface := surface st |}.

Definition emit (st : State) (calls : list SurfaceCall) : State :=
  {| markers := markers st; markerInstances := markerInstances st;
     currentClusterMode := currentClusterMode st;
     clusterGroup := clusterGroup st; surface := surface st ++ calls |}.

(** ** Keys, [Map] and [Set] in insertion order *)

Definition key_eqb (a b : option string) : bool :=
  match a, b with
  | Some x, Some y => String.eqb x y
  | None, None => true
  | _, _ => false
  end.

Section MapOps.
Context {V : Type}.

Fixpoint map_get (k : option string) (m : list (option string * V)) : option V :=
  match m with
  | [] => None
  | (k', v) :: m' => if key_eqb k k' then Some v else map_get k m'
  end.

Definition map_has (k : option string) (m : list (option string * V)) : bool :=
  match map_get k m with
  | Some _ => true
  | None => false
  end.

(** [m.set(k, v)]: an existing key keeps its place. *)
Fixpoint map_set (k : option string) (v : V) (m : list (option string * V))
  : list (option string * V) :=
  match m with
  | [] => [(k, v)]
  | (k', v') :: m' =>
      if key_eqb k k' then (k', v) :: m' else (k', v') :: map_set k v m'
  end.

Definition map_delete (k : option string) (m : list (option string * V))
  : list (option string * V) :=
  filter (fun e => negb (key_eqb k (fst e))) m.

Definition map_keys (m : list (option string * V)) : list (option string) :=
  List.map fst m.
End MapOps.

Definition set_has (k : option string) (s : list (option string)) : bool :=
  existsb (key_eqb k) s.

Definition set_delete (k : option string) (s : list (option string))
  : list (option string) :=
  filter (fun k' => negb (key_eqb k k')) s.

(** ** The operations *)

(** [marker.id = marker.id || `marker_${marker.i}`]. *)
Definition assign_id (m : Marker) : Marker :=
  if truthy (id m) then m
  else with_id m (Some ("marker_" ++ show_opt_int (i m))%string).

(** [marker.i % 16] and [Math.floor(marker.i / 16)]. *)
Definition icon_number (o : option Z) : value :=
  match o with
  | Some z => VNum (inject_Z (Z.rem z 16))
  | None => VNaN
  end.

Definition icon_color (o : option Z) : value :=
  match o with
  | Some z => VNum (inject_Z (z / 16))
  | None => VNaN
  end.

Definition prepare (m : Marker) : Marker :=
  let m1 := assign_id m in
  with_icon m1 (icon_number (i m1)) (icon_color (i m1)).

(** [marker.lon < -140 || marker.lon > 140]. *)
Definition crossesDateLine (m : Marker) : bool :=
  lt_lit (lon m) (-140) || gt_lit (lon m) 140.

(** [marker.lat === null || marker.lon === null]. *)
Definition withoutCoords (m : Marker) : bool :=
  is_null (lat m) || is_null (lon m).

Definition mirror (v : value) : value :=
  if lt_lit v 0
  then of_number (option_map (fun x => 180 + (180 + x)) (to_number v))
  else of_number (option_map (fun x => -(180) - (180 - x)) (to_number v)).

(** The copy built by [duplicateMarkerAcrossDateLine]. *)
Definition duplicatedMarker (marker : Marker) : Marker :=
  with_lon (with_id marker (Some (show_opt_string (id marker) ++ "_dateline")%string))
           (mirror (lon marker)).

Definition duplicateMarkerAcrossDateLine (marker : Marker) (markersArray : list Marker)
  : list Marker :=
  markersArray ++ [duplicatedMarker marker].

Definition clearAllMarkers (st : State) : State :=
  with_instances (emit st [ClearLayers]) [].

(** The loops of [toggleClusterMode] that put the saved Leaflet markers on
    the other layer and register them again. *)
Fixpoint readd (cluster : bool) (hs : list Handle) (st : State) : State :=
  match hs with
  | [] => st
  | h :: hs' =>
      let st1 := emit st [AddLayer cluster (markerId h)] in
      readd cluster hs'
        (with_instances st1 (map_set (markerId h) h (markerInstances st1)))
  end.

Definition toggleClusterMode (st : State) (enable : bool) : State :=
  if Bool.eqb enable (currentClusterMode st) then st
  else
    let currentMarkers := List.map snd (markerInstances st) in
    let st1 := clearAllMarkers st in
    let st2 :=
      if enable then
        let st' := if clusterGroup st1 then st1
                   else with_cluster (emit st1 [CreateClusterGroup])
                                     (currentClusterMode st1) true in
        readd true currentMarkers st'
      else
        let st' := if clusterGroup st1 then emit st1 [RemoveClusterGroup] else st1 in
        readd false currentMarkers st' in
    with_cluster st2 enable (clusterGroup st2).

(** ** How a call ends *)

(** An [async] method of the manager runs to its end, or an exception
    leaves it and its promise is rejected.  Either way the manager and the
    surface are left in a state: what was done before the exception stays
    done. *)
Inductive Result : Type :=
| Done (st : State)
| Threw (st : State).

Definition stateOf (r : Result) : State :=
  match r with
  | Done st => st
  | Threw st => st
  end.

(** The rest of a method runs only if what came before did not throw. *)
Definition andThen (r : Result) (rest : State -> Result) : Result :=
  match r with
  | Done st => rest st
  | Threw st => Threw st
  end.

(** ** What Leaflet and the renderer accept *)

(** [isNaN(v)]. *)
Definition isNaN (v : value) : bool :=
  match to_number v with
  | Some _ => false
  | None => true
  end.

(** [L.marker([lat, lon])] and [marker.setLatLng([lat, lon])] build the
    position with [new L.LatLng(lat, lon)], which throws "Invalid LatLng
    object" when [isNaN] holds of either coordinate. *)
Definition invalidLatLng (lat0 lon0 : value) : bool :=
  isNaN lat0 || isNaN lon0.

(** [v.toFixed(n)] throws a TypeError on [null] and on [undefined]. *)
Definition lacksToFixed (v : value) : bool :=
  match v with
  | VNull => true
  | VUndefined => true
  | _ => false
  end.

(** Where [markerRenderer.createMarkerPopup(markerData, lon)] throws.
    Outside the mode [num_state] the value is shown with
    [markerData.var.toFixed(1)].  The coordinate line ends in
    [markerData.lat.toFixed(6)] and [lon.toFixed(6)]; it first tries the
    component's [positionFormatter], which is not under src/: numbers are
    formatted either way, and for a missing coordinate the formatter is
    taken to be absent or to throw, so that [toFixed] is reached.  The
    renderer reads the mode from the coordinator it was initialised
    with, the one the manager is passed. *)
Definition popupThrows (cv : CoordinatorView) (markerData : Marker) (lon0 : value) : bool :=
  (negb (String.eqb (currentMarkerMode cv) "num_state") && lacksToFixed (var markerData))
  || lacksToFixed (lat markerData) || lacksToFixed lon0.

(** The body of the creation loop for the marker at index [idx] of a list
    of [len] markers.  [createMarkerIcon], [bindPopup], [setupPopupEvents]
    and [bindTooltip] return normally; [L.marker] and [createMarkerPopup]
    may throw, and they do so before the marker is registered.  The
    progress written every fiftieth marker is
    [Math.floor((idx / len) * 100)] as JavaScript computes it; the trace
    records the two operands. *)
Definition createOne (cv : CoordinatorView) (useCluster : bool) (len : nat)
    (idx : nat) (markerData : Marker) (st : State) : Result :=
  let lon' := GeoUtils.normalizeCoordinates (lon markerData) in
  if invalidLatLng (lat markerData) lon' then Threw st
  else if popupThrows cv markerData lon' then Threw st
  else
    let marker :=
      {| latlng := (lat markerData, lon');
         markerId := id markerData;
         markerVar := var markerData;
         tooltipContent := name markerData;
         tooltipPermanent := currentTooltipState cv;
         popupOpen := false |} in
    let st1 := with_instances st (map_set (id markerData) marker (markerInstances st)) in
    let st2 := emit st1 [AddLayer useCluster (id markerData)] in
    Done (if (Nat.modulo idx 50 =? 0)%nat
          then emit st2 [ReportProgress idx len]
          else st2).

Fixpoint createLoop (cv : CoordinatorView) (useCluster : bool) (len : nat)
    (idx : nat) (l : list Marker) (st : State) : Result :=
  match l with
  | [] => Done st
  | m :: l' =>
      andThen (createOne cv useCluster len idx m st)
              (createLoop cv useCluster len (S idx) l')
  end.

(** [useCluster] is read as the boolean the layer test sees.  The mode is a
    mode name of the configuration; for the empty string the code holds that
    string in [useCluster], which differs from either boolean under [!==]. *)
Definition createSpecificMarkers (cv : CoordinatorView) (st : State)
    (markerList : list Marker) : Result :=
  let useCluster :=
    truthy_string (currentMarkerMode cv) && includes "cluster" (currentMarkerMode cv) in
  let st1 :=
    if Bool.eqb useCluster (currentClusterMode st) then st
    else toggleClusterMode st useCluster in
  createLoop cv useCluster (List.length markerList) 0 markerList st1.

Definition createMarkers (cv : CoordinatorView) (st : State) : Result :=
  let st1 := clearAllMarkers st in
  createSpecificMarkers cv st1 (markers st1).

(** The [forEach] body of [processMarkers], on the list of markers with
    coordinates built so far. *)
Definition processOne (markersWithCoords : list Marker) (marker : Marker) : list Marker :=
  let m := prepare marker in
  if withoutCoords m then markersWithCoords
  else
    let acc := markersWithCoords ++ [m] in
    if crossesDateLine m then duplicateMarkerAcrossDateLine m acc else acc.

Definition processMarkers (cv : CoordinatorView) (st : State)
    (markerList : option (list Marker)) : Result :=
  match markerList with
  | None => Done (emit st [WarnInvalidList])
  | Some l =>
      let markersWithCoords := fold_left processOne l [] in
      createMarkers cv (with_markers st markersWithCoords)
  end.

Definition hasMarkerChanged (oldMarker newMarker : Marker) : bool :=
  if strict_neq (lat oldMarker) (lat newMarker) || strict_neq (lon oldMarker) (lon newMarker)
  then true
  else if opt_string_neq (name oldMarker) (name newMarker) then true
  else if strict_neq (var oldMarker) (var newMarker) then true
  else if opt_int_neq (i oldMarker) (i newMarker) then true
  else false.

(** [this.markers[index] = markerData] at the first entry with that id. *)
Fixpoint replaceFirst (k : option string) (markerData : Marker) (ms : list Marker)
  : list Marker :=
  match ms with
  | [] => []
  | m :: ms' =>
      if key_eqb (id m) k then markerData :: ms'
      else m :: replaceFirst k markerData ms'
  end.

(** [updateMarker]: [setLatLng] throws on a position Leaflet rejects, before
    the marker is moved; [createMarkerPopup] may throw once the marker has
    been moved and given its new icon, and then the popup and the record in
    [this.markers] stay as they were. *)
Definition updateMarker (cv : CoordinatorView) (st : State) (markerData : Marker) : Result :=
  let k := id markerData in
  match map_get k (markerInstances st) with
  | None => Done (emit st [WarnMissingMarker k])
  | Some marker =>
      let lon' := GeoUtils.normalizeCoordinates (lon markerData) in
      if invalidLatLng (lat markerData) lon' then Threw st
      else
        let marker' :=
          {| latlng := (lat markerData, lon');
             markerId := markerId marker;
             markerVar := markerVar marker;
             tooltipContent := tooltipContent marker;
             tooltipPermanent := tooltipPermanent marker;
             popupOpen := popupOpen marker |} in
        let st1 := with_instances (emit st [SetLatLng k (lat markerData) lon'; SetIcon k])
                     (map_set k marker' (markerInstances st)) in
        if popupThrows cv markerData lon' then Threw st1
        else
          let st2 := emit st1 ([UnbindPopup k; BindPopup k]
                               ++ (if popupOpen marker then [OpenPopup k] else [])) in
          Done (with_markers st2 (replaceFirst k markerData (markers st2)))
  end.

Definition removeMarker (st : State) (k : option string) : State :=
  if map_has k (markerInstances st) then
    let st1 := emit st [RemoveLayer (currentClusterMode st) k] in
    let st2 := with_instances st1 (map_delete k (markerInstances st1)) in
    with_markers st2 (filter (fun m => negb (key_eqb (id m) k)) (markers st2))
  else st.

(** The loop state of [updateChangedMarkers]; [thrown] is set when an
    [updateMarker] threw, which ends the loop and the method. *)
Record DiffState : Type := {
  live : State;
  markersToAdd : list Marker;
  markersToRemove : list (option string);
  thrown : bool
}.

Definition diffOne (cv : CoordinatorView)
    (currentMarkersMap : list (option string * Marker))
    (d : DiffState) (incoming : Marker) : DiffState :=
  if thrown d then d
  else
    let newMarker := assign_id incoming in
    if withoutCoords newMarker then d
    else
      let toRemove := set_delete (id newMarker) (markersToRemove d) in
      match map_get (id newMarker) currentMarkersMap with
      | Some currentMarker =>
          if hasMarkerChanged currentMarker newMarker then
            match updateMarker cv (live d) newMarker with
            | Done st' =>
                {| live := st'; markersToAdd := markersToAdd d;
                   markersToRemove := toRemove; thrown := false |}
            | Threw st' =>
                {| live := st'; markersToAdd := markersToAdd d;
                   markersToRemove := toRemove; thrown := true |}
            end
          else
            {| live := live d; markersToAdd := markersToAdd d;
               markersToRemove := toRemove; thrown := false |}
      | None =>
          let acc := markersToAdd d ++ [newMarker] in
          {| live := live d;
             markersToAdd := if crossesDateLine newMarker
                             then duplicateMarkerAcrossDateLine newMarker acc
                             else acc;
             markersToRemove := toRemove; thrown := false |}
      end.

Definition updateChangedMarkers (cv : CoordinatorView) (st : State)
    (newMarkerList : list Marker) : Result :=
  let currentMarkersMap :=
    fold_left (fun acc m => map_set (id m) m acc) (markers st) [] in
  let d0 := {| live := st; markersToAdd := [];
               markersToRemove := map_keys currentMarkersMap; thrown := false |} in
  let d := fold_left (diffOne cv currentMarkersMap) newMarkerList d0 in
  if thrown d then Threw (live d)
  else
    let st1 := fold_left removeMarker (markersToRemove d) (live d) in
    match markersToAdd d with
    | [] => Done st1
    | _ :: _ =>
        let kept := filter (fun m => negb (set_has (id m) (markersToRemove d))) (markers st1) in
        createSpecificMarkers cv (with_markers st1 (kept ++ markersToAdd d)) (markersToAdd d)
    end.

(** The refresh payload. *)
Record Payload : Type := {
  list_ : option (list Marker);
  map_url : option string;
  refreshMode : option string
}.

Definition abs_diff (a b : nat) : Z := Z.abs (Z.of_nat a - Z.of_nat b).

(** Reads [data.list.length]; called only once [data.list] is known to be
    there. *)
Definition shouldRefreshAllMarkers (st : State) (l : list Marker) (data : Payload) : bool :=
  if (10 <? abs_diff (List.length (markers st)) (List.length l))%Z then true
  else if truthy (map_url data) || truthy (refreshMode data) then true
  else false.

Definition updateMarkersFromData (cv : CoordinatorView) (st : State)
    (data : option Payload) : Result :=
  match data with
  | None => Done (emit st [WarnInvalidData])
  | Some p =>
      match list_ p with
      | None => Done (emit st [WarnInvalidData])
      | Some l =>
          if shouldRefreshAllMarkers st l p then processMarkers cv st (Some l)
          else updateChangedMarkers cv st l
      end
  end.

End MarkerManager.

(* ------------------------------------------------------------------ *)
(** * mapCoordinator.js

    The functions act on the coordinator object they are given.  [now] is
    what [Date.now()] returns during the call; the clock does not advance
    within one synchronous call.  A dynamic [import(...).then(...)] only
    schedules work, so it is recorded as an effect and the call goes on. *)

Module MapCoordinator.
Import Js.

(** The downstream operation an event type is routed to. *)
Inductive Downstream : Type :=
| UpdateMarkersFromData
| ProcessMarkers
| ApplyIconSizeUpdate
| UpdateTooltipState
| UpdateMarkerMode
| HandleMapInteraction
| PerformUpdate.

(** How a downstream promise settles. *)
Inductive Settled : Type :=
| Fulfilled
| Rejected (message : string).

Record ErrorInfo : Type := {
  code : Z;
  message : string
}.

Set Implicit Arguments.
Set Maximal Implicit Insertion.

Section WithData.
(** Event payloads are opaque to the coordinator. *)
Variable Data : Type.

(** What the coordinator asks of its environment: the dynamic imports
    with the call made once the module is loaded, and console output. *)
Inductive Effect : Type :=
| StopUpdates
| Dispatch (op : Downstream) (eventType : string) (payload : option Data)
| ErrorNoComponent
| WarnUnknownType (eventType : option string).

(** What [determineAction] returns: the name of an action, or the member
    of [Object.prototype] found under the event type. *)
Inductive Action : Type :=
| Named (name : string)
| Inherited (key : string).

Record CurrentEvent : Type := {
  type : option string;
  action : option Action;
  startTime : option Z;
  isInterruptible : bool;
  priority : option string;
  progress : Z;
  data : option Data
}.

Record QueuedEvent : Type := {
  q_type : string;
  q_data : option Data;
  q_priority : string;
  q_timestamp : Z
}.

Record UserEvent : Type := {
  u_type : option string;
  u_timestamp : option Z;
  u_data : option Data
}.

(** The fields of the coordinator object that mapCoordinator.js reads or
    writes; [componentInstance] is kept as "set or not". *)
Record Coordinator : Type := {
  state : string;
  errorInfo : ErrorInfo;
  currentEvent : CurrentEvent;
  eventQueue : list QueuedEvent;
  lastUserEvent : UserEvent;
  componentInstance : bool;
  effects : list Effect
}.

Definition with_currentEvent (c : Coordinator) (e : CurrentEvent) : Coordinator :=
  {| state := state c; errorInfo := errorInfo c; currentEvent := e;
     eventQueue := eventQueue c; lastUserEvent := lastUserEvent c;
     componentInstance := componentInstance c; effects := effects c |}.

Definition with_eventQueue (c : Coordinator) (q : list QueuedEvent) : Coordinator :=
  {| state := state c; errorInfo := errorInfo c; currentEvent := currentEvent c;
     eventQueue := q; lastUserEvent := lastUserEvent c;
     componentInstance := componentInstance c; effects := effects c |}.

Definition with_lastUserEvent (c : Coordinator) (u : UserEvent) : Coordinator :=
  {| state := state c; errorInfo := errorInfo c; currentEvent := currentEvent c;
     eventQueue := eventQueue c; lastUserEvent := u;
     componentInstance := componentInstance c; effects := effects c |}.

Definition with_error (c : Coordinator) (e : ErrorInfo) (s : string) : Coordinator :=
  {| state := s; errorInfo := e; currentEvent := currentEvent c;
     eventQueue := eventQueue c; lastUserEvent := lastUserEvent c;
     componentInstance := componentInstance c; effects := effects c |}.

Definition with_component (c : Coordinator) (b : bool) : Coordinator :=
  {| state := state c; errorInfo := errorInfo c; currentEvent := currentEvent c;
     eventQueue := eventQueue c; lastUserEvent := lastUserEvent c;
     componentInstance := b; effects := effects c |}.

Definition emit (c : Coordinator) (es : list Effect) : Coordinator :=
  {| state := state c; errorInfo := errorInfo c; currentEvent := currentEvent c;
     eventQueue := eventQueue c; lastUserEvent := lastUserEvent c;
     componentInstance := componentInstance c; effects := effects c ++ es |}.

(** The idle slot written by [createCoordinator] and [eventCompleted]; it
    has no [priority] field. *)
Definition idleEvent : CurrentEvent :=
  {| type := None; action := None; startTime := None; isInterruptible := true;
     priority := None; progress := 0; data := None |}.

Definition createCoordinator : Coordinator :=
  {| state := "initializing";
     errorInfo := {| code := 0; message := "" |};
     currentEvent := idleEvent;
     eventQueue := [];
     lastUserEvent := {| u_type := None; u_timestamp := None; u_data := None |};
     componentInstance := false;
     effects := [] |}.

Definition registerEvents (c : Coordinator) : Coordinator := with_component c true.
Definition unregisterEvents (c : Coordinator) : Coordinator := with_component c false.

Definition eventActionMap : list (string * string) :=
  [ ("data_update", "updateMap");
    ("process_markers", "processMarkers");
    ("user_zoom_change", "handleZoomChange");
    ("user_bounds_change", "handleBoundsChange");
    ("user_center_change", "handleCenterChange");
    ("marker_click", "handleMarkerClick");
    ("marker_hover", "handleMarkerHover");
    ("realtime_update", "handleRealtimeUpdate");
    ("update_icon_sizes", "updateIconSizes");
    ("update_tooltip_state", "updateTooltipState");
    ("update_marker_mode", "updateMarkerMode") ].

Fixpoint lookup (k : string) (m : list (string * string)) : option string :=
  match m with
  | [] => None
  | (k', v) :: m' => if String.eqb k k' then Some v else lookup k m'
  end.

(** The members every object literal inherits from [Object.prototype];
    looking one of them up in [eventActionMap] gives a function or an
    object, which is truthy, and not [undefined]. *)
Definition objectPrototypeKeys : list string :=
  [ "constructor"; "__proto__"; "hasOwnProperty"; "isPrototypeOf";
    "propertyIsEnumerable"; "toLocaleString"; "toString"; "valueOf";
    "__defineGetter__"; "__defineSetter__"; "__lookupGetter__";
    "__lookupSetter__" ].

(** [eventActionMap[eventType] || 'unknownAction']; the names in the table
    are not empty, hence truthy. *)
Definition determineAction (eventType : string) : Action :=
  match lookup eventType eventActionMap with
  | Some a => Named a
  | None =>
      if existsb (String.eqb eventType) objectPrototypeKeys
      then Inherited eventType
      else Named "unknownAction"
  end.

Definition nonInterruptibleEvents : list string :=
  [ "initialization"; "error_handling" ].

(** [this] in [isEventInterruptible] is the module object, not the
    coordinator state; [self] is its [currentEvent] property.  The module
    object declares no such property, so every call passes [None]. *)
Definition isEventInterruptible (self : option CurrentEvent) (eventType : string) : bool :=
  match self with
  | Some e =>
      if opt_string_neq (priority e) (Some "critical")
      then negb (existsb (String.eqb eventType) nonInterruptibleEvents)
      else true
  | None => negb (existsb (String.eqb eventType) nonInterruptibleEvents)
  end.

(** The [switch] of [executeEvent]. *)
Definition route (t : option string) : option Downstream :=
  match t with
  | None => None
  | Some s =>
      if String.eqb s "data_update" then Some UpdateMarkersFromData
      else if String.eqb s "process_markers" then Some ProcessMarkers
      else if String.eqb s "update_icon_sizes" then Some ApplyIconSizeUpdate
      else if String.eqb s "update_tooltip_state" then Some UpdateTooltipState
      else if String.eqb s "update_marker_mode" then Some UpdateMarkerMode
      else if String.eqb s "user_zoom_change" then Some HandleMapInteraction
      else if String.eqb s "user_bounds_change" then Some HandleMapInteraction
      else if String.eqb s "user_center_change" then Some HandleMapInteraction
      else if String.eqb s "realtime_update" then Some PerformUpdate
      else None
  end.

(** [executeEvent], [startEvent] and [eventCompleted] call each other
    through [this]; [completed] stands for [this.eventCompleted].  A
    routed event leaves the call with its downstream promise pending; the
    promise is settled later by [settle]. *)
Definition executeEvent (completed : Coordinator -> option Coordinator)
    (c : Coordinator) : option Coordinator :=
  let t := type (currentEvent c) in
  if negb (componentInstance c) then completed (emit c [ErrorNoComponent])
  else
    match route t with
    | Some op =>
        Some (emit c [Dispatch op (show_opt_string t) (data (currentEvent c))])
    | None => completed (emit c [WarnUnknownType t])
    end.

(** The active slot [startEvent] writes. *)
Definition activeSlot (now : Z) (eventType : string) (eventData : option Data)
    (priority : string) : CurrentEvent :=
  {| type := Some eventType;
     action := Some (determineAction eventType);
     startTime := Some now;
     isInterruptible := isEventInterruptible None eventType;
     priority := Some priority;
     progress := 0;
     data := eventData |}.

Definition startEvent (completed : Coordinator -> option Coordinator) (now : Z)
    (c : Coordinator) (eventType : string) (eventData : option Data)
    (priority : string) : option Coordinator :=
  executeEvent completed
    (with_currentEvent c (activeSlot now eventType eventData priority)).

(** The comparator passed to [sort] in [eventCompleted]. *)
Definition compareEvents (a b : QueuedEvent) : Z :=
  if String.eqb (q_priority a) "high" && negb (String.eqb (q_priority b) "high")
  then (-1)%Z
  else if String.eqb (q_priority b) "high" && negb (String.eqb (q_priority a) "high")
  then 1%Z
  else 0%Z.

(** [fuel] bounds the depth of the chain
    [eventCompleted -> startEvent -> executeEvent -> eventCompleted];
    [None] means the bound was reached. *)
Fixpoint eventCompleted (fuel : nat) (now : Z) (c : Coordinator) : option Coordinator :=
  match fuel with
  | O => None
  | S fuel' =>
      let c1 := with_currentEvent c idleEvent in
      match eventQueue c1 with
      | [] => Some c1
      | _ :: _ =>
          match sort compareEvents (eventQueue c1) with
          | [] => None
          | nextEvent :: rest =>
              startEvent (eventCompleted fuel' now) now (with_eventQueue c1 rest)
                (q_type nextEvent) (q_data nextEvent) "normal"
          end
      end
  end.

(** The entry pushed back for an interrupted active event. *)
Definition requeue (e : CurrentEvent) (t : string) (p : string) (now : Z) : QueuedEvent :=
  {| q_type := t; q_data := data e; q_priority := p; q_timestamp := now |}.

(** [coordinator.currentEvent.type] when it is truthy. *)
Definition activeType (c : Coordinator) : option string :=
  match type (currentEvent c) with
  | Some t => if truthy_string t then Some t else None
  | None => None
  end.

Definition queueEvent (fuel : nat) (now : Z) (c : Coordinator) (eventType : string)
    (eventData : option Data) (prio : string) : option Coordinator :=
  let cur := currentEvent c in
  if String.eqb prio "critical" then
    let c1 :=
      match activeType c with
      | Some t =>
          with_eventQueue c
            (requeue cur t (or_default (priority cur) "normal") now
             :: eventQueue c)
      | None => c
      end in
    let c2 := if String.eqb eventType "update_marker_mode"
              then emit c1 [StopUpdates] else c1 in
    startEvent (eventCompleted fuel now) now c2 eventType eventData prio
  else
    match activeType c with
    | None => startEvent (eventCompleted fuel now) now c eventType eventData "normal"
    | Some t =>
        if (String.eqb prio "high" || prefix "user_" eventType)
           && isInterruptible cur
        then
          let c1 := with_eventQueue c (requeue cur t "high" now :: eventQueue c) in
          startEvent (eventCompleted fuel now) now c1 eventType eventData "normal"
        else
          let c1 := with_eventQueue c
                      (eventQueue c ++
                       [ {| q_type := eventType; q_data := eventData;
                            q_priority := prio; q_timestamp := now |} ]) in
          Some (if prefix "user_" eventType
                then with_lastUserEvent c1
                       {| u_type := Some eventType; u_timestamp := Some now;
                          u_data := eventData |}
                else c1)
    end.

(** [handleEventError]: the message quotes the type in the active slot at
    the time of the failure. *)
Definition show_type (t : option string) : string :=
  match t with
  | Some s => s
  | None => "null"
  end.

Definition handleEventError (fuel : nat) (now : Z) (c : Coordinator)
    (errorMessage : string) : option Coordinator :=
  let info :=
    {| code := 500;
       message := ("Error in event " ++ show_type (type (currentEvent c)) ++ ": "
                   ++ errorMessage)%string |} in
  eventCompleted fuel now (with_error c info "error").

(** The [.then(...).catch(...)] chain attached to a downstream call. *)
Definition settle (fuel : nat) (now : Z) (c : Coordinator) (r : Settled)
  : option Coordinator :=
  match r with
  | Fulfilled => eventCompleted fuel now c
  | Rejected msg => handleEventError fuel now c msg
  end.

Definition updateEventProgress (c : Coordinator) (p : Z) : Coordinator :=
  let e := currentEvent c in
  with_currentEvent c
    {| type := type e; action := action e; startTime := startTime e;
       isInterruptible := isInterruptible e; priority := priority e;
       progress := p; data := data e |}.

End WithData.

Unset Maximal Implicit Insertion.
Unset Implicit Arguments.
End MapCoordinator.

(* ------------------------------------------------------------------ *)
(** * realtimeManager.js

    [performUpdate] is asynchronous; what its awaited calls did is given as
    an [Outcome], and no other call of the manager runs in between. *)

Module RealtimeManager.
Import Js.

(** What the awaited part of [performUpdate] did: found no data, updated
    the markers, or threw. *)
Inductive Outcome : Type :=
| NoData
| Updated
| Failed.

(** How a block of statements ends. *)
Inductive Completion : Type :=
| Normal
| Return.

Inductive Console : Type :=
| ErrorDuringUpdate
| WarnPausing (errors : nat).

(** A number the manager stores or hands to [setTimeout]: one it was given,
    or one it computes from a given one.  The numbers of this development
    are exact rationals, while a quotient or product of two doubles is
    rounded; the two computations of the manager are therefore recorded as
    they are written and not evaluated. *)
Inductive Amount : Type :=
| Given (x : number)
| DividedBy1000 (x : number)
| Times1000 (x : number).

(** The manager object, the two coordinator fields it writes, and the
    host's timer table: [timers] lists the pending timeouts with their
    delays, [nextTimer] is the handle the next [setTimeout] returns (handles
    are positive, hence truthy). *)
Record State : Type := {
  updateTimer : option positive;
  lastUpdateTime : option Z;
  isUpdating : bool;
  updateInterval : Amount;
  retryInterval : number;
  maxConsecutiveErrors : nat;
  errorCount : nat;
  coordinatorRealtimeInterval : Amount;
  coordinatorLastUpdateTime : option Z;
  timers : list (positive * Amount);
  nextTimer : positive;
  console : list Console
}.

Definition initial : State :=
  {| updateTimer := None;
     lastUpdateTime := None;
     isUpdating := false;
     updateInterval := Given 5000;
     retryInterval := 10000;
     maxConsecutiveErrors := 3;
     errorCount := 0;
     coordinatorRealtimeInterval := Given 5;
     coordinatorLastUpdateTime := None;
     timers := [];
     nextTimer := 1%positive;
     console := [] |}.

Definition with_timer (st : State) (t : option positive)
    (ts : list (positive * Amount)) (next : positive) : State :=
  {| updateTimer := t; lastUpdateTime := lastUpdateTime st;
     isUpdating := isUpdating st; updateInterval := updateInterval st;
     retryInterval := retryInterval st;
     maxConsecutiveErrors := maxConsecutiveErrors st;
     errorCount := errorCount st;
     coordinatorRealtimeInterval := coordinatorRealtimeInterval st;
     coordinatorLastUpdateTime := coordinatorLastUpdateTime st;
     timers := ts; nextTimer := next; console := console st |}.

Definition with_interval (st : State) (ms seconds : Amount) : State :=
  {| updateTimer := updateTimer st; lastUpdateTime := lastUpdateTime st;
     isUpdating := isUpdating st; updateInterval := ms;
     retryInterval := retryInterval st;
     maxConsecutiveErrors := maxConsecutiveErrors st;
     errorCount := errorCount st;
     coordinatorRealtimeInterval := seconds;
     coordinatorLastUpdateTime := coordinatorLastUpdateTime st;
     timers := timers st; nextTimer := nextTimer st; console := console st |}.

Definition with_isUpdating (st : State) (b : bool) : State :=
  {| updateTimer := updateTimer st; lastUpdateTime := lastUpdateTime st;
     isUpdating := b; updateInterval := updateInterval st;
     retryInterval := retryInterval st;
     maxConsecutiveErrors := maxConsecutiveErrors st;
     errorCount := errorCount st;
     coordinatorRealtimeInterval := coordinatorRealtimeInterval st;
     coordinatorLastUpdateTime := coordinatorLastUpdateTime st;
     timers := timers st; nextTimer := nextTimer st; console := console st |}.

(** [coord] is the coordinator passed in or, by default, the one the
    manager was initialised with; callers pass the same object. *)
Definition with_success (st : State) (now : Z) : State :=
  {| updateTimer := updateTimer st; lastUpdateTime := Some now;
     isUpdating := isUpdating st; updateInterval := updateInterval st;
     retryInterval := retryInterval st;
     maxConsecutiveErrors := maxConsecutiveErrors st;
     errorCount := 0;
     coordinatorRealtimeInterval := coordinatorRealtimeInterval st;
     coordinatorLastUpdateTime := Some now;
     timers := timers st; nextTimer := nextTimer st; console := console st |}.

Definition with_errorCount (st : State) (n : nat) (out : list Console) : State :=
  {| updateTimer := updateTimer st; lastUpdateTime := lastUpdateTime st;
     isUpdating := isUpdating st; updateInterval := updateInterval st;
     retryInterval := retryInterval st;
     maxConsecutiveErrors := maxConsecutiveErrors st;
     errorCount := n;
     coordinatorRealtimeInterval := coordinatorRealtimeInterval st;
     coordinatorLastUpdateTime := coordinatorLastUpdateTime st;
     timers := timers st; nextTimer := nextTimer st;
     console := console st ++ out |}.

(** [clearTimeout(handle)]. *)
Definition clearTimeout (h : positive) (ts : list (positive * Amount))
  : list (positive * Amount) :=
  filter (fun e => negb (Pos.eqb (fst e) h)) ts.

Definition stopUpdates (st : State) : State :=
  match updateTimer st with
  | Some h => with_timer st None (clearTimeout h (timers st)) (nextTimer st)
  | None => st
  end.

(** [scheduleNextUpdate(delay)]: [None] is the default [null]. *)
Definition scheduleNextUpdate (st : State) (delay : option Amount) : State :=
  let nextDelay := match delay with Some d => d | None => updateInterval st end in
  let h := nextTimer st in
  with_timer st (Some h) (timers st ++ [(h, nextDelay)]) (Pos.succ h).

(** [startUpdates(options)]: [interval] is [options.interval] when set. *)
Definition startUpdates (st : State) (interval : option number) : State :=
  let st1 := stopUpdates st in
  let st2 :=
    match interval with
    | Some ms =>
        if Qeq_bool ms 0 then st1
        else with_interval st1 (Given ms) (DividedBy1000 ms)
    | None => st1
    end in
  scheduleNextUpdate st2 (Some (Given 0)).

(** The [try] and [catch] blocks of [performUpdate]. *)
Definition tryCatch (st : State) (o : Outcome) (now : Z)
  : State * Completion :=
  match o with
  | NoData => (st, Return)
  | Updated => (with_success st now, Normal)
  | Failed =>
      let st1 := with_errorCount st (S (errorCount st)) [ErrorDuringUpdate] in
      if (maxConsecutiveErrors st1 <=? errorCount st1)%nat
      then (with_errorCount st1 (errorCount st1) [WarnPausing (errorCount st1)], Return)
      else (st1, Normal)
  end.

(** The [finally] block; it runs whichever way the blocks above ended.
    [external] tells whether a coordinator was passed in. *)
Definition finallyBlock (st : State) (external : bool) : State :=
  let st1 := with_isUpdating st false in
  if negb external then
    match updateTimer st1 with
    | Some _ => scheduleNextUpdate st1 None
    | None => st1
    end
  else st1.

Definition performUpdate (st : State) (external : bool) (o : Outcome) (now : Z) : State :=
  let st1 := with_isUpdating st true in
  let '(st2, _) := tryCatch st1 o now in
  finallyBlock st2 external.

(** The callback given to [setTimeout] by [scheduleNextUpdate], run by the
    host when timeout [h] expires; a cleared timeout never runs. *)
Definition fire (st : State) (h : positive) (isReady userInteracting : bool)
    (o : Outcome) (now : Z) : State :=
  if existsb (fun e => Pos.eqb (fst e) h) (timers st) then
    let st1 := with_timer st (updateTimer st) (clearTimeout h (timers st)) (nextTimer st) in
    if isReady && negb userInteracting
    then performUpdate st1 false o now
    else scheduleNextUpdate st1 None
  else st.

Definition forceUpdate (st : State) (o : Outcome) (now : Z) : State :=
  let st1 := stopUpdates st in
  scheduleNextUpdate (performUpdate st1 false o now) None.

(** The host fires the timeouts in [hs] one after the other; every update
    ends with outcome [o]. *)
Fixpoint fireAll (st : State) (hs : list positive) (o : Outcome) (now : Z) : State :=
  match hs with
  | [] => st
  | h :: hs' => fireAll (fire st h true false o now) hs' o now
  end.

End RealtimeManager.

(* ------------------------------------------------------------------ *)
(** * Vocabulary of the statements *)

Module MarkerSpec.
Import Js MarkerManager.

(** What one incoming record, once prepared, contributes to the list of
    markers with coordinates. *)
Definition staged (m : Marker) : list Marker :=
  if withoutCoords m then []
  else m :: (if crossesDateLine m then [duplicatedMarker m] else []).

(** [currentMarkersMap] as [updateChangedMarkers] builds it. *)
Definition currentMap (ms : list Marker) : list (option string * Marker) :=
  fold_left (fun acc m => map_set (id m) m acc) ms [].

Fixpoint distinct (ks : list (option string)) : bool :=
  match ks with
  | [] => true
  | k :: ks' => negb (set_has k ks') && distinct ks'
  end.

Definition is_number (v : value) : bool :=
  match v with
  | VNum _ => true
  | _ => false
  end.

(** A live marker: it has an id and a position, and compares equal to
    itself (no compared field is NaN). *)
Definition liveMarker (m : Marker) : bool :=
  truthy (id m) && (is_number (lat m) && is_number (lon m))
  && negb (hasMarkerChanged m m).

(** The live set as the engine keeps it: live markers with distinct ids,
    each with a Leaflet marker registered under its id. *)
Definition liveSet (st : State) : bool :=
  forallb liveMarker (markers st)
  && distinct (List.map id (markers st))
  && forallb (fun m => map_has (id m) (markerInstances st)) (markers st).


(** The popup can show the value: it is formatted with [toFixed] except in
    the mode [num_state]. *)
Definition popupShows (cv : CoordinatorView) (v : value) : bool :=
  String.eqb (currentMarkerMode cv) "num_state" || negb (lacksToFixed v).

(** A record Leaflet and the renderer accept: its position is made of two
    numbers and the popup can show its value. *)
Definition renders (cv : CoordinatorView) (m : Marker) : bool :=
  is_number (lat m) && is_number (lon m) && popupShows cv (var m).



Definition isAddition (c : SurfaceCall) : bool :=
  match c with
  | AddLayer _ _ => true
  | _ => false
  end.


Definition count (f : SurfaceCall -> bool) (calls : list SurfaceCall) : nat :=
  List.length (filter f calls).


(** Sample data: a record as upstream sends it, with index [n]. *)
Definition site (n : Z) (lat0 lon0 : value) (v : number) : Marker :=
  {| id := None; i := Some n; lat := lat0; lon := lon0; name := Some "site";
     var := VNum v; iconNumber := VUndefined; iconColor := VUndefined |}.

(** A record near the date line. *)
Definition east : Marker := site 0 (VNum 10) (VNum 170) 1.

(** A record that carries no latitude at all. *)
Definition unplaced : Marker := site 7 VUndefined (VNum 12) 1.

Definition view : CoordinatorView :=
  {| currentMarkerMode := "num_state"; currentTooltipState := false |}.

(** A mode that colours the markers by a continuous value. *)
Definition gauge : CoordinatorView :=
  {| currentMarkerMode := "signal"; currentTooltipState := false |}.

Definition empty : State :=
  {| markers := []; markerInstances := []; currentClusterMode := false;
     clusterGroup := false; surface := [] |}.

(** Three markers after a first load. *)
Definition fleet : State :=
  stateOf (processMarkers view empty
             (Some [ site 0 (VNum 10) (VNum 20) 1;
                     site 1 (VNum 11) (VNum 30) 1;
                     site 2 (VNum 12) (VNum 40) 2 ])).

(** Refresh payloads without flags whose lists hold [n] records. *)
Definition records (n : nat) : list Marker :=
  List.map (fun k => site (Z.of_nat k) (VNum 10) (VNum 20) 1) (seq 0 n).

Definition plain (l : list Marker) : Payload :=
  {| list_ := Some l; map_url := None; refreshMode := None |}.

End MarkerSpec.

Module CoordinatorSpec.
Import Js MapCoordinator.

Set Implicit Arguments.
Set Maximal Implicit Insertion.

Section WithData.
Variable Data : Type.

Definition isHigh (e : QueuedEvent Data) : bool := String.eqb (q_priority e) "high".

(** The reordering the specification describes: the [high] entries in
    their order, then the others in theirs. *)
Definition promoteHigh (q : list (QueuedEvent Data)) : list (QueuedEvent Data) :=
  filter isHigh q ++ filter (fun e => negb (isHigh e)) q.

(** A queue already in that form. *)
Definition promoted (q : list (QueuedEvent Data)) : Prop :=
  exists hs ls, q = hs ++ ls /\ forallb isHigh hs = true /\
                forallb (fun x => negb (isHigh x)) ls = true.

Definition isRouted (t : string) : bool :=
  match route (Some t) with
  | Some _ => true
  | None => false
  end.

(** What executing a queue entry asks of the environment. *)
Definition executionEffect (component : bool) (e : QueuedEvent Data) : Effect Data :=
  if negb component then ErrorNoComponent Data
  else
    match route (Some (q_type e)) with
    | Some op => Dispatch op (q_type e) (q_data e)
    | None => WarnUnknownType Data (Some (q_type e))
    end.

(** Entries one call of [eventCompleted] takes off the front of a promoted
    queue: up to and including the first whose execution stays pending. *)
Fixpoint taken (component : bool) (q : list (QueuedEvent Data)) : list (QueuedEvent Data) :=
  match q with
  | [] => []
  | e :: rest =>
      if component && isRouted (q_type e) then [e] else e :: taken component rest
  end.

Fixpoint left (component : bool) (q : list (QueuedEvent Data)) : list (QueuedEvent Data) :=
  match q with
  | [] => []
  | e :: rest =>
      if component && isRouted (q_type e) then rest else left component rest
  end.

Fixpoint slotAfter (component : bool) (now : Z) (q : list (QueuedEvent Data))
  : CurrentEvent Data :=
  match q with
  | [] => idleEvent Data
  | e :: rest =>
      if component && isRouted (q_type e)
      then activeSlot now (q_type e) (q_data e) "normal"
      else slotAfter component now rest
  end.

Definition completedState (now : Z) (c : Coordinator Data) : Coordinator Data :=
  let q := promoteHigh (eventQueue c) in
  let k := componentInstance c in
  {| state := state c;
     errorInfo := errorInfo c;
     currentEvent := slotAfter k now q;
     eventQueue := left k q;
     lastUserEvent := lastUserEvent c;
     componentInstance := k;
     effects := effects c ++ List.map (executionEffect k) (taken k q) |}.

(** The state in which a preempting event is executed: the active event,
    typed [t], is back at the front of the queue with priority [p], and the
    slot holds the new event. *)
Definition preemptedBy (now : Z) (c : Coordinator Data) (t p : string)
    (eventType : string) (eventData : option Data) (prio : string) : Coordinator Data :=
  with_currentEvent
    (with_eventQueue c (requeue (currentEvent c) t p now :: eventQueue c))
    (activeSlot now eventType eventData prio).

(** The entry a submission leaves at the tail of the queue. *)
Definition submitted (now : Z) (eventType : string) (eventData : option Data)
    (prio : string) : QueuedEvent Data :=
  {| q_type := eventType; q_data := eventData; q_priority := prio; q_timestamp := now |}.

(** The [import] of realtimeManager that a critical mode change asks for. *)
Definition modeChangeEffects (eventType : string) : list (Effect Data) :=
  if String.eqb eventType "update_marker_mode" then [StopUpdates Data] else [].

End WithData.

(** A coordinator whose component is registered and whose active event is a
    [data_update] started at time 0. *)
Definition busy : Coordinator nat :=
  {| state := "ready";
     errorInfo := {| code := 0; message := "" |};
     currentEvent := activeSlot 0 "data_update" (Some 1%nat) "normal";
     eventQueue := [];
     lastUserEvent := {| u_type := None; u_timestamp := None; u_data := None |};
     componentInstance := true;
     effects := [] |}.

(** The same with three entries waiting: normal, high, normal. *)
Definition backlog : Coordinator nat :=
  with_eventQueue busy
    [ submitted 1 "update_tooltip_state" (Some 2%nat) "normal";
      submitted 2 "user_zoom_change" (Some 3%nat) "high";
      submitted 3 "update_icon_sizes" (Some 4%nat) "normal" ].

Unset Maximal Implicit Insertion.
Unset Implicit Arguments.
End CoordinatorSpec.

Module RealtimeSpec.
Import Js RealtimeManager.

(** [startUpdates()] on a fresh manager, then three timeouts expire with the
    map ready and idle, and every update fails. *)
Definition threeFailures : State :=
  fireAll (startUpdates initial None) [1; 2; 3]%positive Failed 100.

End RealtimeSpec.

(* ------------------------------------------------------------------ *)
(** * Runs of the coordinator and of the poller *)

Module CoordinatorRuns.
Import Js MapCoordinator CoordinatorSpec.

Set Implicit Arguments.
Set Maximal Implicit Insertion.

Section WithData.
Variable Data : Type.

(** What [executeEvent] returns on [c0] once [startEvent] has written the
    slot for an event typed [eventType]: the event stays pending, or it is
    reported and [eventCompleted] takes over. *)
Definition executed (now : Z) (c0 : Coordinator Data) (eventType : string)
    (eventData : option Data) : Coordinator Data :=
  let report :=
    executionEffect (componentInstance c0) (submitted now eventType eventData "normal") in
  if componentInstance c0 && isRouted eventType
  then emit c0 [report]
  else completedState now (emit c0 [report]).

(** The slot is free, or holds an event of a routed type that may be
    interrupted. *)
Definition slotOk (e : CurrentEvent Data) : Prop :=
  type e = None \/
  exists t, type e = Some t /\ isRouted t = true /\ isInterruptible e = true.

(** How the state in which a submission is executed relates to the state
    it was submitted in: the queue is the one before when nothing was
    active, and has the interrupted event in front otherwise. *)
Definition entered (now : Z) (c c0 : Coordinator Data) (eventType : string)
    (eventData : option Data) : Prop :=
  (exists prio, currentEvent c0 = activeSlot now eventType eventData prio) /\
  state c0 = state c /\ errorInfo c0 = errorInfo c /\
  componentInstance c0 = componentInstance c /\
  (effects c0 = effects c \/ effects c0 = effects c ++ [StopUpdates Data]) /\
  ((activeType c = None /\ eventQueue c0 = eventQueue c) \/
   exists t prio,
     activeType c = Some t /\
     eventQueue c0 = requeue (currentEvent c) t prio now :: eventQueue c).

(** One call from outside: a submission, or the settling of the pending
    downstream promise. *)
Inductive Call : Type :=
| Submit (eventType : string) (eventData : option Data) (prio : string)
| Settle (r : Settled).

Definition call (fuel : nat) (now : Z) (c : Coordinator Data) (k : Call)
  : option (Coordinator Data) :=
  match k with
  | Submit eventType eventData prio => queueEvent fuel now c eventType eventData prio
  | Settle r => settle fuel now c r
  end.

End WithData.

Unset Maximal Implicit Insertion.
Unset Implicit Arguments.
End CoordinatorRuns.

(* ------------------------------------------------------------------ *)
(** * realtimeManager.js, the remaining controls *)

Module RealtimeControl.
Import Js RealtimeManager.

(** [setUpdateInterval(seconds)]: the running timer, if any, is replaced by
    a fresh start. *)
Definition setUpdateInterval (st : State) (seconds : number) : State :=
  let st1 := with_interval st (Times1000 seconds) (Given seconds) in
  match updateTimer st1 with
  | Some _ => startUpdates (stopUpdates st1) None
  | None => st1
  end.

(** [isActive()]. *)
Definition isActive (st : State) : bool :=
  match updateTimer st with
  | Some _ => true
  | None => false
  end.

(** One thing that happens to the manager: a call of its interface, or the
    host letting a timeout expire.  As in [performUpdate], a step runs to
    its end before the next one starts: no call arrives while an update is
    waiting for its data. *)
Inductive Step : Type :=
| Start (interval : option number)
| Stop
| Expire (h : positive) (isReady userInteracting : bool) (o : Outcome) (now : Z)
| Force (o : Outcome) (now : Z)
| SetInterval (seconds : number)
| Manual (o : Outcome) (now : Z).

Definition step (st : State) (s : Step) : State :=
  match s with
  | Start interval => startUpdates st interval
  | Stop => stopUpdates st
  | Expire h isReady userInteracting o now => fire st h isReady userInteracting o now
  | Force o now => forceUpdate st o now
  | SetInterval seconds => setUpdateInterval st seconds
  | Manual o now => performUpdate st true o now
  end.

Definition run (st : State) (steps : list Step) : State := fold_left step steps st.

(** At most one timeout is pending, and it is the stored one. *)
Definition tidy (st : State) : bool :=
  match timers st with
  | [] => true
  | [(h, _)] =>
      match updateTimer st with
      | Some h' => Pos.eqb h h'
      | None => false
      end
  | _ :: _ :: _ => false
  end.

(** Every pending timeout was armed with no delay or with the current
    interval. *)
Definition plainDelays (st : State) : Prop :=
  forall h d, In (h, d) (timers st) -> d = Given 0 \/ d = updateInterval st.

(** The error count a run of timer-path updates leaves behind: a success
    clears it, a failure adds one, the absence of data leaves it. *)
Definition countErrors (n : nat) (os : list Outcome) : nat :=
  fold_left (fun k o => match o with
                        | Updated => O
                        | Failed => S k
                        | NoData => k
                        end) os n.

(** The host lets the stored timeout expire, once per outcome, with the map
    ready and idle. *)
Fixpoint poll (st : State) (os : list Outcome) (now : Z) : State :=
  match os with
  | [] => st
  | o :: os' =>
      match updateTimer st with
      | Some h => poll (fire st h true false o now) os' now
      | None => st
      end
  end.

End RealtimeControl.

(* ------------------------------------------------------------------ *)
(** * markerManager.js, lookups and the vocabulary of its invariants *)

Module MarkerLookup.
Import Js MarkerManager MarkerSpec.

(** [getMarkerById(markerId)]. *)
Definition getMarkerById (st : State) (markerId : option string) : option Handle :=
  map_get markerId (markerInstances st).

(** [filterMarkers(filterFn)]. *)
Definition filterMarkers (st : State) (filterFn : Marker -> bool) : list Marker :=
  filter filterFn (markers st).

Definition is_nan (v : value) : bool :=
  match v with
  | VNaN => true
  | _ => false
  end.

(** A record as upstream data carries it: a position given by two numbers,
    and a [var] that is not NaN. *)
Definition placed (m : Marker) : bool :=
  is_number (lat m) && is_number (lon m) && negb (is_nan (var m)).

(** A record the renderer can draw under the mode in use: placed, with a
    [var] the popup can print. *)
Definition drawable (cv : CoordinatorView) (m : Marker) : bool :=
  placed m && popupShows cv (var m).

(** The registry of Leaflet markers is keyed by the id each marker was
    created with, and no key occurs twice. *)
Definition registryOk (mi : list (option string * Handle)) : bool :=
  forallb (fun e => key_eqb (fst e) (markerId (snd e))) mi
  && distinct (map_keys mi).

(** The Leaflet marker [createSpecificMarkers] builds for a record. *)
Definition handleOf (cv : CoordinatorView) (m : Marker) : Handle :=
  {| latlng := (lat m, GeoUtils.normalizeCoordinates (lon m));
     markerId := id m;
     markerVar := var m;
     tooltipContent := name m;
     tooltipPermanent := currentTooltipState cv;
     popupOpen := false |}.

(** What [toggleClusterMode] does with the cluster group before it adds
    the markers back: the group is created and put on the map only when
    there is none yet, and taken off the map when clustering is left. *)
Definition groupCalls (st : State) (enable : bool) : list SurfaceCall :=
  if enable then (if clusterGroup st then [] else [CreateClusterGroup])
  else (if clusterGroup st then [RemoveClusterGroup] else []).

(** The records of an upstream list that carry coordinates. *)
Definition located (l : list Marker) : list Marker :=
  filter (fun m => negb (withoutCoords m)) l.

End MarkerLookup.

(* ------------------------------------------------------------------ *)
(** * iconSizeUtils.js and userInteractionManager.js: sizes and modes that
      follow the zoom level *)

Module JsString.

(** [s.replace(pattern, replacement)] for a string pattern: the first
    occurrence only. *)
Definition replace (pattern replacement s : string) : string :=
  match String.index 0 pattern s with
  | Some n =>
      (String.substring 0 n s ++ replacement
         ++ String.substring (n + String.length pattern)
              (String.length s - (n + String.length pattern)) s)%string
  | None => s
  end.

End JsString.

Module InteractionManager.
Import Js IconSizeUtils.

(** [JSON.stringify(a) !== JSON.stringify(b)] for two arrays of two
    numbers. *)
Definition json_neq (a b : number * number) : bool :=
  negb (Qeq_bool (fst a) (fst b)) || negb (Qeq_bool (snd a) (snd b)).

(** [iconSizeUtils.haveSizesChanged(currentSizes, newSizes)]. *)
Definition haveSizesChanged (currentSizes newSizes : option IconSizes) : bool :=
  match currentSizes, newSizes with
  | Some c, Some n =>
      json_neq (size (icon c)) (size (icon n))
      || json_neq (size (satellite c)) (size (satellite n))
  | _, _ => true
  end.

(** What the interaction manager asks of the other modules. *)
Inductive Request : Type :=
| QueueEvent (eventType : string) (iconSizes : IconSizes) (prio : string)
| ClearIconCache
| UpdateMarkerMode (mode : string).

(** The fields of the coordinator these functions read and write, and the
    calls made so far.  [this.mapCoordinator] and the [coordinator] argument
    are the same object, the one [initialize] stores and
    [handleMapInteraction] passes on, and a component is registered, so
    that [componentInstance.queueEvent] can be called. *)
Record Coordinator : Type := {
  iconSizes : option IconSizes;
  currentZoom : number;
  previousZoom : option number;
  currentMarkerMode : string;
  requests : list Request
}.

Definition ask (c : Coordinator) (rs : list Request) : Coordinator :=
  {| iconSizes := iconSizes c; currentZoom := currentZoom c;
     previousZoom := previousZoom c; currentMarkerMode := currentMarkerMode c;
     requests := requests c ++ rs |}.

Definition with_sizes (c : Coordinator) (s : IconSizes) : Coordinator :=
  {| iconSizes := Some s; currentZoom := currentZoom c;
     previousZoom := previousZoom c; currentMarkerMode := currentMarkerMode c;
     requests := requests c |}.

Definition with_zoom (c : Coordinator) (z : number) : Coordinator :=
  {| iconSizes := iconSizes c; currentZoom := z;
     previousZoom := previousZoom c; currentMarkerMode := currentMarkerMode c;
     requests := requests c |}.

Definition with_previous (c : Coordinator) (z : number) : Coordinator :=
  {| iconSizes := iconSizes c; currentZoom := currentZoom c;
     previousZoom := Some z; currentMarkerMode := currentMarkerMode c;
     requests := requests c |}.

(** The coordinator's side of [markerManager.updateMarkerMode(coordinator,
    mode)]: the mode is written, the call is recorded. *)
Definition updateMarkerMode (c : Coordinator) (mode : string) : Coordinator :=
  ask {| iconSizes := iconSizes c; currentZoom := currentZoom c;
         previousZoom := previousZoom c; currentMarkerMode := mode;
         requests := requests c |}
      [UpdateMarkerMode mode].

(** The comparison [updateIconSizes] writes out by hand. *)
Definition sizesDiffer (currentSizes newSizes : IconSizes) : bool :=
  negb (Qeq_bool (fst (size (icon currentSizes))) (fst (size (icon newSizes))))
  || negb (Qeq_bool (snd (size (icon currentSizes))) (snd (size (icon newSizes))))
  || negb (Qeq_bool (fst (size (satellite currentSizes))) (fst (size (satellite newSizes))))
  || negb (Qeq_bool (snd (size (satellite currentSizes))) (snd (size (satellite newSizes)))).

(** [updateIconSizes(zoomLevel, forceUpdate)]. *)
Definition updateIconSizes (c : Coordinator) (zoomLevel : number) (forceUpdate : bool)
  : Coordinator :=
  let newSizes := calculateIconSizes zoomLevel in
  let sizesChanged :=
    if forceUpdate then true
    else match iconSizes c with
         | Some currentSizes => sizesDiffer currentSizes newSizes
         | None => false
         end in
  if sizesChanged then
    let newSizesCopy :=
      {| icon := {| size := size (icon newSizes); anchor := anchor (icon newSizes);
                    popupAnchor := popupAnchor (icon newSizes) |};
         satellite := {| size := size (satellite newSizes);
                         anchor := anchor (satellite newSizes);
                         popupAnchor := popupAnchor (satellite newSizes) |} |} in
    ask (with_sizes c newSizesCopy)
        (QueueEvent "update_icon_sizes" newSizesCopy "high"
           :: (if forceUpdate then [ClearIconCache] else []))
  else c.

Definition sizeThresholds : list number := [5; 7; 10; 13].

(** The loop of [handleZoomChange] over the size thresholds. *)
Definition crossesSizeThreshold (prevZoom zoom : number) : bool :=
  existsb (fun threshold =>
             (lt prevZoom threshold && ge zoom threshold)
             || (ge prevZoom threshold && lt zoom threshold))
          sizeThresholds.

Definition clusterThreshold : number := 8.

(** [handleZoomChange(coordinator, zoom)]. *)
Definition handleZoomChange (c : Coordinator) (zoom : number) : Coordinator :=
  let prevZoom := match previousZoom c with
                  | Some p => p
                  | None => zoom
                  end in
  let c1 := with_zoom c zoom in
  let c2 := if crossesSizeThreshold prevZoom zoom then updateIconSizes c1 zoom true else c1 in
  let c3 := with_previous c2 zoom in
  if ge clusterThreshold zoom && gt prevZoom clusterThreshold then
    if negb (includes "cluster" (currentMarkerMode c3))
    then updateMarkerMode c3 (currentMarkerMode c3 ++ "_cluster")%string
    else c3
  else if gt zoom clusterThreshold && ge clusterThreshold prevZoom then
    if includes "cluster" (currentMarkerMode c3)
    then updateMarkerMode c3 (JsString.replace "_cluster" "" (currentMarkerMode c3))
    else c3
  else c3.

(** The coordinator as [createCoordinator] makes it, before any zoom
    change. *)
Definition fresh : Coordinator :=
  {| iconSizes := Some (calculateIconSizes 5); currentZoom := 5;
     previousZoom := None; currentMarkerMode := "num_state"; requests := [] |}.

(** The coordinator after zoom changes to these levels, in turn. *)
Definition zoomed (c : Coordinator) (zooms : list number) : Coordinator :=
  fold_left handleZoomChange zooms c.

(** The stored sizes are those of the last zoom level handled. *)
Definition inStep (c : Coordinator) : Prop :=
  exists z, previousZoom c = Some z /\ currentZoom c = z
            /\ iconSizes c = Some (calculateIconSizes z).

End InteractionManager.

(* ------------------------------------------------------------------ *)
(** * geoUtils.js, longitudes as numbers *)

Module GeoPoints.
Import Js.

(** [normalizeCoordinates] on a number. *)
Definition normalize (lon0 : number) : number :=
  if gt lon0 180 then lon0 - 360
  else if lt lon0 (-180) then lon0 + 360
  else lon0.

End GeoPoints.

(* ------------------------------------------------------------------ *)
(** * Icon sizes *)

Section IconSizeFacts.
Import Js IconSizeUtils.

Lemma ge_true (a b : number) : ge a b = true -> b <= a.
Proof. unfold ge. apply Qle_bool_imp_le. Qed.

Lemma ge_false (a b : number) : ge a b = false -> a < b.
Proof.
  unfold ge. intros H. apply Qnot_le_lt. intros Hle.
  apply Qle_bool_iff in Hle. congruence.
Qed.

Ltac zoom_cases z :=
  unfold calculateIconSizes;
  destruct (ge z 13) eqn:?H13;
  [ | destruct (ge z 10) eqn:?H10;
      [ | destruct (ge z 7) eqn:?H7;
          [ | destruct (ge z 5) eqn:?H5 ] ] ].

Ltac to_order :=
  repeat match goal with
  | H : ge _ _ = true |- _ => apply ge_true in H
  | H : ge _ _ = false |- _ => apply ge_false in H
  end.

(** C9.  For zoom levels [z1 <= z2] the sizes computed by
    [calculateIconSizes] do not grow: width and height of the regular icon
    and of the satellite icon at [z2] are at most those at [z1]. *)
Theorem calculateIconSizes_monotone :
  forall z1 z2 : number,
    z1 <= z2 ->
    fst (size (icon (calculateIconSizes z2))) <= fst (size (icon (calculateIconSizes z1))) /\
    snd (size (icon (calculateIconSizes z2))) <= snd (size (icon (calculateIconSizes z1))) /\
    fst (size (satellite (calculateIconSizes z2)))
      <= fst (size (satellite (calculateIconSizes z1))) /\
    snd (size (satellite (calculateIconSizes z2)))
      <= snd (size (satellite (calculateIconSizes z1))).
Proof.
  intros z1 z2 Hle.
  zoom_cases z1; zoom_cases z2; to_order; cbn;
    first [ lra | repeat split; lra ].
Qed.

Lemma calculateIconSizes_monotone_witness :
  4 <= 13 /\
  fst (size (icon (calculateIconSizes 13))) <= fst (size (icon (calculateIconSizes 4))) /\
  snd (size (icon (calculateIconSizes 13))) <= snd (size (icon (calculateIconSizes 4))) /\
  fst (size (satellite (calculateIconSizes 13)))
    <= fst (size (satellite (calculateIconSizes 4))) /\
  snd (size (satellite (calculateIconSizes 13)))
    <= snd (size (satellite (calculateIconSizes 4))).
Proof.
  split; [ lra | apply (calculateIconSizes_monotone 4 13); lra ].
Defined.

End IconSizeFacts.

(* ------------------------------------------------------------------ *)
(** * Date-line duplicates *)

Section DateLineFacts.
Import Js MarkerManager MarkerSpec.

Lemma lt_true (a b : number) : lt a b = true -> a < b.
Proof.
  unfold lt. intros H. apply Qnot_le_lt. intros Hle.
  apply Qle_bool_iff in Hle. rewrite Hle in H. discriminate.
Qed.

Lemma lt_false (a b : number) : lt a b = false -> b <= a.
Proof.
  unfold lt. intros H. apply Qle_bool_iff.
  destruct (Qle_bool b a); [ reflexivity | discriminate ].
Qed.

Lemma lt_iff (a b : number) : lt a b = true <-> a < b.
Proof.
  split; [ apply lt_true | ].
  intros H. destruct (lt a b) eqn:E; [ reflexivity | ].
  apply lt_false in E. lra.
Qed.

Lemma gt_iff (a b : number) : gt a b = true <-> b < a.
Proof. unfold gt. apply (lt_iff b a). Qed.

Lemma gt_false (a b : number) : gt a b = false -> a <= b.
Proof. unfold gt. apply (lt_false b a). Qed.

Lemma lon_duplicatedMarker m : lon (duplicatedMarker m) = mirror (lon m).
Proof. reflexivity. Qed.

Lemma prepare_lon m : lon (prepare m) = lon m.
Proof. unfold prepare, assign_id. destruct (truthy (id m)); reflexivity. Qed.

Lemma prepare_lat m : lat (prepare m) = lat m.
Proof. unfold prepare, assign_id. destruct (truthy (id m)); reflexivity. Qed.

Lemma crosses_number m x :
  lon m = VNum x -> (crossesDateLine m = true <-> (x < -140 \/ 140 < x)).
Proof.
  intros E. unfold crossesDateLine, lt_lit, gt_lit. rewrite E. cbn.
  rewrite orb_true_iff, lt_iff, gt_iff. reflexivity.
Qed.

(** C6 (amended).  A record with coordinates whose longitude [x] lies beyond
    140 degrees either way is followed, in the list of markers with
    coordinates, by exactly one copy; the copy's id is the id with
    ["_dateline"] appended and its longitude is [180 + (180 + x)] for
    negative [x] and [-180 - (180 - x)] otherwise.  When [x] is within
    [-180, 180], normalising the copy's longitude gives a value within
    [-180, 180]; it is the original longitude when [x] is strictly inside. *)
Theorem dateline_duplicate :
  forall (m : Marker) (x : number) (acc : list Marker),
    withoutCoords m = false ->
    lon m = VNum x ->
    (x < -140 \/ 140 < x) ->
    let d := duplicatedMarker (prepare m) in
    processOne acc m = acc ++ [prepare m; d] /\
    id d = Some (show_opt_string (id (prepare m)) ++ "_dateline")%string /\
    (x < 0 -> lon d = VNum (180 + (180 + x))) /\
    (~ x < 0 -> lon d = VNum (-(180) - (180 - x))) /\
    (-180 <= x <= 180 ->
       exists y, GeoUtils.normalizeCoordinates (lon d) = VNum y /\
                 -180 <= y <= 180 /\
                 (-180 < x < 180 -> y == x)).
Proof.
  intros m x acc Hc Hx Hfar d.
  assert (Hc' : withoutCoords (prepare m) = false).
  { unfold withoutCoords in *. now rewrite prepare_lat, prepare_lon. }
  assert (Hx' : lon (prepare m) = VNum x) by now rewrite prepare_lon.
  assert (Hcross : crossesDateLine (prepare m) = true)
    by (apply (crosses_number _ x Hx'); exact Hfar).
  assert (Hlon : lon d = mirror (VNum x)).
  { unfold d. rewrite lon_duplicatedMarker. now rewrite Hx'. }
  split.
  { unfold processOne. rewrite Hc', Hcross. unfold duplicateMarkerAcrossDateLine.
    now rewrite <- app_assoc. }
  split; [ reflexivity | ].
  remember (lon d) as dl eqn:Edl. clear Edl.
  unfold mirror, lt_lit in Hlon. cbn in Hlon.
  destruct (lt x 0) eqn:Hneg.
  - apply lt_true in Hneg.
    split; [ intros _; exact Hlon | ].
    split; [ intros Hn; contradiction | ].
    intros [Hlo Hhi]. rewrite Hlon.
    unfold GeoUtils.normalizeCoordinates, gt_lit, lt_lit. cbn.
    destruct (gt (180 + (180 + x)) 180) eqn:G.
    + apply gt_iff in G. eexists; split; [ reflexivity | ].
      split; [ lra | intros _; lra ].
    + apply gt_false in G.
      destruct (lt (180 + (180 + x)) (-180)) eqn:L.
      * apply lt_true in L. lra.
      * eexists; split; [ reflexivity | ]. split; [ lra | intros ?; lra ].
  - apply lt_false in Hneg.
    split; [ intros Hn; lra | ].
    split; [ intros _; exact Hlon | ].
    intros [Hlo Hhi]. rewrite Hlon.
    unfold GeoUtils.normalizeCoordinates, gt_lit, lt_lit. cbn.
    destruct (gt (- (180) - (180 - x)) 180) eqn:G.
    + apply gt_iff in G. lra.
    + destruct (lt (- (180) - (180 - x)) (-180)) eqn:L.
      * apply lt_true in L. eexists; split; [ reflexivity | ].
        split; [ lra | intros _; lra ].
      * apply lt_false in L.
        eexists; split; [ reflexivity | ]. split; [ lra | intros ?; lra ].
Qed.

Lemma dateline_duplicate_witness :
  withoutCoords east = false /\
  lon east = VNum 170 /\
  (170 < -140 \/ 140 < 170) /\
  processOne [] east = [prepare east; duplicatedMarker (prepare east)] /\
  id (duplicatedMarker (prepare east)) = Some "marker_0_dateline" /\
  lon (duplicatedMarker (prepare east)) = VNum (-(180) - (180 - 170)) /\
  exists y, GeoUtils.normalizeCoordinates (lon (duplicatedMarker (prepare east))) = VNum y /\
            -180 <= y <= 180 /\ y == 170.
Proof.
  assert (Hc : withoutCoords east = false) by reflexivity.
  assert (Hx : lon east = VNum 170) by reflexivity.
  assert (Hfar : 170 < -140 \/ 140 < 170) by (right; lra).
  split; [ exact Hc | ]. split; [ exact Hx | ]. split; [ exact Hfar | ].
  destruct (dateline_duplicate east 170 [] Hc Hx Hfar) as (H1 & H2 & _ & H4 & H5).
  split; [ exact H1 | ]. split; [ exact H2 | ].
  split; [ apply H4; lra | ].
  destruct H5 as (y & Hy & Hr & He); [ lra | ].
  exists y. split; [ exact Hy | ]. split; [ exact Hr | apply He; lra ].
Defined.

(** C6 as stated fails on the meridian itself: the copy of a marker at
    longitude 180 normalises to -180, not to 180. *)
Lemma dateline_roundtrip_counterexample :
  ~ (forall (m : Marker) (x : number),
       withoutCoords m = false ->
       lon m = VNum x ->
       (x < -140 \/ 140 < x) ->
       exists y,
         GeoUtils.normalizeCoordinates (lon (duplicatedMarker (prepare m))) = VNum y /\
         -180 <= y <= 180 /\ y == x).
Proof.
  intros H.
  destruct (H (site 0 (VNum 10) (VNum 180) 1) 180) as (y & Hy & _ & Heq);
    [ reflexivity | reflexivity | right; lra | ].
  vm_compute in Hy. injection Hy as <-.
  revert Heq. unfold Qeq. cbn. lia.
Qed.

(** Nor does one wrap bring every number back into range: the copy of a
    record at longitude 1000 sits at 640 and normalises to 280. *)
Example dateline_far_longitude :
  GeoUtils.normalizeCoordinates
    (lon (duplicatedMarker (prepare (site 0 (VNum 10) (VNum 1000) 1)))) = VNum 280.
Proof. reflexivity. Qed.

End DateLineFacts.

(* ------------------------------------------------------------------ *)
(** * The live marker set *)

Section MarkerFacts.
Import Js MarkerManager MarkerSpec.
Implicit Types (m : Marker) (st : State) (k : option string).

Lemma key_eqb_refl k : key_eqb k k = true.
Proof. destruct k; cbn; [ apply String.eqb_refl | reflexivity ]. Qed.

Lemma key_eqb_eq k1 k2 : key_eqb k1 k2 = true -> k1 = k2.
Proof.
  destruct k1, k2; cbn; intros H; try discriminate; [ | reflexivity ].
  apply String.eqb_eq in H. now subst.
Qed.

Lemma key_eqb_sym k1 k2 : key_eqb k1 k2 = key_eqb k2 k1.
Proof. destruct k1, k2; cbn; try reflexivity. apply String.eqb_sym. Qed.

(** ** What renders *)

Lemma is_number_normalize v :
  is_number (GeoUtils.normalizeCoordinates v) = is_number v.
Proof.
  unfold GeoUtils.normalizeCoordinates.
  destruct v as [ | | |x]; try reflexivity.
  unfold gt_lit, lt_lit. cbn.
  destruct (gt x 180); [ reflexivity | ]. destruct (lt x (-180)); reflexivity.
Qed.

Lemma number_valid v : is_number v = true -> isNaN v = false /\ lacksToFixed v = false.
Proof. destruct v; try discriminate. split; reflexivity. Qed.


Lemma popupShows_spec cv m :
  popupShows cv (var m) = true ->
  negb (String.eqb (currentMarkerMode cv) "num_state") && lacksToFixed (var m) = false.
Proof.
  unfold popupShows.
  destruct (String.eqb (currentMarkerMode cv) "num_state"); [ reflexivity | ].
  cbn. now intros ->%negb_true_iff.
Qed.

(** A record that renders gets past both places where the loop body can
    throw, and one that does not is stopped at one of them. *)
Lemma renders_accepts cv m :
  renders cv m = true ->
  invalidLatLng (lat m) (GeoUtils.normalizeCoordinates (lon m)) = false
  /\ popupThrows cv m (GeoUtils.normalizeCoordinates (lon m)) = false.
Proof.
  unfold renders, invalidLatLng, popupThrows. intros H.
  apply andb_prop in H as [H Hp]. apply andb_prop in H as [Hlat Hlon].
  rewrite <- is_number_normalize in Hlon.
  destruct (number_valid _ Hlat) as [-> ->].
  destruct (number_valid _ Hlon) as [-> ->].
  now rewrite (popupShows_spec cv m Hp).
Qed.


Lemma createOne_renders cv u len idx m st :
  renders cv m = true ->
  exists st', createOne cv u len idx m st = Done st'
              /\ markers st' = markers st
              /\ markerInstances st'
                 = map_set (id m)
                     {| latlng := (lat m, GeoUtils.normalizeCoordinates (lon m));
                        markerId := id m; markerVar := var m;
                        tooltipContent := name m;
                        tooltipPermanent := currentTooltipState cv;
                        popupOpen := false |}
                     (markerInstances st).
Proof.
  intros H. destruct (renders_accepts cv m H) as [H1 H2].
  unfold createOne. rewrite H1, H2.
  destruct (Nat.modulo idx 50 =? 0)%nat; eexists; repeat split.
Qed.


(** ** [this.markers] changes only where the code assigns it *)

Lemma markers_readd cluster hs : forall st, markers (readd cluster hs st) = markers st.
Proof. induction hs as [|h hs IH]; intros st; cbn; [ reflexivity | now rewrite IH ]. Qed.

Lemma markers_toggleClusterMode st enable :
  markers (toggleClusterMode st enable) = markers st.
Proof.
  unfold toggleClusterMode.
  destruct (Bool.eqb enable (currentClusterMode st)); [ reflexivity | ].
  destruct enable; cbn [markers with_cluster]; rewrite markers_readd;
    destruct (clusterGroup (clearAllMarkers st)); reflexivity.
Qed.

Lemma markers_createOne cv u len idx m st :
  markers (stateOf (createOne cv u len idx m st)) = markers st.
Proof.
  unfold createOne.
  destruct (invalidLatLng _ _); [ reflexivity | ].
  destruct (popupThrows _ _ _); [ reflexivity | ].
  destruct (Nat.modulo idx 50 =? 0)%nat; reflexivity.
Qed.

Lemma markers_createLoop cv u len l :
  forall idx st, markers (stateOf (createLoop cv u len idx l st)) = markers st.
Proof.
  induction l as [|m l IH]; intros idx st; cbn [createLoop]; [ reflexivity | ].
  pose proof (markers_createOne cv u len idx m st) as H.
  destruct (createOne cv u len idx m st) as [st1|st1]; cbn [andThen stateOf] in *;
    [ now rewrite IH | exact H ].
Qed.

Lemma markers_createSpecificMarkers cv st l :
  markers (stateOf (createSpecificMarkers cv st l)) = markers st.
Proof.
  unfold createSpecificMarkers. rewrite markers_createLoop.
  destruct (Bool.eqb _ _); [ reflexivity | apply markers_toggleClusterMode ].
Qed.

(** ** The full rebuild *)

Lemma withoutCoords_prepare m : withoutCoords (prepare m) = withoutCoords m.
Proof. unfold prepare, assign_id, withoutCoords. destruct (truthy (id m)); reflexivity. Qed.

Lemma withoutCoords_assign_id m : withoutCoords (assign_id m) = withoutCoords m.
Proof. unfold assign_id, withoutCoords. destruct (truthy (id m)); reflexivity. Qed.


Lemma processOne_staged acc m : processOne acc m = acc ++ staged (prepare m).
Proof.
  unfold processOne, staged, duplicateMarkerAcrossDateLine.
  destruct (withoutCoords (prepare m)); [ now rewrite app_nil_r | ].
  destruct (crossesDateLine (prepare m)); [ now rewrite <- app_assoc | reflexivity ].
Qed.

Lemma fold_processOne l :
  forall acc, fold_left processOne l acc = acc ++ flat_map (fun m => staged (prepare m)) l.
Proof.
  induction l as [|m l IH]; intros acc; cbn; [ now rewrite app_nil_r | ].
  now rewrite IH, processOne_staged, <- app_assoc.
Qed.

Lemma markers_processMarkers cv st l :
  markers (stateOf (processMarkers cv st (Some l)))
  = flat_map (fun m => staged (prepare m)) l.
Proof.
  unfold processMarkers, createMarkers.
  rewrite markers_createSpecificMarkers. cbn. apply fold_processOne.
Qed.



(** ** The incremental refresh *)







Lemma diffOne_skip cv cmap d m :
  withoutCoords m = true -> diffOne cv cmap d m = d.
Proof.
  intros H. unfold diffOne. rewrite withoutCoords_assign_id, H.
  now destruct (thrown d).
Qed.











(** ** Records without a usable position *)









(** ** One changed marker *)





















(** C5.  For a payload that carries a list, [updateMarkersFromData] runs
    the full rebuild exactly when the number of current markers and the
    length of the list differ by more than 10 or the payload carries a truthy
    [map_url] or [refreshMode]; otherwise, and in particular at a difference
    of exactly 10 with neither flag, it runs the diff. *)
Theorem full_rebuild_threshold :
  forall cv st p l,
    list_ p = Some l ->
    let sizeGap := abs_diff (List.length (markers st)) (List.length l) in
    let flagged := truthy (map_url p) = true \/ truthy (refreshMode p) = true in
    (shouldRefreshAllMarkers st l p = true <-> (10 < sizeGap)%Z \/ flagged) /\
    ((10 < sizeGap)%Z \/ flagged ->
     updateMarkersFromData cv st (Some p) = processMarkers cv st (Some l)) /\
    (~ ((10 < sizeGap)%Z \/ flagged) ->
     updateMarkersFromData cv st (Some p) = updateChangedMarkers cv st l) /\
    (sizeGap = 10%Z -> truthy (map_url p) = false -> truthy (refreshMode p) = false ->
     updateMarkersFromData cv st (Some p) = updateChangedMarkers cv st l).
Proof.
  intros cv st p l Hl sizeGap flagged.
  assert (Hiff : shouldRefreshAllMarkers st l p = true <-> (10 < sizeGap)%Z \/ flagged).
  { unfold shouldRefreshAllMarkers. fold sizeGap. subst flagged.
    destruct (10 <? sizeGap)%Z eqn:E.
    - apply Z.ltb_lt in E. tauto.
    - apply Z.ltb_ge in E.
      destruct (truthy (map_url p)), (truthy (refreshMode p)); cbn;
        split; intros H; try reflexivity; try discriminate; try tauto;
        destruct H as [H | [H | H]]; try lia; discriminate. }
  split; [ exact Hiff | ].
  unfold updateMarkersFromData. rewrite Hl.
  split; [ | split ].
  - intros H. apply Hiff in H. now rewrite H.
  - intros H. destruct (shouldRefreshAllMarkers st l p) eqn:E; [ | reflexivity ].
    exfalso. apply H, Hiff. reflexivity.
  - intros Hgap Hu Hr.
    destruct (shouldRefreshAllMarkers st l p) eqn:E; [ | reflexivity ].
    exfalso. destruct Hiff as [Hiff _]. subst flagged.
    destruct (Hiff eq_refl) as [H | [H | H]]; [ lia | congruence | congruence ].
Qed.

Lemma full_rebuild_threshold_witness :
  list_ (plain (records 13)) = Some (records 13) /\
  list_ (plain (records 14)) = Some (records 14) /\
  abs_diff (List.length (markers fleet)) (List.length (records 13)) = 10%Z /\
  updateMarkersFromData view fleet (Some (plain (records 13)))
    = updateChangedMarkers view fleet (records 13) /\
  updateMarkersFromData view fleet (Some (plain (records 14)))
    = processMarkers view fleet (Some (records 14)).
Proof.
  assert (H13 : list_ (plain (records 13)) = Some (records 13)) by reflexivity.
  assert (H14 : list_ (plain (records 14)) = Some (records 14)) by reflexivity.
  split; [ exact H13 | ]. split; [ exact H14 | ]. split; [ reflexivity | ].
  split.
  - destruct (full_rebuild_threshold view fleet _ _ H13) as (_ & _ & _ & H).
    apply H; reflexivity.
  - destruct (full_rebuild_threshold view fleet _ _ H14) as (_ & H & _).
    apply H. left. vm_compute. reflexivity.
Defined.

End MarkerFacts.


(* ------------------------------------------------------------------ *)
(** * The event coordinator *)

Section CoordinatorFacts.
Import Js MapCoordinator CoordinatorSpec.
Variable Data : Type.
Implicit Types (c : Coordinator Data) (q : list (QueuedEvent Data)) (e : QueuedEvent Data).

(** ** The sort of [eventCompleted] *)

Lemma compare_high e1 e2 :
  (compareEvents e1 e2 <? 0)%Z = isHigh e1 && negb (isHigh e2).
Proof.
  unfold compareEvents, isHigh.
  destruct (String.eqb (q_priority e1) "high"), (String.eqb (q_priority e2) "high");
    reflexivity.
Qed.

Lemma insert_high e q :
  isHigh e = true -> insert compareEvents e q = e :: q.
Proof.
  intros H. destruct q as [|y q]; [ reflexivity | ].
  cbn. rewrite compare_high, H, andb_false_r. reflexivity.
Qed.

Lemma insert_low e hs ls :
  isHigh e = false ->
  forallb isHigh hs = true ->
  forallb (fun x => negb (isHigh x)) ls = true ->
  insert compareEvents e (hs ++ ls) = hs ++ e :: ls.
Proof.
  intros He Hhs Hls. induction hs as [|h hs IH]; cbn in *.
  - destruct ls as [|l ls]; [ reflexivity | ].
    cbn in *. rewrite compare_high. apply andb_prop in Hls as [Hl _].
    apply negb_true_iff in Hl. rewrite Hl. reflexivity.
  - apply andb_prop in Hhs as [Hh Hhs].
    rewrite compare_high, Hh, He. cbn. now rewrite IH.
Qed.

Lemma forallb_filter {A} (f : A -> bool) (l : list A) : forallb f (filter f l) = true.
Proof.
  induction l as [|x l IH]; [ reflexivity | ].
  cbn. destruct (f x) eqn:E; cbn; [ now rewrite E | exact IH ].
Qed.

Lemma filter_all {A} (f : A -> bool) (l : list A) :
  forallb f l = true -> filter f l = l.
Proof.
  induction l as [|x l IH]; [ reflexivity | ].
  cbn. intros H. apply andb_prop in H as [Hx Hl]. rewrite Hx. now rewrite IH.
Qed.

Lemma filter_none {A} (f : A -> bool) (l : list A) :
  forallb (fun x => negb (f x)) l = true -> filter f l = [].
Proof.
  induction l as [|x l IH]; [ reflexivity | ].
  cbn. intros H. apply andb_prop in H as [Hx Hl].
  apply negb_true_iff in Hx. rewrite Hx. now apply IH.
Qed.

Lemma filter_negb_all {A} (f : A -> bool) (l : list A) :
  forallb f l = true -> filter (fun x => negb (f x)) l = [].
Proof.
  induction l as [|x l IH]; [ reflexivity | ].
  cbn. intros H. apply andb_prop in H as [Hx Hl]. rewrite Hx. now apply IH.
Qed.

(** [sort] with the coordinator's comparator is the stable promotion. *)
Lemma sort_promoteHigh q : sort compareEvents q = promoteHigh q.
Proof.
  unfold promoteHigh. induction q as [|e q IH]; [ reflexivity | ].
  cbn [sort filter]. rewrite IH. destruct (isHigh e) eqn:He; cbn [negb].
  - now rewrite insert_high.
  - apply insert_low; [ exact He | apply forallb_filter | ].
    apply (forallb_filter (fun x => negb (isHigh x))).
Qed.

Lemma promoted_promoteHigh q : promoted (promoteHigh q).
Proof.
  exists (filter isHigh q), (filter (fun e => negb (isHigh e)) q).
  split; [ reflexivity | ].
  split; [ apply forallb_filter | apply (forallb_filter (fun x => negb (isHigh x))) ].
Qed.

Lemma promoted_tail e q : promoted (e :: q) -> promoted q.
Proof.
  intros (hs & ls & E & Hh & Hl). destruct hs as [|h hs]; cbn in *.
  - destruct ls as [|l ls]; [ discriminate | ]. injection E as -> ->.
    cbn in Hl. apply andb_prop in Hl as [_ Hl].
    exists [], ls. auto.
  - injection E as -> ->. apply andb_prop in Hh as [_ Hh].
    exists hs, ls. auto.
Qed.

Lemma promoteHigh_fixed q : promoted q -> promoteHigh q = q.
Proof.
  intros (hs & ls & -> & Hh & Hl). unfold promoteHigh.
  rewrite !filter_app.
  rewrite (filter_all _ _ Hh), (filter_none isHigh ls Hl).
  rewrite (filter_all _ _ Hl).
  rewrite (filter_negb_all isHigh hs Hh).
  now rewrite app_nil_r.
Qed.

Lemma promoteHigh_length q : List.length (promoteHigh q) = List.length q.
Proof.
  unfold promoteHigh. rewrite length_app.
  induction q as [|e q IH]; [ reflexivity | ].
  cbn. destruct (isHigh e); cbn; lia.
Qed.

Lemma promoteHigh_high q : filter isHigh (promoteHigh q) = filter isHigh q.
Proof.
  unfold promoteHigh. rewrite filter_app.
  rewrite (filter_all isHigh _ (forallb_filter isHigh _)).
  rewrite (filter_none isHigh _ (forallb_filter (fun e => negb (isHigh e)) _)).
  apply app_nil_r.
Qed.

Lemma promoteHigh_others q :
  filter (fun e => negb (isHigh e)) (promoteHigh q) = filter (fun e => negb (isHigh e)) q.
Proof.
  unfold promoteHigh. rewrite filter_app.
  rewrite (filter_negb_all isHigh _ (forallb_filter isHigh _)).
  rewrite (filter_all _ _ (forallb_filter (fun e => negb (isHigh e)) _)).
  reflexivity.
Qed.

(** ** One call of [eventCompleted] *)

Lemma coordinator_eta c :
  {| state := state c; errorInfo := errorInfo c; currentEvent := currentEvent c;
     eventQueue := eventQueue c; lastUserEvent := lastUserEvent c;
     componentInstance := componentInstance c; effects := effects c |} = c.
Proof. destruct c; reflexivity. Qed.

Lemma emit_nil c : emit c [] = c.
Proof. unfold emit. rewrite app_nil_r. apply coordinator_eta. Qed.

Lemma taken_left k q : taken k q ++ left k q = q.
Proof.
  induction q as [|e q IH]; [ reflexivity | ].
  cbn. destruct (k && isRouted (q_type e)); cbn; [ reflexivity | now rewrite IH ].
Qed.

Lemma taken_head k e q : exists more, taken k (e :: q) = e :: more.
Proof. cbn. destruct (k && isRouted (q_type e)); eauto. Qed.

(** With enough depth the call returns: the queue is promoted, entries are
    started from its front until one stays pending, and nothing else of the
    coordinator changes. *)
Lemma eventCompleted_spec now :
  forall fuel c,
    (List.length (eventQueue c) < fuel)%nat ->
    eventCompleted fuel now c = Some (completedState now c).
Proof.
  induction fuel as [|fuel IH]; intros c Hlen; [ lia | ].
  cbn [eventCompleted].
  destruct (eventQueue (with_currentEvent c (idleEvent Data))) as [|e0 q0] eqn:Eq.
  - cbn in Eq. unfold completedState. rewrite Eq. cbn.
    rewrite app_nil_r. unfold with_currentEvent. now rewrite Eq.
  - rewrite <- Eq. cbn [eventQueue with_currentEvent].
    cbn in Eq. rewrite sort_promoteHigh.
    pose proof (promoted_promoteHigh (eventQueue c)) as Hp.
    pose proof (promoteHigh_length (eventQueue c)) as Hl.
    unfold completedState.
    destruct (promoteHigh (eventQueue c)) as [|e rest] eqn:Ep.
    { rewrite Eq in Hl. discriminate. }
    apply promoted_tail in Hp. cbn [List.length] in Hl.
    unfold startEvent, executeEvent.
    cbn -[route eventCompleted executionEffect promoteHigh isRouted].
    destruct (componentInstance c) eqn:Ek;
      cbn -[route eventCompleted executionEffect promoteHigh isRouted].
    + destruct (route (Some (q_type e))) as [op|] eqn:Er.
      * assert (Hr : isRouted (q_type e) = true) by (unfold isRouted; now rewrite Er).
        rewrite Hr. unfold executionEffect, emit. cbn -[route]. now rewrite Er, Ek.
      * assert (Hr : isRouted (q_type e) = false) by (unfold isRouted; now rewrite Er).
        rewrite Hr, IH by (cbn; lia).
        unfold completedState. cbn -[route executionEffect promoteHigh].
        rewrite ?Ek, (promoteHigh_fixed rest Hp).
        unfold executionEffect at 2. cbn -[route executionEffect]. rewrite Er.
        rewrite <- app_assoc. reflexivity.
    + rewrite IH by (cbn; lia).
      unfold completedState. cbn -[route executionEffect promoteHigh].
      rewrite ?Ek, (promoteHigh_fixed rest Hp).
      rewrite <- app_assoc. reflexivity.
Qed.

(** A routed event on a registered component stays pending. *)
Lemma executeEvent_pending completed c t op :
  componentInstance c = true ->
  type (currentEvent c) = Some t ->
  route (Some t) = Some op ->
  executeEvent completed c = Some (emit c [Dispatch op t (data (currentEvent c))]).
Proof.
  intros Hk Ht Hr. unfold executeEvent. rewrite Hk, Ht, Hr. reflexivity.
Qed.


Lemma queueEvent_critical now fuel c t eventType eventData :
  activeType c = Some t ->
  queueEvent fuel now c eventType eventData "critical" =
  executeEvent (eventCompleted fuel now)
    (emit (preemptedBy now c t (or_default (priority (currentEvent c)) "normal")
             eventType eventData "critical")
          (modeChangeEffects Data eventType)).
Proof.
  intros Ha. unfold queueEvent. cbn [String.eqb Ascii.eqb Bool.eqb].
  rewrite Ha. unfold startEvent, preemptedBy, modeChangeEffects.
  destruct (String.eqb eventType "update_marker_mode"); [ reflexivity | ].
  now rewrite emit_nil.
Qed.

(** ** The claims *)


(** C3 (amended).  While an event typed [t] is active: a [critical]
    submission preempts it; a [high] submission preempts it when it is
    interruptible and waits at the tail of the queue otherwise; a [normal]
    submission waits at the tail unless its type starts with ["user_"], in
    which case it preempts an interruptible active event just as [high]
    does.  To preempt is to execute the new event in the state where the
    active one is back at the front of the queue. *)
Theorem preemption_policy :
  forall now fuel c t eventType eventData,
    activeType c = Some t ->
    (S (List.length (eventQueue c)) < fuel)%nat ->
    let cur := currentEvent c in
    let userOriginated := prefix "user_" eventType in
    let preempts p requeued started :=
      queueEvent fuel now c eventType eventData p =
        executeEvent (eventCompleted fuel now)
          (emit (preemptedBy now c t requeued eventType eventData started)
                (if String.eqb p "critical" then modeChangeEffects Data eventType else [])) in
    let waits p :=
      exists c',
        queueEvent fuel now c eventType eventData p = Some c' /\
        currentEvent c' = cur /\
        eventQueue c' = eventQueue c ++ [submitted now eventType eventData p] /\
        effects c' = effects c in
    preempts "critical" (or_default (priority cur) "normal") "critical" /\
    (isInterruptible cur = true -> preempts "high" "high" "normal") /\
    (isInterruptible cur = false -> waits "high") /\
    (userOriginated = false -> waits "normal") /\
    (userOriginated = true -> isInterruptible cur = true ->
     preempts "normal" "high" "normal") /\
    (userOriginated = true -> isInterruptible cur = false -> waits "normal").
Proof.
  intros now fuel c t eventType eventData Ha Hfuel cur userOriginated preempts waits.
  subst preempts waits userOriginated cur. cbv beta.
  split; [ apply queueEvent_critical; exact Ha | ].
  unfold queueEvent. cbn [String.eqb Ascii.eqb Bool.eqb]. rewrite Ha.
  unfold startEvent, preemptedBy, submitted.
  repeat split.
  - intros ->. cbn [orb andb]. now rewrite emit_nil.
  - intros ->. rewrite andb_false_r.
    eexists. split; [ reflexivity | ].
    destruct (prefix "user_" eventType); repeat split; reflexivity.
  - intros ->. cbn [orb andb].
    eexists. split; [ reflexivity | ]. repeat split; reflexivity.
  - intros -> ->. cbn [orb andb]. now rewrite emit_nil.
  - intros -> ->. cbn [orb andb].
    eexists. split; [ reflexivity | ]. repeat split; reflexivity.
Qed.

(** C7.  On a non-empty queue [eventCompleted] reorders the queue into its
    [high] entries followed by the others, each group in its previous order
    (so no two [normal] entries change places), clears the active slot,
    takes the first entry off the reordered queue and starts it; the call
    returns, and when a component is registered and that entry's type is
    routed it returns with that entry active and the rest still queued. *)
Theorem eventCompleted_promotes_high :
  forall now fuel c,
    eventQueue c <> [] ->
    (List.length (eventQueue c) < S fuel)%nat ->
    let q := eventQueue c in
    let sorted := sort compareEvents q in
    sorted = filter isHigh q ++ filter (fun e => negb (isHigh e)) q /\
    filter isHigh sorted = filter isHigh q /\
    filter (fun e => negb (isHigh e)) sorted = filter (fun e => negb (isHigh e)) q /\
    exists next rest,
      sorted = next :: rest /\
      eventCompleted (S fuel) now c =
        startEvent (eventCompleted fuel now) now
          (with_eventQueue (with_currentEvent c (idleEvent Data)) rest)
          (q_type next) (q_data next) "normal" /\
      eventCompleted (S fuel) now c = Some (completedState now c) /\
      (componentInstance c = true -> isRouted (q_type next) = true ->
       currentEvent (completedState now c)
         = activeSlot now (q_type next) (q_data next) "normal" /\
       eventQueue (completedState now c) = rest).
Proof.
  intros now fuel c Hne Hfuel. cbv zeta.
  rewrite sort_promoteHigh.
  split; [ reflexivity | ].
  split; [ apply promoteHigh_high | ]. split; [ apply promoteHigh_others | ].
  pose proof (promoteHigh_length (eventQueue c)) as Hl.
  destruct (promoteHigh (eventQueue c)) as [|next rest] eqn:Es.
  { destruct (eventQueue c); [ contradiction | discriminate ]. }
  exists next, rest. split; [ reflexivity | ].
  split.
  { cbn [eventCompleted]. cbn [eventQueue with_currentEvent].
    rewrite sort_promoteHigh, Es.
    destruct (eventQueue c); [ contradiction | reflexivity ]. }
  split; [ apply eventCompleted_spec; exact Hfuel | ].
  intros Hk Hr. unfold completedState. rewrite Es.
  cbn [currentEvent eventQueue slotAfter left]. rewrite Hk, Hr. cbn. split; reflexivity.
Qed.

(** C8.  When the downstream promise of a dispatch rejects, the handler
    stores code 500 and a message naming the active event's type, sets the
    state to ['error'] and runs [eventCompleted]: the call returns, the error
    is still recorded afterwards, the entries started are a prefix of the
    promoted queue beginning with its first entry, and every other entry is
    still queued. *)
Theorem dispatch_failure_keeps_queue_moving :
  forall now fuel c msg,
    (List.length (eventQueue c) < fuel)%nat ->
    let info :=
      {| code := 500;
         message := ("Error in event " ++ show_type (type (currentEvent c)) ++ ": "
                     ++ msg)%string |} in
    let k := componentInstance c in
    let q := promoteHigh (eventQueue c) in
    settle fuel now c (Rejected msg) = eventCompleted fuel now (with_error c info "error") /\
    exists c',
      settle fuel now c (Rejected msg) = Some c' /\
      state c' = "error" /\
      errorInfo c' = info /\
      taken k q ++ eventQueue c' = q /\
      effects c' = effects c ++ List.map (executionEffect k) (taken k q) /\
      (forall next rest, q = next :: rest ->
         exists more, taken k q = next :: more) /\
      (eventQueue c = [] -> currentEvent c' = idleEvent Data /\ eventQueue c' = []).
Proof.
  intros now fuel c msg Hfuel info k q.
  split; [ reflexivity | ].
  cbn [settle]. unfold handleEventError. fold info.
  rewrite eventCompleted_spec by exact Hfuel.
  eexists. split; [ reflexivity | ].
  unfold completedState. cbn -[promoteHigh]. fold k q.
  split; [ reflexivity | ]. split; [ reflexivity | ].
  split; [ apply taken_left | ]. split; [ reflexivity | ].
  split.
  - intros next rest ->. apply taken_head.
  - intros Hq. subst q. rewrite Hq. cbn. split; reflexivity.
Qed.

End CoordinatorFacts.

(** ** The claims at concrete states *)

Section CoordinatorExamples.
Import Js MapCoordinator CoordinatorSpec.



Lemma preemption_policy_witness :
  activeType busy = Some "data_update" /\
  (S (List.length (eventQueue busy)) < 5)%nat /\
  (exists c',
     queueEvent 5 1 busy "update_tooltip_state" (Some 2%nat) "normal" = Some c' /\
     currentEvent c' = currentEvent busy /\
     eventQueue c' = [submitted 1 "update_tooltip_state" (Some 2%nat) "normal"] /\
     effects c' = effects busy) /\
  queueEvent 5 1 busy "update_tooltip_state" (Some 2%nat) "high" =
    executeEvent (eventCompleted 5 1)
      (emit (preemptedBy 1 busy "data_update" "high" "update_tooltip_state"
               (Some 2%nat) "normal") []).
Proof.
  assert (Ha : activeType busy = Some "data_update") by reflexivity.
  assert (Hf : (S (List.length (eventQueue busy)) < 5)%nat) by (cbn; lia).
  split; [ exact Ha | ]. split; [ exact Hf | ].
  destruct (preemption_policy nat 1 5 busy "data_update" "update_tooltip_state"
              (Some 2%nat) Ha Hf) as (_ & Hhigh & _ & Hnormal & _).
  split; [ exact (Hnormal eq_refl) | exact (Hhigh eq_refl) ].
Defined.

(** C3 as stated fails for a user-originated type: a [normal]
    [user_center_change] submitted while an interruptible [data_update] is
    active takes the slot and sends the [data_update] back to the queue. *)
Lemma normal_never_preempts_counterexample :
  ~ (forall (now : Z) (fuel : nat) (c : Coordinator nat) (t eventType : string)
            (eventData : option nat),
       activeType c = Some t ->
       (S (List.length (eventQueue c)) < fuel)%nat ->
       exists c',
         queueEvent fuel now c eventType eventData "normal" = Some c' /\
         currentEvent c' = currentEvent c /\
         eventQueue c' = eventQueue c ++ [submitted now eventType eventData "normal"]).
Proof.
  intros H.
  destruct (H 1%Z 5%nat busy "data_update" "user_center_change" (Some 2%nat) eq_refl)
    as (c' & Hq & Hcur & _); [ cbn; lia | ].
  vm_compute in Hq. injection Hq as <-. discriminate Hcur.
Qed.

Lemma eventCompleted_promotes_high_witness :
  eventQueue backlog <> [] /\
  (List.length (eventQueue backlog) < 4)%nat /\
  sort compareEvents (eventQueue backlog)
    = [ submitted 2 "user_zoom_change" (Some 3%nat) "high";
        submitted 1 "update_tooltip_state" (Some 2%nat) "normal";
        submitted 3 "update_icon_sizes" (Some 4%nat) "normal" ] /\
  exists c',
    eventCompleted 4 9 backlog = Some c' /\
    currentEvent c' = activeSlot 9 "user_zoom_change" (Some 3%nat) "normal" /\
    eventQueue c'
      = [ submitted 1 "update_tooltip_state" (Some 2%nat) "normal";
          submitted 3 "update_icon_sizes" (Some 4%nat) "normal" ].
Proof.
  assert (Hne : eventQueue backlog <> []) by discriminate.
  assert (Hf : (List.length (eventQueue backlog) < 4)%nat) by (cbn; lia).
  split; [ exact Hne | ]. split; [ exact Hf | ].
  destruct (eventCompleted_promotes_high nat 9 3 backlog Hne Hf)
    as (Hs & _ & _ & next & rest & Hsorted & _ & Hret & Hpost).
  split; [ rewrite Hs; reflexivity | ].
  exists (completedState 9 backlog).
  split; [ exact Hret | ]. split; reflexivity.
Defined.

Lemma dispatch_failure_keeps_queue_moving_witness :
  (List.length (eventQueue backlog) < 4)%nat /\
  exists c',
    settle 4 9 backlog (Rejected "timeout") = Some c' /\
    state c' = "error" /\
    errorInfo c' = {| code := 500; message := "Error in event data_update: timeout" |} /\
    currentEvent c' = activeSlot 9 "user_zoom_change" (Some 3%nat) "normal" /\
    List.length (eventQueue c') = 2%nat.
Proof.
  assert (Hf : (List.length (eventQueue backlog) < 4)%nat) by (cbn; lia).
  split; [ exact Hf | ].
  destruct (dispatch_failure_keeps_queue_moving nat 9 4 backlog "timeout" Hf)
    as (_ & c' & Hret & Hstate & Hinfo & _).
  exists c'. split; [ exact Hret | ]. split; [ exact Hstate | ].
  split; [ exact Hinfo | ].
  vm_compute in Hret. injection Hret as <-. split; reflexivity.
Defined.

End CoordinatorExamples.

(* ------------------------------------------------------------------ *)
(** * The poller *)

Section RealtimeFacts.
Import Js RealtimeManager RealtimeSpec.
Implicit Types (st : State).

(** The [finally] block reschedules on the timer path whenever a handle is
    stored, whatever the error count. *)
Lemma finallyBlock_reschedules st h :
  updateTimer st = Some h ->
  finallyBlock st false = scheduleNextUpdate (with_isUpdating st false) None.
Proof. intros H. unfold finallyBlock. cbn. now rewrite H. Qed.

Lemma tryCatch_keeps_timer st o now :
  updateTimer (fst (tryCatch st o now)) = updateTimer st.
Proof.
  unfold tryCatch. destruct o; cbn; [ reflexivity | reflexivity | ].
  destruct (_ <=? _)%nat; reflexivity.
Qed.

(** A failed update on the timer path always arms a new timeout. *)
Lemma failed_update_reschedules st h now :
  updateTimer st = Some h ->
  let st' := performUpdate st false Failed now in
  errorCount st' = S (errorCount st) /\
  updateTimer st' = Some (nextTimer st) /\
  In (nextTimer st, updateInterval st) (timers st').
Proof.
  intros H st'. subst st'. unfold performUpdate.
  destruct (tryCatch (with_isUpdating st true) Failed now) as [st2 k] eqn:E.
  assert (Ht : updateTimer st2 = Some h).
  { change st2 with (fst (st2, k)). rewrite <- E, tryCatch_keeps_timer. exact H. }
  rewrite (finallyBlock_reschedules st2 h Ht).
  unfold tryCatch in E. cbn in E.
  destruct (_ <=? _)%nat in E; injection E as <- <-; cbn;
    (split; [ reflexivity | split; [ reflexivity | ] ]);
    apply in_or_app; right; now left.
Qed.

(** C2 (what the code does).  After [startUpdates()] and three timeouts whose
    updates fail, the error count has reached the maximum of 3 and the
    pause has been announced, yet a fourth timeout is pending; when it
    expires a fourth update runs and a fifth timeout is armed. *)
Theorem poller_ticks_after_three_failures :
  errorCount threeFailures = 3%nat /\
  maxConsecutiveErrors threeFailures = 3%nat /\
  console threeFailures
    = [ErrorDuringUpdate; ErrorDuringUpdate; ErrorDuringUpdate; WarnPausing 3] /\
  updateTimer threeFailures = Some 4%positive /\
  timers threeFailures = [(4%positive, updateInterval initial)] /\
  errorCount (fire threeFailures 4 true false Failed 101) = 4%nat /\
  timers (fire threeFailures 4 true false Failed 101)
    = [(5%positive, updateInterval initial)].
Proof. vm_compute. repeat split; reflexivity. Qed.

End RealtimeFacts.

(* ------------------------------------------------------------------ *)
(** * The coordinator over sequences of calls *)

Section CoordinatorRunFacts.
Import Js MapCoordinator CoordinatorSpec CoordinatorRuns.
Variable Data : Type.
Implicit Types (c : Coordinator Data) (q : list (QueuedEvent Data)) (e : QueuedEvent Data).

(** ** The tables of the coordinator agree *)

Lemma route_cases (t : string) (op : Downstream) :
  route (Some t) = Some op ->
  In t [ "data_update"; "process_markers"; "update_icon_sizes"; "update_tooltip_state";
         "update_marker_mode"; "user_zoom_change"; "user_bounds_change";
         "user_center_change"; "realtime_update" ].
Proof.
  unfold route.
  repeat match goal with
  | |- context [String.eqb t ?s] =>
      destruct (String.eqb t s) eqn:?E;
      [ apply String.eqb_eq in E; subst t; intros _; cbn; tauto | clear E ]
  end.
  discriminate.
Qed.

Lemma routed_interruptible (t : string) :
  isRouted t = true -> isEventInterruptible (Data := Data) None t = true.
Proof.
  intros H. unfold isRouted in H.
  destruct (route (Some t)) as [op|] eqn:Er; [ | discriminate ].
  apply route_cases in Er. cbn in Er.
  repeat (destruct Er as [<- | Er]; [ reflexivity | ]).
  contradiction.
Qed.

Lemma routed_truthy (t : string) : isRouted t = true -> truthy_string t = true.
Proof.
  intros H. unfold isRouted in H.
  destruct (route (Some t)) as [op|] eqn:Er; [ | discriminate ].
  apply route_cases in Er. cbn in Er.
  repeat (destruct Er as [<- | Er]; [ reflexivity | ]).
  contradiction.
Qed.

(** X1. Every event type that [executeEvent] routes to a downstream
    operation is known to [determineAction], which names an action of the
    table for it, and none of them is on the list of non-interruptible
    types of [isEventInterruptible]: the slot [startEvent] writes for a
    routed type is always interruptible. *)
Theorem routed_types_are_known_and_interruptible :
  forall t : string,
    isRouted t = true ->
    (exists a, determineAction t = Named a /\ a <> "unknownAction") /\
    isEventInterruptible (Data := Data) None t = true /\
    (forall eventData prio now,
       isInterruptible (activeSlot (Data := Data) now t eventData prio) = true).
Proof.
  intros t H. unfold isRouted in H.
  destruct (route (Some t)) as [op|] eqn:Er; [ | discriminate ].
  apply route_cases in Er. cbn in Er.
  repeat (destruct Er as [<- | Er];
          [ split; [ eexists; split; [ reflexivity | discriminate ]
                   | split; [ reflexivity | intros; reflexivity ] ] | ]).
  contradiction.
Qed.

(** ** What a call returns *)

Lemma executeEvent_executed now fuel c0 eventType eventData :
  type (currentEvent c0) = Some eventType ->
  data (currentEvent c0) = eventData ->
  (List.length (eventQueue c0) < fuel)%nat ->
  executeEvent (eventCompleted fuel now) c0 = Some (executed now c0 eventType eventData).
Proof.
  intros Ht Hd Hlen. unfold executeEvent, executed, executionEffect, isRouted.
  rewrite Ht, Hd. cbn [q_type q_data submitted].
  destruct (componentInstance c0) eqn:Ek; cbn [negb andb].
  - destruct (route (Some eventType)) as [op|] eqn:Er; [ reflexivity | ].
    now rewrite (eventCompleted_spec Data now) by exact Hlen.
  - now rewrite (eventCompleted_spec Data now) by exact Hlen.
Qed.

Lemma queueEvent_shape now fuel c eventType eventData prio :
  (S (List.length (eventQueue c)) < fuel)%nat ->
  (exists c0,
     entered now c c0 eventType eventData /\
     queueEvent fuel now c eventType eventData prio
       = Some (executed now c0 eventType eventData)) \/
  (exists c',
     queueEvent fuel now c eventType eventData prio = Some c' /\
     activeType c <> None /\
     currentEvent c' = currentEvent c /\
     eventQueue c' = eventQueue c ++ [submitted now eventType eventData prio] /\
     effects c' = effects c /\ state c' = state c /\ errorInfo c' = errorInfo c /\
     componentInstance c' = componentInstance c).
Proof.
  intros Hfuel. unfold queueEvent, startEvent.
  assert (Hrun : forall c0,
            type (currentEvent c0) = Some eventType ->
            data (currentEvent c0) = eventData ->
            (List.length (eventQueue c0) <= S (List.length (eventQueue c)))%nat ->
            executeEvent (eventCompleted fuel now) c0
            = Some (executed now c0 eventType eventData)).
  { intros c0 H1 H2 H3. apply executeEvent_executed; [ exact H1 | exact H2 | lia ]. }
  destruct (String.eqb prio "critical") eqn:Ec.
  - left. destruct (activeType c) as [t|] eqn:Ea;
      destruct (String.eqb eventType "update_marker_mode") eqn:Em.
    + eexists. split; [ | apply Hrun; [ reflexivity | reflexivity | cbn; lia ] ].
      unfold entered. cbn -[activeType]. split; [ eexists; reflexivity | ].
      repeat (split; [ reflexivity | ]). split; [ now right | ].
      right. do 2 eexists. split; [ exact Ea | reflexivity ].
    + eexists. split; [ | apply Hrun; [ reflexivity | reflexivity | cbn; lia ] ].
      unfold entered. cbn -[activeType]. split; [ eexists; reflexivity | ].
      repeat (split; [ reflexivity | ]). split; [ now left | ].
      right. do 2 eexists. split; [ exact Ea | reflexivity ].
    + eexists. split; [ | apply Hrun; [ reflexivity | reflexivity | cbn; lia ] ].
      unfold entered. cbn -[activeType]. split; [ eexists; reflexivity | ].
      repeat (split; [ reflexivity | ]). split; [ now right | ].
      left. split; [ exact Ea | reflexivity ].
    + eexists. split; [ | apply Hrun; [ reflexivity | reflexivity | cbn; lia ] ].
      unfold entered. cbn -[activeType]. split; [ eexists; reflexivity | ].
      repeat (split; [ reflexivity | ]). split; [ now left | ].
      left. split; [ exact Ea | reflexivity ].
  - destruct (activeType c) as [t|] eqn:Ea.
    + destruct ((String.eqb prio "high" || prefix "user_" eventType)
                && isInterruptible (currentEvent c)) eqn:Ep.
      * left. eexists.
        split; [ | apply Hrun; [ reflexivity | reflexivity | cbn; lia ] ].
        unfold entered. cbn -[activeType]. split; [ eexists; reflexivity | ].
        repeat (split; [ reflexivity | ]). split; [ now left | ].
        right. do 2 eexists. split; [ exact Ea | reflexivity ].
      * right. eexists. split; [ reflexivity | ]. split; [ discriminate | ].
        destruct (prefix "user_" eventType); cbn; repeat split; reflexivity.
    + left. eexists.
      split; [ | apply Hrun; [ reflexivity | reflexivity | cbn; lia ] ].
      unfold entered. cbn -[activeType]. split; [ eexists; reflexivity | ].
      repeat (split; [ reflexivity | ]). split; [ now left | ].
      left. split; [ exact Ea | reflexivity ].
Qed.

(** ** The active slot *)

Lemma slotOk_activeSlot now t eventData prio :
  isRouted t = true -> slotOk (activeSlot (Data := Data) now t eventData prio).
Proof.
  intros H. right. exists t. split; [ reflexivity | ]. split; [ exact H | ].
  cbn. now apply routed_interruptible.
Qed.

Lemma slotOk_slotAfter k now q : slotOk (slotAfter k now q).
Proof.
  induction q as [|e q IH]; cbn; [ now left | ].
  destruct (k && isRouted (q_type e)) eqn:E; [ | exact IH ].
  apply andb_prop in E as [_ E]. now apply slotOk_activeSlot.
Qed.

Lemma slotOk_executed now c0 eventType eventData prio :
  currentEvent c0 = activeSlot now eventType eventData prio ->
  slotOk (currentEvent (executed now c0 eventType eventData)).
Proof.
  intros Hs. unfold executed.
  destruct (componentInstance c0 && isRouted eventType) eqn:E.
  - apply andb_prop in E as [_ E]. cbn. rewrite Hs. now apply slotOk_activeSlot.
  - apply slotOk_slotAfter.
Qed.

(** X2. The active slot is either empty or holds an event of a routed
    type that is interruptible, and every call keeps it so: a submission
    through [queueEvent] with any type, data and priority, and the
    settlement of the downstream promise, fulfilled or rejected.  An event
    whose type has no route never stays in the slot, because [executeEvent]
    completes it within the same call. *)
Theorem active_slot_stays_routed :
  forall now fuel c (k : Call Data) c',
    (S (List.length (eventQueue c)) < fuel)%nat ->
    slotOk (currentEvent c) ->
    call fuel now c k = Some c' ->
    slotOk (currentEvent c').
Proof.
  intros now fuel c k c' Hfuel Hok Hcall. destruct k as [eventType eventData prio | r].
  - cbn in Hcall.
    destruct (queueEvent_shape now fuel c eventType eventData prio Hfuel)
      as [(c0 & (([p Hs] & _) & Hq)) | (c1 & Hq & _ & Hcur & _)];
      rewrite Hq in Hcall; injection Hcall as <-.
    + now apply slotOk_executed with (prio := p).
    + now rewrite Hcur.
  - destruct r as [|msg]; cbn in Hcall; unfold handleEventError in Hcall;
      rewrite (eventCompleted_spec Data now) in Hcall by (cbn; lia);
      injection Hcall as <-; apply slotOk_slotAfter.
Qed.

Lemma active_slotOk c t :
  slotOk (currentEvent c) -> activeType c = Some t ->
  isRouted t = true /\ isInterruptible (currentEvent c) = true.
Proof.
  unfold activeType. intros [Hn | (t' & Ht & Hr & Hi)] Ha.
  - rewrite Hn in Ha. discriminate.
  - rewrite Ht in Ha. destruct (truthy_string t'); [ | discriminate ].
    injection Ha as <-. auto.
Qed.

(** X3. Under that invariant a submission with priority [high] always
    preempts: whatever is active goes to the front of the queue with
    priority [high], and the new event is started with priority
    [normal]. *)
Theorem high_always_preempts_when_slot_ok :
  forall now fuel c t eventType eventData,
    slotOk (currentEvent c) ->
    activeType c = Some t ->
    queueEvent fuel now c eventType eventData "high" =
      executeEvent (eventCompleted fuel now)
        (preemptedBy now c t "high" eventType eventData "normal").
Proof.
  intros now fuel c t eventType eventData Hok Ha.
  destruct (active_slotOk c t Hok Ha) as [_ Hi].
  unfold queueEvent. cbn [String.eqb Ascii.eqb Bool.eqb]. rewrite Ha, Hi. reflexivity.
Qed.

(** ** What no call changes *)

Lemma executed_keeps now c0 eventType eventData :
  state (executed now c0 eventType eventData) = state c0 /\
  errorInfo (executed now c0 eventType eventData) = errorInfo c0 /\
  componentInstance (executed now c0 eventType eventData) = componentInstance c0.
Proof.
  unfold executed. destruct (componentInstance c0 && isRouted eventType);
    repeat split; reflexivity.
Qed.

(** X4. Only a rejected downstream promise writes the coordinator's state
    and error fields.  Every submission, whatever its type and priority
    (also one with no route, and one made while no component is
    registered), and every fulfilled promise leave both fields as they
    were. *)
Theorem only_a_rejection_writes_the_error :
  forall now fuel c (k : Call Data) c',
    (S (List.length (eventQueue c)) < fuel)%nat ->
    (forall msg, k <> Settle Data (Rejected msg)) ->
    call fuel now c k = Some c' ->
    state c' = state c /\ errorInfo c' = errorInfo c.
Proof.
  intros now fuel c k c' Hfuel Hk Hcall. destruct k as [eventType eventData prio | r].
  - cbn in Hcall.
    destruct (queueEvent_shape now fuel c eventType eventData prio Hfuel)
      as [(c0 & ((_ & Hs & He & _) & Hq)) | (c1 & Hq & _ & _ & _ & _ & Hs & He & _)];
      rewrite Hq in Hcall; injection Hcall as <-.
    + destruct (executed_keeps now c0 eventType eventData) as (H1 & H2 & _).
      now rewrite H1, H2, Hs, He.
    + auto.
  - destruct r as [|msg]; [ | now destruct (Hk msg) ].
    cbn in Hcall. rewrite (eventCompleted_spec Data now) in Hcall by (cbn; lia).
    injection Hcall as <-. split; reflexivity.
Qed.

(** ** Nothing is dropped *)




(** ** Without a component *)

Lemma taken_unregistered q : taken false q = q.
Proof. induction q as [|e q IH]; cbn; [ reflexivity | now rewrite IH ]. Qed.

Lemma left_unregistered q : left false q = [].
Proof. induction q as [|e q IH]; cbn; [ reflexivity | exact IH ]. Qed.

Lemma slotAfter_unregistered now q : slotAfter false now q = idleEvent Data.
Proof. induction q as [|e q IH]; cbn; [ reflexivity | exact IH ]. Qed.

Lemma reports_unregistered q :
  List.map (executionEffect false) q = repeat (ErrorNoComponent Data) (List.length q).
Proof. induction q as [|e q IH]; cbn; [ reflexivity | now rewrite IH ]. Qed.

(** X6. While no component is registered, the settlement of an event
    empties the queue: each queued entry is started in turn, logged as an
    error and completed, so the call returns with an empty slot, an empty
    queue and one error per entry. *)
Theorem no_component_drains_the_queue :
  forall now fuel c r c',
    (List.length (eventQueue c) < fuel)%nat ->
    componentInstance c = false ->
    settle fuel now c r = Some c' ->
    currentEvent c' = idleEvent Data /\
    eventQueue c' = [] /\
    effects c' = effects c ++ repeat (ErrorNoComponent Data) (List.length (eventQueue c)).
Proof.
  intros now fuel c r c' Hfuel Hk Hs.
  assert (H : c' = completedState now c \/
              exists info, c' = completedState now (with_error c info "error")).
  { destruct r as [|msg]; cbn in Hs; unfold handleEventError in Hs;
      rewrite (eventCompleted_spec Data now) in Hs by (cbn; lia);
      injection Hs as <-; eauto. }
  destruct H as [-> | (info & ->)]; unfold completedState;
    cbn -[promoteHigh]; rewrite Hk;
    rewrite slotAfter_unregistered, left_unregistered, taken_unregistered,
      reports_unregistered, promoteHigh_length; auto.
Qed.

(** ** Coming back after a preemption *)



(** X8. Outside the critical path [startEvent] is called without the
    priority, so an event submitted as [high] to an idle coordinator runs
    with priority [normal]; when a critical event then interrupts it, it is
    put back in the queue as [normal], not as [high]. *)
Theorem priority_is_forgotten_on_start :
  forall now later fuel c tA dA tB dB opA opB,
    (S (S (List.length (eventQueue c))) < fuel)%nat ->
    componentInstance c = true ->
    activeType c = None ->
    route (Some tA) = Some opA ->
    route (Some tB) = Some opB ->
    exists c1 c2,
      queueEvent fuel now c tA dA "high" = Some c1 /\
      queueEvent fuel later c1 tB dB "critical" = Some c2 /\
      priority (currentEvent c1) = Some "normal" /\
      eventQueue c1 = eventQueue c /\
      currentEvent c2 = activeSlot later tB dB "critical" /\
      eventQueue c2
      = {| q_type := tA; q_data := dA; q_priority := "normal"; q_timestamp := later |}
        :: eventQueue c.
Proof.
  intros now later fuel c tA dA tB dB opA opB Hfuel Hk Ha HA HB.
  assert (HtA : truthy_string tA = true).
  { apply routed_truthy. unfold isRouted. now rewrite HA. }
  unfold queueEvent at 1. cbn [String.eqb Ascii.eqb Bool.eqb]. rewrite Ha.
  unfold startEvent.
  erewrite executeEvent_pending; [ | exact Hk | reflexivity | exact HA ].
  destruct (String.eqb tB "update_marker_mode") eqn:Em.
  - eexists. eexists. split; [ reflexivity | ].
    unfold queueEvent. cbn [String.eqb Ascii.eqb Bool.eqb].
    unfold activeType. cbn -[route]. rewrite HtA, Em.
    unfold startEvent.
    erewrite executeEvent_pending; [ | exact Hk | reflexivity | exact HB ].
    repeat split; reflexivity.
  - eexists. eexists. split; [ reflexivity | ].
    unfold queueEvent. cbn [String.eqb Ascii.eqb Bool.eqb].
    unfold activeType. cbn -[route]. rewrite HtA, Em.
    unfold startEvent.
    erewrite executeEvent_pending; [ | exact Hk | reflexivity | exact HB ].
    repeat split; reflexivity.
Qed.
End CoordinatorRunFacts.

(* ------------------------------------------------------------------ *)
(** * The poller over sequences of calls *)

Section RealtimeRunFacts.
Import Js RealtimeManager RealtimeControl.
Implicit Types (st : State).

Lemma tidy_inv st :
  tidy st = true ->
  timers st = [] \/ exists h d, timers st = [(h, d)] /\ updateTimer st = Some h.
Proof.
  unfold tidy. destruct (timers st) as [|[h d] [|x ts]]; [ now left | | discriminate ].
  destruct (updateTimer st) as [h'|]; [ | discriminate ].
  intros H. apply Pos.eqb_eq in H. subst h'. right. eauto.
Qed.

Lemma tidy_scheduleNextUpdate st delay :
  timers st = [] -> tidy (scheduleNextUpdate st delay) = true.
Proof.
  intros H. unfold scheduleNextUpdate, tidy. cbn. rewrite H. cbn. apply Pos.eqb_refl.
Qed.

Lemma stopUpdates_clears st :
  tidy st = true ->
  timers (stopUpdates st) = [] /\ updateTimer (stopUpdates st) = None.
Proof.
  intros H. apply tidy_inv in H. unfold stopUpdates.
  destruct H as [H | (h & d & H & Hu)].
  - destruct (updateTimer st) as [h|] eqn:E; cbn; [ | now rewrite E ].
    rewrite H. auto.
  - rewrite Hu. cbn. rewrite H. cbn. now rewrite Pos.eqb_refl.
Qed.

Lemma timers_tryCatch st o now : timers (fst (tryCatch st o now)) = timers st.
Proof.
  unfold tryCatch. destruct o; cbn; try reflexivity.
  destruct (_ <=? _)%nat; reflexivity.
Qed.

Lemma updateTimer_tryCatch st o now :
  updateTimer (fst (tryCatch st o now)) = updateTimer st.
Proof.
  unfold tryCatch. destruct o; cbn; try reflexivity.
  destruct (_ <=? _)%nat; reflexivity.
Qed.

Lemma performUpdate_timer_path st o now :
  timers st = [] ->
  tidy (performUpdate st false o now) = true.
Proof.
  intros H. unfold performUpdate.
  destruct (tryCatch (with_isUpdating st true) o now) as [st2 k] eqn:E.
  assert (Ht : timers st2 = []).
  { change st2 with (fst (st2, k)). rewrite <- E, timers_tryCatch. exact H. }
  unfold finallyBlock. cbn.
  destruct (updateTimer st2).
  - apply tidy_scheduleNextUpdate. exact Ht.
  - unfold tidy. cbn. now rewrite Ht.
Qed.

Lemma performUpdate_manual st o now :
  timers (performUpdate st true o now) = timers st /\
  updateTimer (performUpdate st true o now) = updateTimer st /\
  nextTimer (performUpdate st true o now) = nextTimer st.
Proof.
  unfold performUpdate.
  destruct (tryCatch (with_isUpdating st true) o now) as [st2 k] eqn:E.
  unfold finallyBlock. cbn.
  change st2 with (fst (st2, k)). rewrite <- E.
  rewrite timers_tryCatch, updateTimer_tryCatch.
  repeat split; try reflexivity.
  unfold tryCatch. destruct o; cbn; try reflexivity.
  destruct (_ <=? _)%nat; reflexivity.
Qed.

Lemma tidy_stopUpdates st : tidy st = true -> tidy (stopUpdates st) = true.
Proof.
  intros H. destruct (stopUpdates_clears st H) as [Ht _]. unfold tidy. now rewrite Ht.
Qed.

Lemma tidy_startUpdates st interval : tidy st = true -> tidy (startUpdates st interval) = true.
Proof.
  intros H. unfold startUpdates.
  destruct (stopUpdates_clears st H) as [Ht _].
  apply tidy_scheduleNextUpdate.
  destruct interval as [ms|]; [ destruct (Qeq_bool ms 0) | ]; exact Ht.
Qed.

Lemma tidy_step st s : tidy st = true -> tidy (step st s) = true.
Proof.
  intros H. destruct s as [interval | | h r u o now | o now | seconds | o now]; cbn [step].
  - now apply tidy_startUpdates.
  - now apply tidy_stopUpdates.
  - unfold fire. destruct (existsb _ (timers st)) eqn:Ex; [ | exact H ].
    assert (Hc : clearTimeout h (timers st) = []).
    { apply tidy_inv in H. destruct H as [H | (h' & d & H & _)];
        rewrite H in *; [ reflexivity | ].
      cbn in Ex. rewrite orb_false_r in Ex. unfold clearTimeout. cbn. now rewrite Ex. }
    destruct (r && negb u).
    + apply performUpdate_timer_path. exact Hc.
    + apply tidy_scheduleNextUpdate. exact Hc.
  - unfold forceUpdate. apply tidy_scheduleNextUpdate.
    destruct (stopUpdates_clears st H) as [Ht Hu].
    unfold performUpdate.
    destruct (tryCatch (with_isUpdating (stopUpdates st) true) o now) as [st2 k] eqn:E.
    assert (Ht2 : timers st2 = []).
    { change st2 with (fst (st2, k)). rewrite <- E, timers_tryCatch. exact Ht. }
    assert (Hu2 : updateTimer st2 = None).
    { change st2 with (fst (st2, k)). rewrite <- E, updateTimer_tryCatch. exact Hu. }
    unfold finallyBlock. cbn. now rewrite Hu2.
  - unfold setUpdateInterval.
    destruct (updateTimer (with_interval st (Times1000 seconds) (Given seconds))); [ | exact H ].
    apply tidy_startUpdates, tidy_stopUpdates. exact H.
  - destruct (performUpdate_manual st o now) as (Ht & Hu & _).
    unfold tidy. rewrite Ht, Hu. exact H.
Qed.

(** X9. At most one timeout is pending, and it is the one whose handle is
    stored: this holds after any sequence of [startUpdates],
    [stopUpdates], [setUpdateInterval], [forceUpdate], manual
    [performUpdate] calls and expiring timeouts, whatever the outcomes of
    the updates, as long as no call arrives while an update is in
    flight. *)
Theorem at_most_one_timeout_pending :
  forall st steps,
    tidy st = true ->
    tidy (run st steps) = true /\
    (List.length (timers (run st steps)) <= 1)%nat.
Proof.
  intros st steps. unfold run. revert st.
  induction steps as [|s steps IH]; intros st H; cbn [fold_left].
  - split; [ exact H | ]. apply tidy_inv in H.
    destruct H as [-> | (h & d & -> & _)]; cbn; lia.
  - apply IH. now apply tidy_step.
Qed.

(** X10. [stopUpdates] stops the polling: no timeout is pending
    afterwards, [isActive] answers false, a second call changes nothing,
    and no handle the host may still present runs anything. *)
Theorem stopUpdates_stops :
  forall st,
    tidy st = true ->
    timers (stopUpdates st) = [] /\
    isActive (stopUpdates st) = false /\
    stopUpdates (stopUpdates st) = stopUpdates st /\
    (forall h r u o now, fire (stopUpdates st) h r u o now = stopUpdates st).
Proof.
  intros st H. destruct (stopUpdates_clears st H) as [Ht Hu].
  split; [ exact Ht | ]. split; [ unfold isActive; now rewrite Hu | ].
  split.
  - unfold stopUpdates at 1. now rewrite Hu.
  - intros h r u o now. unfold fire. now rewrite Ht.
Qed.

Lemma plainDelays_schedule st delay :
  timers st = [] ->
  delay = None \/ delay = Some (Given 0) ->
  plainDelays (scheduleNextUpdate st delay).
Proof.
  intros Ht Hd h d. unfold scheduleNextUpdate. cbn. rewrite Ht. cbn.
  intros [E | []]. injection E as _ <-.
  destruct Hd as [-> | ->]; auto.
Qed.

Lemma plainDelays_empty st : timers st = [] -> plainDelays st.
Proof. intros H h d. rewrite H. contradiction. Qed.

Lemma updateInterval_tryCatch st o now :
  updateInterval (fst (tryCatch st o now)) = updateInterval st.
Proof.
  unfold tryCatch. destruct o; cbn; try reflexivity.
  destruct (_ <=? _)%nat; reflexivity.
Qed.

Lemma plainDelays_step st s :
  tidy st = true -> plainDelays st -> plainDelays (step st s).
Proof.
  intros H Hd. destruct s as [interval | | h r u o now | o now | seconds | o now]; cbn [step].
  - unfold startUpdates. apply plainDelays_schedule; [ | now right ].
    destruct (stopUpdates_clears st H) as [Ht _].
    destruct interval as [ms|]; [ destruct (Qeq_bool ms 0) | ]; exact Ht.
  - apply plainDelays_empty. now apply stopUpdates_clears.
  - unfold fire. destruct (existsb _ (timers st)) eqn:Ex; [ | exact Hd ].
    assert (Hc : clearTimeout h (timers st) = []).
    { apply tidy_inv in H. destruct H as [H | (h' & d & H & _)];
        rewrite H in *; [ reflexivity | ].
      cbn in Ex. rewrite orb_false_r in Ex. unfold clearTimeout. cbn. now rewrite Ex. }
    destruct (r && negb u).
    + unfold performUpdate.
      destruct (tryCatch _ o now) as [st2 k] eqn:E.
      assert (Ht2 : timers st2 = []).
      { change st2 with (fst (st2, k)). rewrite <- E, timers_tryCatch. exact Hc. }
      unfold finallyBlock. cbn [negb].
      destruct (updateTimer (with_isUpdating st2 false)).
      * apply plainDelays_schedule; [ exact Ht2 | now left ].
      * apply plainDelays_empty. exact Ht2.
    + apply plainDelays_schedule; [ exact Hc | now left ].
  - unfold forceUpdate. apply plainDelays_schedule; [ | now left ].
    destruct (stopUpdates_clears st H) as [Ht Hu].
    unfold performUpdate.
    destruct (tryCatch (with_isUpdating (stopUpdates st) true) o now) as [st2 k] eqn:E.
    assert (Ht2 : timers st2 = []).
    { change st2 with (fst (st2, k)). rewrite <- E, timers_tryCatch. exact Ht. }
    assert (Hu2 : updateTimer st2 = None).
    { change st2 with (fst (st2, k)). rewrite <- E, updateTimer_tryCatch. exact Hu. }
    unfold finallyBlock. cbn. now rewrite Hu2.
  - unfold setUpdateInterval.
    destruct (updateTimer (with_interval st (Times1000 seconds) (Given seconds))) eqn:Eu.
    + unfold startUpdates. apply plainDelays_schedule; [ | now right ].
      assert (Ht : tidy (with_interval st (Times1000 seconds) (Given seconds)) = true) by exact H.
      apply tidy_stopUpdates in Ht. now apply stopUpdates_clears in Ht.
    + apply plainDelays_empty. apply tidy_inv in H.
      destruct H as [H | (h & d & _ & Hu)]; [ exact H | ].
      cbn in Eu. rewrite Hu in Eu. discriminate.
  - destruct (performUpdate_manual st o now) as (Ht & _ & _).
    intros h d. rewrite Ht. intros Hin. destruct (Hd h d Hin) as [-> | ->]; [ now left | ].
    right. unfold performUpdate.
    destruct (tryCatch (with_isUpdating st true) o now) as [st2 k] eqn:E.
    unfold finallyBlock. cbn.
    change st2 with (fst (st2, k)). rewrite <- E. now rewrite updateInterval_tryCatch.
Qed.

(** X11. [retryInterval] is never used: after any sequence of calls and
    expiring timeouts, every pending timeout was armed with delay 0 or with
    the current update interval, also after failed updates. *)
Theorem retry_interval_is_never_used :
  forall st steps,
    tidy st = true ->
    plainDelays st ->
    plainDelays (run st steps).
Proof.
  intros st steps. unfold run. revert st.
  induction steps as [|s steps IH]; intros st H Hd; cbn [fold_left]; [ exact Hd | ].
  apply IH; [ now apply tidy_step | now apply plainDelays_step ].
Qed.

Lemma fire_stored st h d o now :
  timers st = [(h, d)] ->
  updateTimer st = Some h ->
  let st' := fire st h true false o now in
  timers st' = [(nextTimer st, updateInterval st)] /\
  updateTimer st' = Some (nextTimer st) /\
  errorCount st' = countErrors (errorCount st) [o].
Proof.
  intros Ht Hu st'. subst st'. unfold fire. rewrite Ht. cbn [existsb fst].
  rewrite Pos.eqb_refl. cbn [orb andb negb].
  unfold performUpdate, clearTimeout. cbn [filter fst].
  rewrite Pos.eqb_refl. cbn [negb].
  unfold tryCatch. destruct o; cbn; rewrite ?Hu; cbn; try (repeat split; reflexivity).
  destruct (_ <=? _)%nat; cbn; rewrite ?Hu; cbn; repeat split; reflexivity.
Qed.

Lemma poll_stored os now :
  forall st h d,
    timers st = [(h, d)] ->
    updateTimer st = Some h ->
    errorCount (poll st os now) = countErrors (errorCount st) os /\
    exists h' d', timers (poll st os now) = [(h', d')] /\
                  updateTimer (poll st os now) = Some h'.
Proof.
  induction os as [|o os IH]; intros st h d Ht Hu; cbn [poll].
  - split; [ reflexivity | eauto ].
  - rewrite Hu. destruct (fire_stored st h d o now Ht Hu) as (Ht' & Hu' & He).
    destruct (IH _ _ _ Ht' Hu') as (Hc & Hex).
    split; [ | exact Hex ].
    rewrite Hc, He. reflexivity.
Qed.

(** X12. Once started, the polling goes on whatever the updates do: after
    any sequence of outcomes, with the map ready and idle, exactly one
    timeout is pending and its handle is stored.  The error count is that
    of the outcomes: a success clears it, a failure adds one, an update
    without data leaves it, and no count stops the timer. *)
Theorem polling_goes_on_whatever_the_outcomes :
  forall st os now,
    tidy st = true ->
    errorCount (poll (startUpdates st None) os now) = countErrors (errorCount st) os /\
    exists h d,
      timers (poll (startUpdates st None) os now) = [(h, d)] /\
      updateTimer (poll (startUpdates st None) os now) = Some h.
Proof.
  intros st os now H.
  destruct (stopUpdates_clears st H) as [Ht Hu].
  assert (Hs : timers (startUpdates st None) = [(nextTimer (stopUpdates st), Given 0)] /\
               updateTimer (startUpdates st None) = Some (nextTimer (stopUpdates st)) /\
               errorCount (startUpdates st None) = errorCount st).
  { unfold startUpdates, scheduleNextUpdate. cbn. rewrite Ht.
    repeat split. unfold stopUpdates. destruct (updateTimer st); reflexivity. }
  destruct Hs as (Hs1 & Hs2 & Hs3).
  destruct (poll_stored os now _ _ _ Hs1 Hs2) as (Hc & Hex).
  now rewrite Hc, Hs3.
Qed.

(** X13. [forceUpdate] leaves exactly one timeout pending, armed with the
    update interval, whatever the outcome of the update it performs; the
    timeout that was pending before is cleared. *)
Theorem forceUpdate_rearms_once :
  forall st o now,
    tidy st = true ->
    timers (forceUpdate st o now) = [(nextTimer st, updateInterval st)] /\
    updateTimer (forceUpdate st o now) = Some (nextTimer st) /\
    errorCount (forceUpdate st o now) = countErrors (errorCount st) [o].
Proof.
  intros st o now H. destruct (stopUpdates_clears st H) as [Ht Hu].
  assert (Hn : nextTimer (stopUpdates st) = nextTimer st /\
               updateInterval (stopUpdates st) = updateInterval st /\
               errorCount (stopUpdates st) = errorCount st /\
               maxConsecutiveErrors (stopUpdates st) = maxConsecutiveErrors st).
  { unfold stopUpdates. destruct (updateTimer st); repeat split; reflexivity. }
  destruct Hn as (Hn1 & Hn2 & Hn3 & Hn4).
  unfold forceUpdate, performUpdate, tryCatch.
  destruct o; cbn; rewrite ?Hu; cbn; rewrite ?Ht, ?Hn1, ?Hn2, ?Hn3;
    try (repeat split; reflexivity).
  destruct (_ <=? _)%nat; cbn; rewrite Hu; cbn; rewrite Ht, Hn1, Hn2;
    repeat split; reflexivity.
Qed.

(** X14. A manual [performUpdate] (one that is passed a coordinator) leaves
    the timer alone: the pending timeouts and the stored handle are those of before,
    whatever the outcome; the error count follows the outcome and the
    [isUpdating] flag is down again. *)
Theorem manual_update_leaves_the_timer_alone :
  forall st o now,
    timers (performUpdate st true o now) = timers st /\
    updateTimer (performUpdate st true o now) = updateTimer st /\
    errorCount (performUpdate st true o now) = countErrors (errorCount st) [o] /\
    isUpdating (performUpdate st true o now) = false.
Proof.
  intros st o now. destruct (performUpdate_manual st o now) as (Ht & Hu & _).
  split; [ exact Ht | ]. split; [ exact Hu | ].
  unfold performUpdate, tryCatch.
  destruct o; cbn; try (split; reflexivity).
  destruct (_ <=? _)%nat; cbn; split; reflexivity.
Qed.

End RealtimeRunFacts.

(* ------------------------------------------------------------------ *)
(** * The life cycle of the markers *)

Section MarkerLifecycleFacts.
Import Js MarkerManager MarkerSpec MarkerLookup.
Implicit Types (m : Marker) (st : State) (k : option string).

(** ** The registry as a map *)

Lemma map_has_keys {V} k (mi : list (option string * V)) :
  map_has k mi = set_has k (map_keys mi).
Proof.
  unfold map_has, set_has, map_keys.
  induction mi as [|[k0 v0] mi IH]; cbn; [ reflexivity | ].
  destruct (key_eqb k k0); [ reflexivity | exact IH ].
Qed.

Lemma map_set_fresh {V} k (v : V) (mi : list (option string * V)) :
  map_has k mi = false -> map_set k v mi = mi ++ [(k, v)].
Proof.
  rewrite map_has_keys. unfold set_has, map_keys.
  induction mi as [|[k0 v0] mi IH]; cbn; [ reflexivity | ].
  intros H. apply orb_false_iff in H as [H1 H2].
  rewrite H1. now rewrite IH.
Qed.

Lemma set_has_app k a b : set_has k (a ++ b) = set_has k a || set_has k b.
Proof. unfold set_has. apply existsb_app. Qed.

Lemma set_has_In k ks : set_has k ks = true <-> In k ks.
Proof.
  unfold set_has. rewrite existsb_exists. split.
  - intros (x & Hin & E). apply key_eqb_eq in E. now subst.
  - intros Hin. exists k. split; [ exact Hin | apply key_eqb_refl ].
Qed.

Lemma distinct_snoc ks k :
  distinct (ks ++ [k]) = distinct ks && negb (set_has k ks).
Proof.
  induction ks as [|k0 ks IH]; [ reflexivity | ].
  cbn [distinct app]. rewrite IH, set_has_app.
  change (set_has k0 [k]) with (key_eqb k0 k || false).
  change (set_has k (k0 :: ks)) with (key_eqb k k0 || set_has k ks).
  rewrite orb_false_r, (key_eqb_sym k k0).
  destruct (set_has k0 ks), (key_eqb k0 k), (distinct ks), (set_has k ks); reflexivity.
Qed.

Lemma distinct_app_cons a k b :
  distinct (a ++ k :: b) = true ->
  set_has k a = false /\ distinct ((a ++ [k]) ++ b) = true.
Proof.
  intros H. rewrite <- app_assoc. cbn. split; [ | exact H ].
  induction a as [|k0 a IH]; cbn in *; [ reflexivity | ].
  apply andb_prop in H as [H1 H2]. apply negb_true_iff in H1.
  rewrite set_has_app in H1. cbn in H1.
  apply orb_false_iff in H1 as [_ H1]. apply orb_false_iff in H1 as [H1 _].
  rewrite key_eqb_sym, H1. now apply IH.
Qed.

Lemma distinct_filter f ks : distinct ks = true -> distinct (filter f ks) = true.
Proof.
  induction ks as [|k ks IH]; cbn; [ reflexivity | ].
  intros H. apply andb_prop in H as [H1 H2]. apply negb_true_iff in H1.
  destruct (f k); cbn; [ | now apply IH ].
  rewrite IH by exact H2. rewrite andb_true_r. apply negb_true_iff.
  destruct (set_has k (filter f ks)) eqn:E; [ | reflexivity ].
  apply set_has_In, filter_In in E as [E _]. apply set_has_In in E. congruence.
Qed.

Lemma map_keys_delete {V} k (mi : list (option string * V)) :
  map_keys (map_delete k mi) = set_delete k (map_keys mi).
Proof.
  unfold map_keys, map_delete, set_delete.
  induction mi as [|[k0 v0] mi IH]; cbn; [ reflexivity | ].
  destruct (key_eqb k k0); cbn; now rewrite IH.
Qed.

Lemma set_has_delete k k' ks :
  set_has k (set_delete k' ks) = negb (key_eqb k' k) && set_has k ks.
Proof.
  unfold set_has, set_delete. induction ks as [|k0 ks IH]; cbn.
  - now rewrite andb_false_r.
  - destruct (key_eqb k' k0) eqn:E; cbn; rewrite IH.
    + apply key_eqb_eq in E. subst k0. rewrite (key_eqb_sym k k').
      destruct (key_eqb k' k); reflexivity.
    + destruct (key_eqb k k0) eqn:E0; [ | reflexivity ].
      apply key_eqb_eq in E0. subst k0. now rewrite E.
Qed.

Lemma map_has_delete {V} k k' (mi : list (option string * V)) :
  map_has k (map_delete k' mi) = negb (key_eqb k' k) && map_has k mi.
Proof. now rewrite !map_has_keys, map_keys_delete, set_has_delete. Qed.

Lemma map_get_delete {V} k k' (mi : list (option string * V)) :
  key_eqb k' k = false -> map_get k (map_delete k' mi) = map_get k mi.
Proof.
  intros Hk. unfold map_delete.
  induction mi as [|[k0 v0] mi IH]; cbn; [ reflexivity | ].
  destruct (key_eqb k' k0) eqn:E; cbn.
  - apply key_eqb_eq in E. subst k0. rewrite key_eqb_sym, Hk. exact IH.
  - now rewrite IH.
Qed.

(** ** Registering Leaflet markers *)

Lemma registryOk_inv (mi : list (option string * Handle)) :
  registryOk mi = true ->
  mi = List.map (fun h => (markerId h, h)) (List.map snd mi)
  /\ distinct (List.map markerId (List.map snd mi)) = true.
Proof.
  unfold registryOk. intros H. apply andb_prop in H as [H1 H2].
  assert (Hk : List.map markerId (List.map snd mi) = map_keys mi).
  { clear H2. induction mi as [|[k0 h0] mi IH]; cbn in *; [ reflexivity | ].
    apply andb_prop in H1 as [E H1]. apply key_eqb_eq in E. subst k0.
    now rewrite IH. }
  rewrite Hk. split; [ | exact H2 ]. clear H2 Hk.
  induction mi as [|[k0 h0] mi IH]; cbn in *; [ reflexivity | ].
  apply andb_prop in H1 as [E H1]. apply key_eqb_eq in E. subst k0.
  now rewrite <- IH.
Qed.

Lemma registryOk_snoc (mi : list (option string * Handle)) h :
  registryOk mi = true -> map_has (markerId h) mi = false ->
  registryOk (mi ++ [(markerId h, h)]) = true.
Proof.
  unfold registryOk. intros H Hn. apply andb_prop in H as [H1 H2].
  rewrite forallb_app, H1. cbn. rewrite key_eqb_refl. cbn.
  unfold map_keys in *. rewrite map_app. cbn.
  rewrite distinct_snoc, H2. rewrite map_has_keys in Hn.
  unfold map_keys in Hn. now rewrite Hn.
Qed.

Lemma readd_fresh cluster hs :
  forall st,
    distinct (map_keys (markerInstances st) ++ List.map markerId hs) = true ->
    markerInstances (readd cluster hs st)
    = markerInstances st ++ List.map (fun h => (markerId h, h)) hs
    /\ surface (readd cluster hs st)
       = surface st ++ List.map (fun h => AddLayer cluster (markerId h)) hs
    /\ currentClusterMode (readd cluster hs st) = currentClusterMode st
    /\ clusterGroup (readd cluster hs st) = clusterGroup st.
Proof.
  induction hs as [|h hs IH]; intros st Hd; cbn.
  - rewrite !app_nil_r. repeat split.
  - apply distinct_app_cons in Hd as [Hn Hd].
    assert (Hf : map_has (markerId h) (markerInstances st) = false)
      by (now rewrite map_has_keys).
    rewrite (map_set_fresh _ _ _ Hf).
    destruct (IH (with_instances (emit st [AddLayer cluster (markerId h)])
                    (markerInstances st ++ [(markerId h, h)]))) as (I1 & I2 & I3 & I4).
    { cbn. unfold map_keys in *. rewrite map_app. exact Hd. }
    rewrite I1, I2, I3, I4. cbn. rewrite <- !app_assoc. repeat split.
Qed.

Lemma toggleClusterMode_registry st enable :
  registryOk (markerInstances st) = true ->
  markerInstances (toggleClusterMode st enable) = markerInstances st.
Proof.
  intros Hok. apply registryOk_inv in Hok as [Hm Hd'].
  unfold toggleClusterMode.
  destruct (Bool.eqb enable (currentClusterMode st)); [ reflexivity | ].
  cbn [markerInstances with_cluster].
  destruct enable.
  - destruct (clusterGroup (clearAllMarkers st));
      (edestruct readd_fresh as (I1 & _); [ | rewrite I1; cbn; symmetry; exact Hm ]);
      cbn; exact Hd'.
  - destruct (clusterGroup (clearAllMarkers st));
      (edestruct readd_fresh as (I1 & _); [ | rewrite I1; cbn; symmetry; exact Hm ]);
      cbn; exact Hd'.
Qed.

Lemma createLoop_fresh cv u len l :
  forallb (renders cv) l = true ->
  forall idx st,
    registryOk (markerInstances st) = true ->
    distinct (map_keys (markerInstances st) ++ List.map id l) = true ->
    exists st',
      createLoop cv u len idx l st = Done st'
      /\ markerInstances st'
         = markerInstances st ++ List.map (fun m => (id m, handleOf cv m)) l
      /\ registryOk (markerInstances st') = true.
Proof.
  induction l as [|m l IH]; intros Hr idx st Hok Hd; cbn [createLoop List.map].
  - exists st. now rewrite app_nil_r.
  - cbn [forallb] in Hr. apply andb_prop in Hr as [Hm Hr].
    apply distinct_app_cons in Hd as [Hn Hd].
    assert (Hf : map_has (id m) (markerInstances st) = false)
      by (now rewrite map_has_keys).
    destruct (createOne_renders cv u len idx m st Hm) as (st1 & -> & _ & Hi).
    fold (handleOf cv m) in Hi. rewrite (map_set_fresh _ _ _ Hf) in Hi.
    cbn [andThen].
    destruct (IH Hr (S idx) st1) as (st' & E & I1 & I2).
    + rewrite Hi. now apply (registryOk_snoc _ (handleOf cv m)).
    + rewrite Hi. unfold map_keys in *. rewrite map_app. exact Hd.
    + exists st'. split; [ exact E | ]. split; [ | exact I2 ].
      rewrite I1, Hi. now rewrite <- app_assoc.
Qed.

Lemma map_get_pairs {V} (f : Marker -> V) ms :
  distinct (List.map id ms) = true ->
  forall m, In m ms -> map_get (id m) (List.map (fun x => (id x, f x)) ms) = Some (f m).
Proof.
  induction ms as [|x ms IH]; intros Hd m Hin; [ contradiction | ].
  cbn in *. apply andb_prop in Hd as [Hx Hd]. apply negb_true_iff in Hx.
  destruct Hin as [-> | Hin]; [ now rewrite key_eqb_refl | ].
  destruct (key_eqb (id m) (id x)) eqn:E.
  - apply key_eqb_eq in E. exfalso.
    assert (Hs : set_has (id x) (List.map id ms) = true)
      by (apply set_has_In; rewrite <- E; now apply in_map).
    congruence.
  - now apply IH.
Qed.

(** ** What a prepared record looks like *)

Lemma truthy_assign_id m : truthy (id (assign_id m)) = true.
Proof.
  unfold assign_id. destruct (truthy (id m)) eqn:E; [ exact E | reflexivity ].
Qed.

Lemma strict_neq_number v : is_number v = true -> strict_neq v v = false.
Proof.
  destruct v as [ | | |x]; cbn; try discriminate. intros _.
  apply negb_false_iff. apply Qeq_bool_iff. reflexivity.
Qed.

Lemma strict_neq_not_nan v : is_nan v = false -> strict_neq v v = false.
Proof.
  destruct v as [ | | |x]; cbn; try discriminate; try reflexivity. intros _.
  apply negb_false_iff. apply Qeq_bool_iff. reflexivity.
Qed.

Lemma opt_string_neq_refl (o : option string) : opt_string_neq o o = false.
Proof. destruct o as [s|]; cbn; [ now rewrite String.eqb_refl | reflexivity ]. Qed.

Lemma opt_int_neq_refl (o : option Z) : opt_int_neq o o = false.
Proof. destruct o as [z|]; cbn; [ now rewrite Z.eqb_refl | reflexivity ]. Qed.

Lemma placed_unchanged m : placed m = true -> hasMarkerChanged m m = false.
Proof.
  unfold placed, hasMarkerChanged. intros H.
  apply andb_prop in H as [H Hv]. apply andb_prop in H as [Hlat Hlon].
  apply negb_true_iff in Hv.
  now rewrite (strict_neq_number _ Hlat), (strict_neq_number _ Hlon),
    opt_string_neq_refl, (strict_neq_not_nan _ Hv), opt_int_neq_refl.
Qed.

Lemma liveMarker_prepare m : placed m = true -> liveMarker (prepare m) = true.
Proof.
  intros H. unfold liveMarker.
  assert (Hp : placed (prepare m) = true).
  { unfold prepare, assign_id. destruct (truthy (id m)); exact H. }
  rewrite (placed_unchanged _ Hp).
  unfold placed in Hp. apply andb_prop in Hp as [Hp _]. rewrite Hp.
  assert (Hid : truthy (id (prepare m)) = true).
  { unfold prepare. cbn. apply truthy_assign_id. }
  now rewrite Hid.
Qed.

Lemma truthy_dateline s : truthy_string (s ++ "_dateline") = true.
Proof. destruct s; reflexivity. Qed.

Lemma liveMarker_duplicated m :
  liveMarker m = true -> liveMarker (duplicatedMarker m) = true.
Proof.
  unfold liveMarker. intros H.
  apply andb_prop in H as [H Hc]. apply andb_prop in H as [_ Hn].
  apply andb_prop in Hn as [Hlat Hlon]. apply negb_true_iff in Hc.
  assert (Hl : is_number (mirror (lon m)) = true).
  { destruct (lon m) as [ | | |x]; try discriminate.
    unfold mirror. destruct (lt_lit (VNum x) 0); reflexivity. }
  unfold duplicatedMarker. cbn. rewrite truthy_dateline, Hlat, Hl. cbn.
  apply negb_true_iff.
  unfold hasMarkerChanged in *. cbn.
  rewrite (strict_neq_number _ Hl), orb_false_r.
  destruct (strict_neq (lat m) (lat m)); [ discriminate | ].
  cbn in Hc. destruct (strict_neq (lon m) (lon m)); [ discriminate | ].
  cbn in *. exact Hc.
Qed.

Lemma liveMarker_staged l :
  forallb (fun m => withoutCoords m || placed m) l = true ->
  forallb liveMarker (flat_map (fun m => staged (prepare m)) l) = true.
Proof.
  induction l as [|m l IH]; cbn; [ reflexivity | ].
  intros H. apply andb_prop in H as [Hm Hl].
  rewrite forallb_app, (IH Hl), andb_true_r.
  unfold staged. rewrite withoutCoords_prepare.
  destruct (withoutCoords m) eqn:Ew; [ reflexivity | ].
  cbn in Hm. pose proof (liveMarker_prepare _ Hm) as Hp.
  cbn. rewrite Hp. cbn.
  destruct (crossesDateLine (prepare m)); [ | reflexivity ].
  cbn. now rewrite liveMarker_duplicated.
Qed.


Lemma drawable_renders cv m :
  drawable cv m = true ->
  renders cv (prepare m) = true
  /\ renders cv (duplicatedMarker (prepare m)) = true.
Proof.
  unfold drawable, placed, renders. intros H.
  apply andb_prop in H as [H Hv]. apply andb_prop in H as [H _].
  apply andb_prop in H as [Hlat Hlon].
  assert (E : lat (prepare m) = lat m /\ lon (prepare m) = lon m
              /\ var (prepare m) = var m).
  { unfold prepare, assign_id. destruct (truthy (id m)); repeat split. }
  destruct E as (E1 & E2 & E3). rewrite E1, E2, E3, Hlat, Hlon, Hv.
  split; [ reflexivity | ].
  unfold duplicatedMarker, with_lon, with_id. cbn [lat lon var].
  rewrite E1, E2, E3, Hlat, Hv.
  destruct (lon m) as [ | | |x]; try discriminate. unfold mirror.
  destruct (lt_lit (VNum x) 0); reflexivity.
Qed.

Lemma renders_staged cv l :
  forallb (fun m => withoutCoords m || drawable cv m) l = true ->
  forallb (renders cv) (flat_map (fun m => staged (prepare m)) l) = true.
Proof.
  induction l as [|m l IH]; cbn; [ reflexivity | ].
  intros H. apply andb_prop in H as [Hm Hl].
  rewrite forallb_app, (IH Hl), andb_true_r.
  unfold staged. rewrite withoutCoords_prepare.
  destruct (withoutCoords m) eqn:Ew; [ reflexivity | ].
  cbn in Hm. destruct (drawable_renders cv m Hm) as [Hp Hc].
  cbn. rewrite Hp. cbn.
  destruct (crossesDateLine (prepare m)); [ | reflexivity ].
  cbn. now rewrite Hc.
Qed.

Lemma drawable_placed cv l :
  forallb (fun m => withoutCoords m || drawable cv m) l = true ->
  forallb (fun m => withoutCoords m || placed m) l = true.
Proof.
  intros H. apply forallb_forall. intros m Hin.
  rewrite forallb_forall in H. specialize (H m Hin).
  apply orb_true_iff in H as [-> | H]; [ reflexivity | ].
  unfold drawable in H. apply andb_prop in H as [-> _]. apply orb_true_r.
Qed.


(** ** A full rebuild *)

Lemma toggleClusterMode_empty st enable :
  markerInstances st = [] -> markerInstances (toggleClusterMode st enable) = [].
Proof.
  intros H. rewrite toggleClusterMode_registry; [ exact H | now rewrite H ].
Qed.

Lemma instances_processMarkers cv st l :
  forallb (renders cv) (flat_map (fun m => staged (prepare m)) l) = true ->
  distinct (List.map id (flat_map (fun m => staged (prepare m)) l)) = true ->
  exists st',
    processMarkers cv st (Some l) = Done st'
    /\ markerInstances st'
       = List.map (fun m => (id m, handleOf cv m))
           (flat_map (fun m => staged (prepare m)) l)
    /\ registryOk (markerInstances st') = true.
Proof.
  intros Hr Hd. unfold processMarkers, createMarkers, createSpecificMarkers.
  rewrite fold_processOne. cbn [app markers clearAllMarkers with_instances emit with_markers].
  set (ms := flat_map (fun m => staged (prepare m)) l) in *.
  set (u := truthy_string (currentMarkerMode cv) && includes "cluster" (currentMarkerMode cv)).
  match goal with
  | |- context [createLoop cv u ?len 0 ms ?s] =>
      assert (He : markerInstances s = []);
        [ | destruct (createLoop_fresh cv u len ms Hr 0%nat s) as (st' & E & I1 & I2) ]
  end.
  - destruct (Bool.eqb u _); [ reflexivity | now apply toggleClusterMode_empty ].
  - now rewrite He.
  - rewrite He. exact Hd.
  - rewrite He in I1. exists st'. split; [ exact E | ]. split; [ exact I1 | exact I2 ].
Qed.

(** X16. A full rebuild from well-formed records with distinct ids completes
    and leaves the live set in its invariant: every marker kept has an id, a
    numeric position and a Leaflet marker registered under its id, the
    registry holds exactly the ids of the markers kept, in their order, and
    looking an id up gives the marker created from that record.  A record is
    well formed when it has no coordinates at all, or has a numeric position
    and a [var] the popup of the current mode can print.  What the manager
    held before the call plays no part. *)
Theorem full_rebuild_establishes_the_live_set :
  forall cv st l,
    forallb (fun m => withoutCoords m || drawable cv m) l = true ->
    distinct (List.map id (flat_map (fun m => staged (prepare m)) l)) = true ->
    exists st',
      processMarkers cv st (Some l) = Done st'
      /\ liveSet st' = true
      /\ registryOk (markerInstances st') = true
      /\ map_keys (markerInstances st') = List.map id (markers st')
      /\ (forall m, In m (markers st') ->
            getMarkerById st' (id m) = Some (handleOf cv m)).
Proof.
  intros cv st l Hp Hd.
  destruct (instances_processMarkers cv st l (renders_staged cv l Hp) Hd)
    as (st' & E & Hi & Hok).
  pose proof (markers_processMarkers cv st l) as Hm. rewrite E in Hm. cbn [stateOf] in Hm.
  assert (Hk : map_keys (markerInstances st') = List.map id (markers st')).
  { rewrite Hi, Hm. unfold map_keys. rewrite map_map. reflexivity. }
  exists st'. split; [ exact E | ]. split; [ | split; [ | split ] ].
  - unfold liveSet.
    rewrite Hm, (liveMarker_staged l (drawable_placed cv l Hp)), Hd. cbn [andb].
    apply forallb_forall. intros m Hin. rewrite map_has_keys, Hk, Hm.
    apply set_has_In. now apply in_map.
  - exact Hok.
  - exact Hk.
  - intros m Hin. unfold getMarkerById. rewrite Hi. rewrite Hm in Hin.
    now apply (map_get_pairs (handleOf cv)).
Qed.

(** ** Removing one marker *)

Lemma filter_id {A} (f : A -> bool) (l : list A) :
  forallb f l = true -> filter f l = l.
Proof.
  induction l as [|x l IH]; cbn; [ reflexivity | ].
  intros H. apply andb_prop in H as [H1 H2]. now rewrite H1, IH.
Qed.

Lemma liveSet_inv st :
  liveSet st = true ->
  forallb liveMarker (markers st) = true
  /\ distinct (List.map id (markers st)) = true
  /\ forallb (fun m => map_has (id m) (markerInstances st)) (markers st) = true.
Proof.
  unfold liveSet. intros H. apply andb_prop in H as [H H3].
  apply andb_prop in H as [H1 H2]. auto.
Qed.

Lemma forallb_filter_keep {A} (p f : A -> bool) (l : list A) :
  forallb p l = true -> forallb p (filter f l) = true.
Proof.
  intros H. apply forallb_forall. intros x Hin. apply filter_In in Hin as [Hin _].
  now apply (proj1 (forallb_forall p l) H).
Qed.

Lemma map_filter_id f ms :
  List.map id (filter (fun m => f (id m)) ms) = filter f (List.map id ms).
Proof.
  induction ms as [|m ms IH]; cbn; [ reflexivity | ].
  destruct (f (id m)); cbn; now rewrite IH.
Qed.

(** X17. Removing a marker by id keeps the live set in its invariant.  When
    a Leaflet marker is registered under the id, it is taken off the layer
    in use, the id is no longer registered and no marker kept carries it;
    when none is registered the call changes nothing, so a record whose id
    is not registered stays in the list.  Every other id is looked up as
    before. *)
Theorem removeMarker_keeps_the_live_set :
  forall st k,
    liveSet st = true ->
    liveSet (removeMarker st k) = true
    /\ (map_has k (markerInstances st) = true ->
          getMarkerById (removeMarker st k) k = None
          /\ markers (removeMarker st k)
             = filterMarkers st (fun m => negb (key_eqb (id m) k))
          /\ surface (removeMarker st k)
             = surface st ++ [RemoveLayer (currentClusterMode st) k])
    /\ (map_has k (markerInstances st) = false -> removeMarker st k = st)
    /\ (forall k', key_eqb k k' = false ->
          getMarkerById (removeMarker st k) k' = getMarkerById st k').
Proof.
  intros st k Hl. unfold removeMarker, getMarkerById, filterMarkers.
  destruct (map_has k (markerInstances st)) eqn:Eh;
    cbn [markers markerInstances surface currentClusterMode with_markers with_instances emit].
  - apply liveSet_inv in Hl as (H1 & H2 & H3).
    split; [ | split; [ | split ] ].
    + unfold liveSet.
      cbn [markers markerInstances surface currentClusterMode with_markers with_instances emit].
      rewrite (forallb_filter_keep liveMarker _ _ H1).
      rewrite (map_filter_id (fun x => negb (key_eqb x k))).
      rewrite (distinct_filter _ _ H2). cbn [andb].
      apply forallb_forall. intros m Hin. apply filter_In in Hin as [Hin Hk].
      rewrite map_has_delete, key_eqb_sym, Hk. cbn [andb].
      now apply (proj1 (forallb_forall _ _) H3).
    + intros _. split; [ | split; reflexivity ].
      pose proof (map_has_delete k k (markerInstances st)) as Hd.
      rewrite key_eqb_refl in Hd. cbn in Hd. unfold map_has in Hd.
      destruct (map_get k (map_delete k (markerInstances st))); [ discriminate | reflexivity ].
    + discriminate.
    + intros k' Hk. now apply map_get_delete.
  - split; [ exact Hl | split; [ discriminate | split; [ reflexivity | reflexivity ] ] ].
Qed.

(** ** Switching between the plain layer and the cluster layer *)

Lemma toggleClusterMode_surface st enable :
  registryOk (markerInstances st) = true ->
  Bool.eqb enable (currentClusterMode st) = false ->
  surface (toggleClusterMode st enable)
  = surface st ++ ClearLayers :: groupCalls st enable
      ++ List.map (fun k => AddLayer enable k) (map_keys (markerInstances st))
  /\ clusterGroup (toggleClusterMode st enable) = enable || clusterGroup st.
Proof.
  intros Hok Hne. pose proof Hok as Hok'. apply registryOk_inv in Hok as [Hm Hd'].
  assert (Hk : List.map (fun h => AddLayer enable (markerId h)) (List.map snd (markerInstances st))
               = List.map (fun k => AddLayer enable k) (map_keys (markerInstances st))).
  { unfold map_keys. rewrite Hm at 2. now rewrite !map_map. }
  unfold toggleClusterMode, groupCalls. rewrite Hne.
  cbn [surface clusterGroup with_cluster].
  change (clusterGroup (clearAllMarkers st)) with (clusterGroup st).
  destruct enable; destruct (clusterGroup st) eqn:Eg;
    (edestruct readd_fresh as (_ & I2 & _ & I4); [ | rewrite I2, I4 ];
     [ cbn; exact Hd' | cbn; rewrite Hk, <- ?app_assoc; cbn; rewrite ?Eg; auto ]).
Qed.

Lemma currentClusterMode_toggle st enable :
  currentClusterMode (toggleClusterMode st enable) = enable.
Proof.
  unfold toggleClusterMode.
  destruct (Bool.eqb enable (currentClusterMode st)) eqn:E; [ | reflexivity ].
  symmetry. now apply eqb_prop.
Qed.

(** X18. Switching the cluster mode loses no marker.  With a registry keyed
    by the markers' own ids, the markers kept and the registry are the same
    after the switch, the mode is the one asked for, and when the mode
    really changes the layers are cleared once and every registered marker
    is added back exactly once, in registry order, to the layer asked for.
    Switching there and back therefore restores the registry. *)
Theorem cluster_switch_loses_no_marker :
  forall st enable,
    registryOk (markerInstances st) = true ->
    markers (toggleClusterMode st enable) = markers st
    /\ markerInstances (toggleClusterMode st enable) = markerInstances st
    /\ currentClusterMode (toggleClusterMode st enable) = enable
    /\ (enable <> currentClusterMode st ->
         surface (toggleClusterMode st enable)
         = surface st ++ ClearLayers :: groupCalls st enable
             ++ List.map (fun k => AddLayer enable k) (map_keys (markerInstances st)))
    /\ markerInstances (toggleClusterMode (toggleClusterMode st enable) (negb enable))
       = markerInstances st.
Proof.
  intros st enable Hok.
  pose proof (toggleClusterMode_registry st enable Hok) as Hi.
  split; [ apply markers_toggleClusterMode | ].
  split; [ exact Hi | ].
  split; [ apply currentClusterMode_toggle | ].
  split.
  - intros Hne. apply toggleClusterMode_surface; [ exact Hok | ].
    destruct enable, (currentClusterMode st); cbn; congruence.
  - rewrite toggleClusterMode_registry; [ exact Hi | now rewrite Hi ].
Qed.

(** X19. Once the cluster group exists, leaving cluster mode takes the group
    off the map and entering cluster mode again does not put it back: the
    second switch clears the layers and adds every marker to the group, and
    no call creates a group or attaches one to the map. *)
Theorem cluster_group_is_not_put_back_on_the_map :
  forall st,
    registryOk (markerInstances st) = true ->
    currentClusterMode st = true ->
    clusterGroup st = true ->
    surface (toggleClusterMode (toggleClusterMode st false) true)
    = surface st
        ++ (ClearLayers :: RemoveClusterGroup
              :: List.map (fun k => AddLayer false k) (map_keys (markerInstances st)))
        ++ (ClearLayers
              :: List.map (fun k => AddLayer true k) (map_keys (markerInstances st)))
    /\ currentClusterMode (toggleClusterMode (toggleClusterMode st false) true) = true
    /\ count (fun c => match c with CreateClusterGroup => true | _ => false end)
         (surface (toggleClusterMode (toggleClusterMode st false) true))
       = count (fun c => match c with CreateClusterGroup => true | _ => false end)
           (surface st).
Proof.
  intros st Hok Hm Hg.
  destruct (toggleClusterMode_surface st false Hok) as [S1 G1]; [ now rewrite Hm | ].
  pose proof (toggleClusterMode_registry st false Hok) as Hi.
  destruct (toggleClusterMode_surface (toggleClusterMode st false) true) as [S2 _].
  { now rewrite Hi. }
  { now rewrite currentClusterMode_toggle. }
  assert (Hs : surface (toggleClusterMode (toggleClusterMode st false) true)
    = surface st
        ++ (ClearLayers :: RemoveClusterGroup
              :: List.map (fun k => AddLayer false k) (map_keys (markerInstances st)))
        ++ (ClearLayers
              :: List.map (fun k => AddLayer true k) (map_keys (markerInstances st)))).
  { rewrite S2, S1, Hi. unfold groupCalls. rewrite G1, Hg. cbn.
    now rewrite <- !app_assoc. }
  split; [ exact Hs | ]. split; [ apply currentClusterMode_toggle | ].
  rewrite Hs. unfold count. rewrite !filter_app, !length_app. cbn.
  assert (Hz : forall b ks,
             List.length (filter (fun c => match c with CreateClusterGroup => true | _ => false end)
                            (List.map (fun k => AddLayer b k) ks)) = 0%nat).
  { intros b ks. induction ks as [|k ks IH]; cbn; [ reflexivity | exact IH ]. }
  rewrite !Hz. lia.
Qed.

(** ** Removing many markers *)

Lemma filter_filter {A} (f g : A -> bool) (l : list A) :
  filter f (filter g l) = filter (fun x => g x && f x) l.
Proof.
  induction l as [|x l IH]; cbn; [ reflexivity | ].
  destruct (g x); cbn; [ destruct (f x); now rewrite IH | exact IH ].
Qed.

Lemma fold_removeMarker ks :
  forall st,
    distinct ks = true ->
    forallb (fun k => map_has k (markerInstances st)) ks = true ->
    markers (fold_left removeMarker ks st)
    = filter (fun m => negb (set_has (id m) ks)) (markers st)
    /\ markerInstances (fold_left removeMarker ks st)
       = filter (fun e => negb (set_has (fst e) ks)) (markerInstances st)
    /\ surface (fold_left removeMarker ks st)
       = surface st ++ List.map (fun k => RemoveLayer (currentClusterMode st) k) ks.
Proof.
  induction ks as [|k ks IH]; intros st Hd Hr; cbn [fold_left List.map].
  - cbn. rewrite app_nil_r, !filter_id; [ auto | | ]; now apply forallb_forall.
  - cbn in Hd, Hr. apply andb_prop in Hd as [Hk Hd]. apply negb_true_iff in Hk.
    apply andb_prop in Hr as [Hrk Hr].
    assert (Hst : removeMarker st k =
                  with_markers
                    (with_instances (emit st [RemoveLayer (currentClusterMode st) k])
                       (map_delete k (markerInstances st)))
                    (filter (fun m => negb (key_eqb (id m) k)) (markers st))).
    { unfold removeMarker. now rewrite Hrk. }
    destruct (IH (removeMarker st k) Hd) as (I1 & I2 & I3).
    { rewrite Hst. cbn [markerInstances with_markers with_instances].
      apply forallb_forall. intros k2 Hin.
      rewrite map_has_delete.
      rewrite (proj1 (forallb_forall _ _) Hr k2 Hin), andb_true_r.
      apply negb_true_iff. destruct (key_eqb k k2) eqn:E; [ | reflexivity ].
      apply key_eqb_eq in E. subst k2. apply set_has_In in Hin. congruence. }
    rewrite I1, I2, I3, Hst.
    cbn [markers markerInstances surface currentClusterMode with_markers with_instances emit].
    unfold map_delete. rewrite !filter_filter, <- app_assoc.
    split; [ | split; [ | reflexivity ] ]; apply filter_ext; intros x;
      change (set_has ?a (k :: ks)) with (key_eqb a k || set_has a ks);
      rewrite negb_orb; [ reflexivity | ].
    now rewrite (key_eqb_sym k (fst x)).
Qed.

Lemma map_get_filter_out {V} k ks (mi : list (option string * V)) :
  set_has k ks = true ->
  map_get k (filter (fun e => negb (set_has (fst e) ks)) mi) = None.
Proof.
  intros H. induction mi as [|[k0 v0] mi IH]; cbn; [ reflexivity | ].
  destruct (set_has k0 ks) eqn:E; cbn; [ exact IH | ].
  destruct (key_eqb k k0) eqn:E0; [ | exact IH ].
  apply key_eqb_eq in E0. congruence.
Qed.

Lemma map_get_filter_in {V} k ks (mi : list (option string * V)) :
  set_has k ks = false ->
  map_get k (filter (fun e => negb (set_has (fst e) ks)) mi) = map_get k mi.
Proof.
  intros H. induction mi as [|[k0 v0] mi IH]; cbn; [ reflexivity | ].
  destruct (set_has k0 ks) eqn:E; cbn.
  - destruct (key_eqb k k0) eqn:E0; [ | exact IH ].
    apply key_eqb_eq in E0. congruence.
  - now rewrite IH.
Qed.

Lemma fold_map_set_fresh ms :
  forall acc : list (option string * Marker),
    distinct (map_keys acc ++ List.map id ms) = true ->
    fold_left (fun acc m => map_set (id m) m acc) ms acc
    = acc ++ List.map (fun m => (id m, m)) ms.
Proof.
  induction ms as [|m ms IH]; intros acc Hd; cbn; [ now rewrite app_nil_r | ].
  cbn in Hd. apply distinct_app_cons in Hd as [Hn Hd].
  rewrite map_set_fresh by (now rewrite map_has_keys).
  rewrite IH; [ now rewrite <- app_assoc | ].
  unfold map_keys in *. now rewrite map_app.
Qed.

Lemma currentMap_distinct ms :
  distinct (List.map id ms) = true ->
  currentMap ms = List.map (fun m => (id m, m)) ms.
Proof. intros Hd. unfold currentMap. now rewrite fold_map_set_fresh. Qed.

(** X20. A refresh whose list is empty completes and takes every marker
    away, on either path: the list of markers kept is empty afterwards and
    no id of a marker that was live is registered any more. *)
Theorem empty_refresh_removes_every_marker :
  forall cv st p,
    liveSet st = true ->
    list_ p = Some [] ->
    exists st',
      updateMarkersFromData cv st (Some p) = Done st'
      /\ markers st' = []
      /\ (forall m, In m (markers st) -> getMarkerById st' (id m) = None).
Proof.
  intros cv st p Hl Hp. unfold updateMarkersFromData, getMarkerById. rewrite Hp.
  destruct (shouldRefreshAllMarkers st [] p).
  - destruct (instances_processMarkers cv st []) as (st' & E & Hi & _);
      [ reflexivity | reflexivity | ].
    pose proof (markers_processMarkers cv st []) as Hm.
    rewrite E in Hm. cbn [stateOf] in Hm.
    exists st'. split; [ exact E | ]. rewrite Hi, Hm. cbn. auto.
  - apply liveSet_inv in Hl as (H1 & H2 & H3).
    unfold updateChangedMarkers.
    cbn [fold_left markersToAdd markersToRemove live thrown].
    fold (currentMap (markers st)). rewrite (currentMap_distinct _ H2).
    unfold map_keys. rewrite map_map. cbn [fst].
    destruct (fold_removeMarker (List.map id (markers st)) st H2) as (I1 & I2 & _).
    { rewrite forallb_forall in H3. apply forallb_forall. intros k Hin.
      apply in_map_iff in Hin as (m & <- & Hin). now apply H3. }
    change (List.map (fun x => id x) (markers st)) with (List.map id (markers st)).
    eexists. split; [ reflexivity | ].
    rewrite I1, I2. split.
    + destruct (filter _ (markers st)) as [|m r] eqn:E; [ reflexivity | ].
      assert (Hin : In m (filter (fun m => negb (set_has (id m) (List.map id (markers st))))
                            (markers st))) by (rewrite E; now left).
      apply filter_In in Hin as [Hin Hf]. apply negb_true_iff in Hf.
      assert (set_has (id m) (List.map id (markers st)) = true)
        by (apply set_has_In; now apply in_map).
      congruence.
    + intros m Hin. apply map_get_filter_out. apply set_has_In. now apply in_map.
Qed.


(** ** The same data again *)

Lemma id_prepare m : id (prepare m) = id (assign_id m).
Proof. reflexivity. Qed.

Lemma same_record_unchanged m :
  placed m = true -> hasMarkerChanged (prepare m) (assign_id m) = false.
Proof.
  intros H.
  assert (E : hasMarkerChanged (prepare m) (assign_id m) = hasMarkerChanged m m).
  { unfold prepare, assign_id. destruct (truthy (id m)); reflexivity. }
  rewrite E. now apply placed_unchanged.
Qed.

Lemma distinct_app a b :
  distinct (a ++ b) = true ->
  distinct a = true /\ distinct b = true
  /\ (forall k, In k a -> In k b -> False).
Proof.
  induction a as [|k0 a IH]; cbn; intros H.
  - repeat split; [ exact H | contradiction ].
  - apply andb_prop in H as [H1 H2]. apply negb_true_iff in H1.
    rewrite set_has_app in H1. apply orb_false_iff in H1 as [H1 H1'].
    destruct (IH H2) as (Ia & Ib & Ic). rewrite H1, Ia. repeat split; [ exact Ib | ].
    intros k [-> | Hin] Hb.
    + apply set_has_In in Hb. congruence.
    + now apply (Ic k).
Qed.

Lemma in_staged_prepare l m :
  In m l -> withoutCoords m = false ->
  In (prepare m) (flat_map (fun x => staged (prepare x)) l).
Proof.
  intros Hin Hc. apply in_flat_map. exists m. split; [ exact Hin | ].
  unfold staged. rewrite withoutCoords_prepare, Hc. now left.
Qed.

Lemma in_staged_copy l m :
  In m l -> withoutCoords m = false -> crossesDateLine (prepare m) = true ->
  In (duplicatedMarker (prepare m)) (flat_map (fun x => staged (prepare x)) l).
Proof.
  intros Hin Hc Hx. apply in_flat_map. exists m. split; [ exact Hin | ].
  unfold staged. rewrite withoutCoords_prepare, Hc, Hx. right. now left.
Qed.

(** With distinct ids, the id of a date-line copy is the id of no record
    of the list. *)
Lemma copy_id_is_fresh l :
  distinct (List.map id (flat_map (fun x => staged (prepare x)) l)) = true ->
  forall m m',
    In m l -> withoutCoords m = false -> crossesDateLine (prepare m) = true ->
    In m' l -> withoutCoords m' = false ->
    id (duplicatedMarker (prepare m)) <> id (prepare m').
Proof.
  induction l as [|x l IH]; intros Hd m m' Hm Hc Hx Hm' Hc'; [ contradiction | ].
  cbn [flat_map] in Hd. rewrite map_app in Hd.
  apply distinct_app in Hd as (Da & Db & Dab).
  assert (Hin : forall y, In y l -> withoutCoords y = false ->
                  In (id (prepare y)) (List.map id (flat_map (fun x => staged (prepare x)) l))).
  { intros y Hy Hcy. apply in_map. now apply in_staged_prepare. }
  assert (Hic : forall y, In y l -> withoutCoords y = false ->
                  crossesDateLine (prepare y) = true ->
                  In (id (duplicatedMarker (prepare y)))
                     (List.map id (flat_map (fun x => staged (prepare x)) l))).
  { intros y Hy Hcy Hxy. apply in_map. now apply in_staged_copy. }
  assert (Sx : forall y, y = x -> withoutCoords y = false ->
                  In (id (prepare y)) (List.map id (staged (prepare x)))).
  { intros y -> Hcy. unfold staged. rewrite withoutCoords_prepare, Hcy. now left. }
  assert (Sc : forall y, y = x -> withoutCoords y = false ->
                  crossesDateLine (prepare y) = true ->
                  In (id (duplicatedMarker (prepare y))) (List.map id (staged (prepare x)))).
  { intros y -> Hcy Hxy. unfold staged. rewrite withoutCoords_prepare, Hcy, Hxy.
    right. now left. }
  destruct Hm as [Hm | Hm], Hm' as [Hm' | Hm'].
  - subst m m'. intros E. unfold staged in Da.
    rewrite withoutCoords_prepare, Hc, Hx in Da. cbn [List.map distinct] in Da.
    rewrite E in Da. unfold set_has in Da. cbn [existsb] in Da.
    rewrite key_eqb_refl in Da. discriminate.
  - intros E. apply (Dab (id (prepare m'))).
    + rewrite <- E. apply Sc; auto.
    + now apply Hin.
  - intros E. apply (Dab (id (prepare m'))).
    + apply Sx; auto.
    + rewrite <- E. now apply Hic.
  - now apply IH.
Qed.

Lemma diffOne_same cv cmap d m :
  thrown d = false ->
  withoutCoords m = false -> placed m = true ->
  map_get (id (prepare m)) cmap = Some (prepare m) ->
  diffOne cv cmap d m =
  {| live := live d; markersToAdd := markersToAdd d;
     markersToRemove := set_delete (id (prepare m)) (markersToRemove d);
     thrown := false |}.
Proof.
  intros Ht Hc Hp Hg. unfold diffOne. rewrite Ht.
  rewrite withoutCoords_assign_id, Hc. rewrite id_prepare in Hg. rewrite Hg.
  now rewrite (same_record_unchanged _ Hp).
Qed.

Lemma fold_diffOne_same cv cmap l :
  (forall m, In m l -> withoutCoords m = false ->
     placed m = true /\ map_get (id (prepare m)) cmap = Some (prepare m)) ->
  forall d,
    thrown d = false ->
    fold_left (diffOne cv cmap) l d =
    {| live := live d; markersToAdd := markersToAdd d;
       markersToRemove :=
         fold_left (fun s k => set_delete k s) (List.map (fun m => id (prepare m)) (located l))
           (markersToRemove d);
       thrown := false |}.
Proof.
  induction l as [|m l IH]; intros H d Ht; cbn [fold_left].
  - destruct d. cbn in *. now subst.
  - unfold located. cbn [filter].
    destruct (withoutCoords m) eqn:Ec; cbn [negb List.map fold_left].
    + rewrite (diffOne_skip _ _ _ _ Ec).
      apply IH; [ intros y Hy; apply H; now right | exact Ht ].
    + destruct (H m (or_introl eq_refl) Ec) as [Hp Hg].
      rewrite (diffOne_same _ _ _ _ Ht Ec Hp Hg).
      rewrite IH by (try reflexivity; intros y Hy; apply H; now right).
      reflexivity.
Qed.

Lemma fold_set_delete_filter ks :
  forall s,
    fold_left (fun s k => set_delete k s) ks s
    = filter (fun k => negb (set_has k ks)) s.
Proof.
  induction ks as [|k0 ks IH]; intros s; cbn [fold_left].
  - symmetry. apply filter_id. now apply forallb_forall.
  - rewrite IH. unfold set_delete. rewrite filter_filter. apply filter_ext.
    intros k. change (set_has k (k0 :: ks)) with (key_eqb k k0 || set_has k ks).
    now rewrite negb_orb, (key_eqb_sym k0 k).
Qed.

Lemma filter_staged (K : list (option string)) l :
  (forall m, In m l -> withoutCoords m = false -> set_has (id (prepare m)) K = true) ->
  (forall m, In m l -> withoutCoords m = false -> crossesDateLine (prepare m) = true ->
     set_has (id (duplicatedMarker (prepare m))) K = false) ->
  filter (fun x => set_has (id x) K) (flat_map (fun m => staged (prepare m)) l)
  = List.map prepare (located l).
Proof.
  induction l as [|m l IH]; intros H1 H2; [ reflexivity | ].
  cbn [flat_map]. rewrite filter_app, IH;
    [ | intros y Hy; apply H1; now right | intros y Hy; apply H2; now right ].
  unfold located, staged. cbn [filter]. rewrite withoutCoords_prepare.
  destruct (withoutCoords m) eqn:Ec; cbn [negb]; [ reflexivity | ].
  cbn [filter]. rewrite (H1 m (or_introl eq_refl) Ec).
  destruct (crossesDateLine (prepare m)) eqn:Ex; [ | reflexivity ].
  cbn [filter]. now rewrite (H2 m (or_introl eq_refl) Ec Ex).
Qed.

(** X21. Date-line copies do not survive an incremental refresh.  After a
    full rebuild from well-formed records with distinct ids, an incremental
    refresh with the same records completes and keeps exactly the records
    themselves: nothing is added, every record keeps the Leaflet marker it
    had, and every date-line copy is removed from the list of markers and
    from the registry, because its id is the id of no incoming record. *)
Theorem dateline_copies_do_not_survive_a_refresh :
  forall cv st l,
    forallb (fun m => withoutCoords m || drawable cv m) l = true ->
    distinct (List.map id (flat_map (fun m => staged (prepare m)) l)) = true ->
    exists st1 st2,
      processMarkers cv st (Some l) = Done st1
      /\ updateChangedMarkers cv st1 l = Done st2
      /\ markers st2 = List.map prepare (located l)
      /\ (forall m, In m (located l) ->
            getMarkerById st2 (id (prepare m)) = Some (handleOf cv (prepare m)))
      /\ (forall m, In m (located l) -> crossesDateLine (prepare m) = true ->
            getMarkerById st2 (id (duplicatedMarker (prepare m))) = None)
      /\ count isAddition (surface st2) = count isAddition (surface st1).
Proof.
  intros cv st l Hp Hd.
  destruct (instances_processMarkers cv st l (renders_staged cv l Hp) Hd)
    as (st1 & E1 & Hi & _).
  pose proof (markers_processMarkers cv st l) as Hm. rewrite E1 in Hm. cbn [stateOf] in Hm.
  apply drawable_placed in Hp.
  exists st1.
  set (ms := flat_map (fun m => staged (prepare m)) l) in *.
  set (K := List.map (fun m => id (prepare m)) (located l)).
  assert (Hloc : forall m, In m (located l) <-> In m l /\ withoutCoords m = false).
  { intros m. unfold located. rewrite filter_In, negb_true_iff. reflexivity. }
  assert (Hplaced : forall m, In m l -> withoutCoords m = false -> placed m = true).
  { intros m Hin Hc. rewrite forallb_forall in Hp. specialize (Hp m Hin).
    now rewrite Hc in Hp. }
  assert (HK1 : forall m, In m l -> withoutCoords m = false ->
                  set_has (id (prepare m)) K = true).
  { intros m Hin Hc. apply set_has_In. unfold K.
    apply (in_map (fun m => id (prepare m))). now apply Hloc. }
  assert (HK2 : forall m, In m l -> withoutCoords m = false ->
                  crossesDateLine (prepare m) = true ->
                  set_has (id (duplicatedMarker (prepare m))) K = false).
  { intros m Hin Hc Hx.
    destruct (set_has (id (duplicatedMarker (prepare m))) K) eqn:E; [ | reflexivity ].
    apply set_has_In in E. unfold K in E. apply in_map_iff in E as (m' & E & Hm').
    apply Hloc in Hm' as [Hm' Hc'].
    exfalso. now apply (copy_id_is_fresh l Hd m m' Hin Hc Hx Hm' Hc'). }
  unfold updateChangedMarkers. rewrite Hm. fold (currentMap ms).
  rewrite (currentMap_distinct ms Hd).
  rewrite fold_diffOne_same.
  2:{ intros m Hin Hc. split; [ now apply Hplaced | ].
      apply (map_get_pairs (fun x => x) ms Hd). now apply in_staged_prepare. }
  2:{ reflexivity. }
  cbn [live markersToAdd markersToRemove thrown].
  unfold map_keys. rewrite map_map. cbn [fst].
  change (List.map (fun x => id x) ms) with (List.map id ms).
  fold K. rewrite fold_set_delete_filter.
  set (gone := filter (fun k => negb (set_has k K)) (List.map id ms)).
  assert (Hgone : forall x, In x ms -> set_has (id x) gone = negb (set_has (id x) K)).
  { intros x Hx. unfold gone.
    destruct (set_has (id x) K) eqn:E; cbn.
    - destruct (set_has (id x) (filter _ (List.map id ms))) eqn:E'; [ | reflexivity ].
      apply set_has_In, filter_In in E' as [_ E']. rewrite E in E'. discriminate.
    - apply set_has_In, filter_In. split; [ now apply in_map | now rewrite E ]. }
  destruct (fold_removeMarker gone st1) as (I1 & I2 & I3).
  { now apply distinct_filter. }
  { apply forallb_forall. intros k Hk. apply filter_In in Hk as [Hk _].
    rewrite map_has_keys, Hi. unfold map_keys. rewrite map_map. cbn [fst].
    now apply set_has_In. }
  eexists. split; [ exact E1 | ]. split; [ reflexivity | ].
  unfold getMarkerById. rewrite I1, I2, I3, Hm, Hi.
  split; [ | split; [ | split ] ].
  - rewrite <- (filter_staged K l HK1 HK2). apply filter_ext_in.
    intros x Hx. rewrite (Hgone x Hx). apply negb_involutive.
  - intros m Hin. apply Hloc in Hin as [Hin Hc].
    assert (Hx : In (prepare m) ms) by (now apply in_staged_prepare).
    rewrite map_get_filter_in by (rewrite (Hgone _ Hx), (HK1 m Hin Hc); reflexivity).
    now apply (map_get_pairs (handleOf cv) ms Hd).
  - intros m Hin Hx. apply Hloc in Hin as [Hin Hc].
    assert (Hy : In (duplicatedMarker (prepare m)) ms) by (now apply in_staged_copy).
    apply map_get_filter_out. now rewrite (Hgone _ Hy), (HK2 m Hin Hc Hx).
  - unfold count. rewrite filter_app, length_app.
    assert (Hz : forall b ks, List.length (filter isAddition
                   (List.map (fun k => RemoveLayer b k) ks)) = 0%nat).
    { intros b ks. induction ks as [|k g IH]; cbn; [ reflexivity | exact IH ]. }
    rewrite Hz. lia.
Qed.

End MarkerLifecycleFacts.

(* ------------------------------------------------------------------ *)
(** * Icon sizes and marker mode under zoom changes *)

Section ZoomFacts.
Import Js IconSizeUtils InteractionManager.

Lemma ge_spec a b : ge a b = true <-> b <= a.
Proof. unfold ge. apply Qle_bool_iff. Qed.

Lemma ge_false_spec a b : ge a b = false <-> a < b.
Proof.
  unfold ge. split.
  - intros H. apply Qnot_le_lt. intros Hle. apply Qle_bool_iff in Hle. congruence.
  - intros H. destruct (Qle_bool b a) eqn:E; [ | reflexivity ].
    apply Qle_bool_iff in E. exfalso. apply (Qlt_not_le _ _ H E).
Qed.

Lemma lt_negb_ge a b : lt a b = negb (ge a b).
Proof. reflexivity. Qed.

Lemma gt_negb_ge a b : gt a b = negb (ge b a).
Proof. reflexivity. Qed.

(** The band of a zoom level: how many size thresholds it has reached. *)
Lemma calculateIconSizes_band z :
  calculateIconSizes z =
  if ge z 13 then calculateIconSizes 13
  else if ge z 10 then calculateIconSizes 10
  else if ge z 7 then calculateIconSizes 7
  else if ge z 5 then calculateIconSizes 5
  else calculateIconSizes 0.
Proof.
  unfold calculateIconSizes.
  destruct (ge z 13); [ reflexivity | ].
  destruct (ge z 10); [ reflexivity | ].
  destruct (ge z 7); [ reflexivity | ].
  destruct (ge z 5); reflexivity.
Qed.

Ltac bands p z :=
  destruct (ge p 13) eqn:P13, (ge p 10) eqn:P10, (ge p 7) eqn:P7, (ge p 5) eqn:P5,
           (ge z 13) eqn:Z13, (ge z 10) eqn:Z10, (ge z 7) eqn:Z7, (ge z 5) eqn:Z5;
  try reflexivity;
  exfalso;
  repeat match goal with
         | H : ge _ _ = true |- _ => apply ge_spec in H
         | H : ge _ _ = false |- _ => apply ge_false_spec in H
         end; lra.

Lemma no_crossing_same_sizes p z :
  crossesSizeThreshold p z = false -> calculateIconSizes z = calculateIconSizes p.
Proof.
  unfold crossesSizeThreshold, sizeThresholds. cbn [existsb].
  rewrite !lt_negb_ge, (calculateIconSizes_band p), (calculateIconSizes_band z).
  intros H. revert H.
  destruct (ge p 13) eqn:P13, (ge p 10) eqn:P10, (ge p 7) eqn:P7, (ge p 5) eqn:P5,
           (ge z 13) eqn:Z13, (ge z 10) eqn:Z10, (ge z 7) eqn:Z7, (ge z 5) eqn:Z5;
    cbn; intros H; try discriminate; try reflexivity.
Qed.


(** X22. The size thresholds of [handleZoomChange] are the breakpoints of
    [calculateIconSizes]: moving from one zoom level to another crosses a
    threshold exactly when [haveSizesChanged] tells the icon sizes of the
    two levels apart. *)
Theorem threshold_crossed_iff_sizes_change :
  forall prevZoom zoom,
    crossesSizeThreshold prevZoom zoom
    = haveSizesChanged (Some (calculateIconSizes prevZoom))
                       (Some (calculateIconSizes zoom)).
Proof.
  intros p z.
  unfold crossesSizeThreshold, sizeThresholds, haveSizesChanged. cbn [existsb].
  rewrite !lt_negb_ge, (calculateIconSizes_band p), (calculateIconSizes_band z).
  bands p z.
Qed.

Lemma copy_sizes z :
  {| icon := {| size := size (icon (calculateIconSizes z));
                anchor := anchor (icon (calculateIconSizes z));
                popupAnchor := popupAnchor (icon (calculateIconSizes z)) |};
     satellite := {| size := size (satellite (calculateIconSizes z));
                     anchor := anchor (satellite (calculateIconSizes z));
                     popupAnchor := popupAnchor (satellite (calculateIconSizes z)) |} |}
  = calculateIconSizes z.
Proof. reflexivity. Qed.

Lemma updateIconSizes_forced c z :
  updateIconSizes c z true
  = ask (with_sizes c (calculateIconSizes z))
        [QueueEvent "update_icon_sizes" (calculateIconSizes z) "high"; ClearIconCache].
Proof. reflexivity. Qed.

Lemma iconSizes_updateMarkerMode c mode :
  iconSizes (updateMarkerMode c mode) = iconSizes c
  /\ previousZoom (updateMarkerMode c mode) = previousZoom c
  /\ currentZoom (updateMarkerMode c mode) = currentZoom c.
Proof. repeat split. Qed.

(** The state before the cluster rule of [handleZoomChange] is applied. *)
Lemma handleZoomChange_fields c zoom :
  previousZoom (handleZoomChange c zoom) = Some zoom
  /\ currentZoom (handleZoomChange c zoom) = zoom
  /\ iconSizes (handleZoomChange c zoom)
     = if crossesSizeThreshold (match previousZoom c with Some p => p | None => zoom end) zoom
       then Some (calculateIconSizes zoom) else iconSizes c.
Proof.
  unfold handleZoomChange.
  set (prev := match previousZoom c with Some p => p | None => zoom end).
  set (c3 := with_previous _ zoom).
  assert (H3 : previousZoom c3 = Some zoom /\ currentZoom c3 = zoom
               /\ iconSizes c3 = if crossesSizeThreshold prev zoom
                                 then Some (calculateIconSizes zoom) else iconSizes c).
  { unfold c3. destruct (crossesSizeThreshold prev zoom); repeat split. }
  destruct (ge clusterThreshold zoom && gt prev clusterThreshold).
  - destruct (negb (includes "cluster" (currentMarkerMode c3))); exact H3.
  - destruct (gt zoom clusterThreshold && ge clusterThreshold prev); [ | exact H3 ].
    destruct (includes "cluster" (currentMarkerMode c3)); exact H3.
Qed.

(** X23. Once the stored icon sizes are those of the last zoom level
    handled, they stay so: after any further zoom changes the stored sizes
    are those of the current zoom level.  The sizes are rewritten only when
    a threshold is crossed, and that is enough. *)
Theorem stored_sizes_follow_the_zoom :
  forall c zooms,
    inStep c -> inStep (zoomed c zooms).
Proof.
  intros c zooms. revert c. unfold zoomed.
  induction zooms as [|z zs IH]; intros c H; [ exact H | ].
  cbn [fold_left]. apply IH. destruct H as (p & Hp & Hz & Hs).
  destruct (handleZoomChange_fields c z) as (F1 & F2 & F3).
  exists z. split; [ exact F1 | ]. split; [ exact F2 | ].
  rewrite F3, Hp. destruct (crossesSizeThreshold p z) eqn:E; [ reflexivity | ].
  rewrite Hs. f_equal. symmetry. now apply no_crossing_same_sizes.
Qed.

Lemma crossesSizeThreshold_same z : crossesSizeThreshold z z = false.
Proof.
  unfold crossesSizeThreshold, sizeThresholds. cbn [existsb].
  rewrite !lt_negb_ge.
  destruct (ge z 5), (ge z 7), (ge z 10), (ge z 13); reflexivity.
Qed.

(** X24. The first zoom change after the coordinator is created has no
    previous level to compare with: whatever the new level, the stored
    icon sizes and the marker mode stay as they were and nothing is asked
    of the other modules. *)
Theorem first_zoom_change_updates_nothing :
  forall c zoom,
    previousZoom c = None ->
    iconSizes (handleZoomChange c zoom) = iconSizes c
    /\ currentMarkerMode (handleZoomChange c zoom) = currentMarkerMode c
    /\ requests (handleZoomChange c zoom) = requests c
    /\ currentZoom (handleZoomChange c zoom) = zoom
    /\ previousZoom (handleZoomChange c zoom) = Some zoom.
Proof.
  intros c zoom Hp. unfold handleZoomChange. rewrite Hp, crossesSizeThreshold_same.
  rewrite !gt_negb_ge.
  destruct (ge clusterThreshold zoom); cbn; repeat split.
Qed.

(** X25. An unforced [updateIconSizes] with stored sizes at hand does
    nothing when [haveSizesChanged] finds the stored sizes equal to those
    of the zoom level, and otherwise stores the new sizes and asks for one
    high-priority [update_icon_sizes] event, without clearing the icon
    cache.  With no stored sizes it does nothing, although
    [haveSizesChanged] reports a change then. *)
Theorem unforced_update_skips_equal_sizes :
  forall c zoom,
    (forall cur, iconSizes c = Some cur ->
       haveSizesChanged (Some cur) (Some (calculateIconSizes zoom)) = false ->
       updateIconSizes c zoom false = c)
    /\ (forall cur, iconSizes c = Some cur ->
          haveSizesChanged (Some cur) (Some (calculateIconSizes zoom)) = true ->
          iconSizes (updateIconSizes c zoom false) = Some (calculateIconSizes zoom)
          /\ requests (updateIconSizes c zoom false)
             = requests c ++ [QueueEvent "update_icon_sizes" (calculateIconSizes zoom) "high"])
    /\ (iconSizes c = None ->
          updateIconSizes c zoom false = c
          /\ haveSizesChanged (iconSizes c) (Some (calculateIconSizes zoom)) = true).
Proof.
  intros c zoom.
  assert (E : forall cur, sizesDiffer cur (calculateIconSizes zoom)
                          = haveSizesChanged (Some cur) (Some (calculateIconSizes zoom))).
  { intros cur. unfold sizesDiffer, haveSizesChanged, json_neq.
    now rewrite <- !orb_assoc. }
  split; [ | split ].
  - intros cur Hc Hn. unfold updateIconSizes. now rewrite Hc, E, Hn.
  - intros cur Hc Hn. unfold updateIconSizes. rewrite Hc, E, Hn. split; reflexivity.
  - intros Hc. unfold updateIconSizes. rewrite Hc. split; reflexivity.
Qed.

(** ** The cluster suffix of the marker mode *)

Lemma substring_none n s : String.substring n 0 s = "".
Proof.
  revert s. induction n as [|n IH]; intros s; destruct s; cbn; auto.
Qed.

Lemma substring_prefix m p : String.substring 0 (String.length m) (m ++ p) = m.
Proof. induction m as [|a m IH]; cbn; [ apply substring_none | now rewrite IH ]. Qed.

Lemma substring_suffix m p :
  String.substring (String.length m) (String.length p) (m ++ p) = p.
Proof.
  induction m as [|a m IH]; cbn; [ | exact IH ].
  induction p as [|b p IHp]; cbn; [ reflexivity | now rewrite IHp ].
Qed.

Lemma substring_after m n k :
  String.substring (String.length m + n) k (m ++ "_cluster")
  = String.substring n k "_cluster".
Proof. induction m as [|a m IH]; cbn; [ reflexivity | exact IH ]. Qed.

Lemma length_suffix m p : String.length (m ++ p) = (String.length m + String.length p)%nat.
Proof. induction m as [|a m IH]; cbn; [ reflexivity | now rewrite IH ]. Qed.

Lemma includes_suffix m : includes "cluster" (m ++ "_cluster") = true.
Proof.
  unfold includes. destruct (String.index 0 "cluster" (m ++ "_cluster")) eqn:E; [ reflexivity | ].
  exfalso.
  apply (index_correct3 0 (String.length m + 1) _ _ E); [ discriminate | lia | ].
  now rewrite substring_after.
Qed.

(** A prefix that is ["cluster"] cannot straddle the suffix. *)
Lemma cluster_prefix m :
  String.substring 0 7 (m ++ "_cluster") = "cluster" ->
  String.substring 0 7 m = "cluster".
Proof.
  intros H.
  do 7 (destruct m as [|? m]; [ cbn in H; discriminate | ];
        cbn [append String.substring] in H; injection H as -> H;
        cbn [String.substring]; f_equal).
  apply substring_none.
Qed.

Lemma suffix_is_first m :
  (forall q, String.substring q 7 m <> "cluster") ->
  forall k, (k < String.length m)%nat ->
    String.substring k 8 (m ++ "_cluster") <> "_cluster".
Proof.
  induction m as [|a m IH]; intros Hno k Hk; [ cbn in Hk; lia | ].
  destruct k as [|k].
  - cbn [append String.substring]. intros H. injection H as _ H.
    apply cluster_prefix in H. apply (Hno 1%nat). exact H.
  - cbn [append String.substring]. apply IH.
    + intros q. apply (Hno (S q)).
    + cbn in Hk. lia.
Qed.

Lemma index_suffix m :
  includes "cluster" m = false ->
  String.index 0 "_cluster" (m ++ "_cluster") = Some (String.length m).
Proof.
  intros Hn. unfold includes in Hn.
  destruct (String.index 0 "cluster" m) eqn:Ec; [ discriminate | ].
  assert (Hno : forall q, String.substring q 7 m <> "cluster").
  { intros q. apply (index_correct3 0 q _ _ Ec); [ discriminate | lia ]. }
  assert (Hat : String.substring (String.length m) 8 (m ++ "_cluster") = "_cluster")
    by (apply (substring_suffix m "_cluster")).
  destruct (String.index 0 "_cluster" (m ++ "_cluster")) as [k|] eqn:E.
  - f_equal.
    destruct (Nat.lt_trichotomy k (String.length m)) as [Hlt | [Heq | Hgt]];
      [ exfalso | exact Heq | exfalso ].
    + apply (suffix_is_first m Hno k Hlt). apply (index_correct1 _ _ _ _ E).
    + apply (index_correct2 _ _ _ _ E (String.length m)); [ lia | exact Hgt | exact Hat ].
  - exfalso. apply (index_correct3 0 (String.length m) _ _ E); [ discriminate | lia | exact Hat ].
Qed.

Lemma replace_suffix m :
  includes "cluster" m = false ->
  JsString.replace "_cluster" "" (m ++ "_cluster") = m.
Proof.
  intros Hn. unfold JsString.replace. rewrite (index_suffix m Hn).
  rewrite substring_prefix, length_suffix.
  replace (String.length m + String.length "_cluster" - (String.length m + String.length "_cluster"))%nat
    with 0%nat by lia.
  rewrite substring_none. cbn [append].
  clear Hn. induction m as [|a m IH]; cbn; [ reflexivity | now rewrite IH ].
Qed.


Lemma gt_spec a b : gt a b = true <-> b < a.
Proof.
  rewrite gt_negb_ge, negb_true_iff. apply ge_false_spec.
Qed.

Lemma gt_false_spec a b : gt a b = false <-> a <= b.
Proof.
  rewrite gt_negb_ge, negb_false_iff. apply ge_spec.
Qed.

(** X26. Zooming out past level 8 and back in restores the marker mode.  For
    a mode that does not mention clustering, the zoom change that reaches
    level 8 or less from above appends [_cluster] to the mode, which then
    counts as a cluster mode, and asks the marker manager for that mode;
    the next zoom change above level 8 takes the suffix off again and asks
    for the original mode. *)
Theorem cluster_mode_round_trip :
  forall c p z z',
    previousZoom c = Some p ->
    8 < p -> z <= 8 -> 8 < z' ->
    includes "cluster" (currentMarkerMode c) = false ->
    currentMarkerMode (handleZoomChange c z) = (currentMarkerMode c ++ "_cluster")%string
    /\ includes "cluster" (currentMarkerMode (handleZoomChange c z)) = true
    /\ requests (handleZoomChange c z)
       = requests c
           ++ (if crossesSizeThreshold p z
               then [QueueEvent "update_icon_sizes" (calculateIconSizes z) "high"; ClearIconCache]
               else [])
           ++ [UpdateMarkerMode (currentMarkerMode c ++ "_cluster")%string]
    /\ currentMarkerMode (handleZoomChange (handleZoomChange c z) z') = currentMarkerMode c
    /\ exists sizeRequests,
         requests (handleZoomChange (handleZoomChange c z) z')
         = requests (handleZoomChange c z) ++ sizeRequests
             ++ [UpdateMarkerMode (currentMarkerMode c)].
Proof.
  intros c p z z' Hp Hhi Hlo Hhi' Hn.
  assert (G1 : ge clusterThreshold z = true) by (now apply ge_spec).
  assert (G2 : gt p clusterThreshold = true) by (now apply gt_spec).
  assert (G3 : ge clusterThreshold z' = false) by (now apply ge_false_spec).
  assert (G4 : gt z' clusterThreshold = true) by (now apply gt_spec).
  assert (E1 : handleZoomChange c z
               = updateMarkerMode
                   (with_previous
                      (if crossesSizeThreshold p z
                       then updateIconSizes (with_zoom c z) z true else with_zoom c z) z)
                   (currentMarkerMode c ++ "_cluster")%string).
  { unfold handleZoomChange. rewrite Hp, G1, G2. cbn [andb].
    destruct (crossesSizeThreshold p z); cbn [currentMarkerMode with_previous with_zoom
      updateIconSizes ask with_sizes]; now rewrite Hn. }
  assert (M1 : currentMarkerMode (handleZoomChange c z)
               = (currentMarkerMode c ++ "_cluster")%string) by (now rewrite E1).
  assert (P1 : previousZoom (handleZoomChange c z) = Some z)
    by (apply handleZoomChange_fields).
  split; [ exact M1 | ].
  split; [ rewrite M1; apply includes_suffix | ].
  split.
  { rewrite E1. destruct (crossesSizeThreshold p z); cbn; now rewrite <- ?app_assoc. }
  set (c' := handleZoomChange c z) in *.
  assert (E2 : handleZoomChange c' z'
               = updateMarkerMode
                   (with_previous
                      (if crossesSizeThreshold z z'
                       then updateIconSizes (with_zoom c' z') z' true else with_zoom c' z') z')
                   (currentMarkerMode c)).
  { unfold handleZoomChange. rewrite P1, G3, G4.
    assert (G5 : ge clusterThreshold z = true) by exact G1.
    rewrite G5. cbn [andb].
    assert (Hm : forall b : bool,
               currentMarkerMode
                 (with_previous (if b then updateIconSizes (with_zoom c' z') z' true
                                 else with_zoom c' z') z')
               = (currentMarkerMode c ++ "_cluster")%string).
    { intros b. destruct b; cbn; exact M1. }
    rewrite !Hm, includes_suffix, (replace_suffix _ Hn). reflexivity. }
  split; [ now rewrite E2 | ].
  exists (if crossesSizeThreshold z z'
          then [QueueEvent "update_icon_sizes" (calculateIconSizes z') "high"; ClearIconCache]
          else []).
  rewrite E2. destruct (crossesSizeThreshold z z'); cbn; now rewrite <- ?app_assoc.
Qed.

(** X27. The zoom changes the marker mode only across level 8: when the
    previous and the new zoom level lie on the same side of it, the mode
    stays as it was and the marker manager is not asked to change it; the
    only requests are those of an icon size update, made exactly when a
    size threshold is crossed. *)
Theorem mode_changes_only_across_the_cluster_threshold :
  forall c p z,
    previousZoom c = Some p ->
    (p <= 8 <-> z <= 8) ->
    currentMarkerMode (handleZoomChange c z) = currentMarkerMode c
    /\ requests (handleZoomChange c z)
       = requests c
           ++ (if crossesSizeThreshold p z
               then [QueueEvent "update_icon_sizes" (calculateIconSizes z) "high"; ClearIconCache]
               else []).
Proof.
  intros c p z Hp Hside. unfold handleZoomChange. rewrite Hp.
  assert (G : ge clusterThreshold z && gt p clusterThreshold = false
              /\ gt z clusterThreshold && ge clusterThreshold p = false).
  { rewrite !gt_negb_ge.
    destruct (ge clusterThreshold z) eqn:Gz, (ge clusterThreshold p) eqn:Gp; auto; exfalso.
    - apply ge_spec in Gz. apply ge_false_spec in Gp. apply Hside in Gz. unfold clusterThreshold in *. lra.
    - apply ge_false_spec in Gz. apply ge_spec in Gp. apply Hside in Gp. unfold clusterThreshold in *. lra. }
  destruct G as [G1 G2]. rewrite G1, G2.
  destruct (crossesSizeThreshold p z); cbn; [ auto | now rewrite app_nil_r ].
Qed.

End ZoomFacts.

(* ------------------------------------------------------------------ *)
(** * Longitudes, bounds and centres *)

Section GeoFacts.
Import Js GeoUtils GeoPoints.

Lemma qle_iff a b : Qle_bool a b = true <-> a <= b.
Proof. apply Qle_bool_iff. Qed.

Lemma qle_false a b : Qle_bool a b = false <-> b < a.
Proof.
  split.
  - intros H. apply Qnot_le_lt. intros Hle. apply Qle_bool_iff in Hle. congruence.
  - intros H. destruct (Qle_bool a b) eqn:E; [ | reflexivity ].
    apply Qle_bool_iff in E. exfalso. apply (Qlt_not_le _ _ H E).
Qed.

Lemma normalizeCoordinates_number x :
  normalizeCoordinates (VNum x) = VNum (normalize x).
Proof.
  unfold normalizeCoordinates, normalize, gt_lit, lt_lit. cbn.
  destruct (gt x 180); [ reflexivity | ].
  destruct (lt x (-180)); reflexivity.
Qed.

Ltac cmp :=
  repeat match goal with
         | H : Qle_bool _ _ = true |- _ => apply qle_iff in H
         | H : Qle_bool _ _ = false |- _ => apply qle_false in H
         end.

Lemma normalize_cases x :
  (180 < x /\ normalize x = x - 360)
  \/ (x < -180 /\ normalize x = x + 360)
  \/ (-180 <= x <= 180 /\ normalize x = x).
Proof.
  unfold normalize, gt, lt.
  destruct (Qle_bool x 180) eqn:E1; cbn.
  - destruct (Qle_bool (-180) x) eqn:E2; cbn; cmp.
    + right. right. auto.
    + right. left. auto.
  - cmp. left. auto.
Qed.

(** X28. [normalizeCoordinates] wraps a longitude once.  A number comes back
    as a number that differs from it by 0 or by 360 degrees either way; the
    result lies between -180 and 180 exactly when the longitude lies
    between -540 and 540, and such a result is left alone by a second
    call.  A missing longitude ([null], [undefined]) comes back as it
    is. *)
Theorem normalizeCoordinates_wraps_once :
  forall x,
    exists y,
      normalizeCoordinates (VNum x) = VNum y
      /\ (y == x \/ y == x - 360 \/ y == x + 360)
      /\ (-180 <= y <= 180 <-> -540 <= x <= 540)
      /\ (-540 <= x <= 540 -> normalizeCoordinates (VNum y) = VNum y)
      /\ normalizeCoordinates VNull = VNull
      /\ normalizeCoordinates VUndefined = VUndefined.
Proof.
  intros x. exists (normalize x). rewrite normalizeCoordinates_number.
  split; [ reflexivity | ].
  destruct (normalize_cases x) as [[H E] | [[H E] | [H E]]]; rewrite E.
  - split; [ right; left; reflexivity | ].
    split; [ split; intros [A B]; split; lra | ].
    split; [ | split; reflexivity ].
    intros [A B]. rewrite normalizeCoordinates_number. f_equal.
    destruct (normalize_cases (x - 360)) as [[H' E'] | [[H' E'] | [H' E']]];
      [ lra | lra | exact E' ].
  - split; [ right; right; reflexivity | ].
    split; [ split; intros [A B]; split; lra | ].
    split; [ | split; reflexivity ].
    intros [A B]. rewrite normalizeCoordinates_number. f_equal.
    destruct (normalize_cases (x + 360)) as [[H' E'] | [[H' E'] | [H' E']]];
      [ lra | lra | exact E' ].
  - split; [ left; reflexivity | ].
    split; [ split; intros [A B]; split; lra | ].
    split; [ | split; reflexivity ].
    intros _. rewrite normalizeCoordinates_number. now rewrite E.
Qed.

End GeoFacts.

(* ------------------------------------------------------------------ *)
(** * Examples *)

Section CoordinatorRunExamples.
Import Js MapCoordinator CoordinatorSpec CoordinatorRuns.

Lemma routed_types_are_known_and_interruptible_witness :
  isRouted "user_zoom_change" = true /\
  determineAction "user_zoom_change" = Named "handleZoomChange" /\
  isEventInterruptible (Data := nat) None "user_zoom_change" = true.
Proof.
  assert (H : isRouted "user_zoom_change" = true) by reflexivity.
  split; [ exact H | ].
  destruct (routed_types_are_known_and_interruptible nat "user_zoom_change" H)
    as (_ & H2 & _).
  split; [ reflexivity | exact H2 ].
Defined.

Lemma busy_slotOk : slotOk (currentEvent busy).
Proof. right. exists "data_update". repeat split. Defined.

Lemma active_slot_stays_routed_witness :
  (S (List.length (eventQueue busy)) < 5)%nat /\
  slotOk (currentEvent busy) /\
  exists c',
    call 5 1 busy (Submit "user_zoom_change" (Some 2%nat) "high") = Some c' /\
    slotOk (currentEvent c').
Proof.
  assert (Hf : (S (List.length (eventQueue busy)) < 5)%nat) by (cbn; lia).
  split; [ exact Hf | ]. split; [ exact busy_slotOk | ].
  destruct (call 5 1 busy (Submit "user_zoom_change" (Some 2%nat) "high")) as [c'|] eqn:E;
    [ | exfalso; vm_compute in E; discriminate E ].
  exists c'. split; [ reflexivity | ].
  exact (active_slot_stays_routed nat 1 5 busy _ c' Hf busy_slotOk E).
Defined.

Lemma high_always_preempts_when_slot_ok_witness :
  slotOk (currentEvent busy) /\
  activeType busy = Some "data_update" /\
  queueEvent 5 1 busy "update_tooltip_state" (Some 2%nat) "high" =
    executeEvent (eventCompleted 5 1)
      (preemptedBy 1 busy "data_update" "high" "update_tooltip_state" (Some 2%nat) "normal").
Proof.
  split; [ exact busy_slotOk | ]. split; [ reflexivity | ].
  exact (high_always_preempts_when_slot_ok nat 1 5 busy "data_update"
           "update_tooltip_state" (Some 2%nat) busy_slotOk eq_refl).
Defined.

Lemma only_a_rejection_writes_the_error_witness :
  (S (List.length (eventQueue backlog)) < 6)%nat /\
  exists c',
    call 6 9 backlog (Settle nat Fulfilled) = Some c' /\
    state c' = state backlog /\ errorInfo c' = errorInfo backlog.
Proof.
  assert (Hf : (S (List.length (eventQueue backlog)) < 6)%nat) by (cbn; lia).
  split; [ exact Hf | ].
  destruct (call 6 9 backlog (Settle nat Fulfilled)) as [c'|] eqn:E;
    [ | exfalso; vm_compute in E; discriminate E ].
  exists c'. split; [ reflexivity | ].
  refine (only_a_rejection_writes_the_error nat 9 6 backlog _ c' Hf _ E).
  intros msg. discriminate.
Defined.


Lemma no_component_drains_the_queue_witness :
  (List.length (eventQueue (unregisterEvents backlog)) < 5)%nat /\
  componentInstance (unregisterEvents backlog) = false /\
  exists c',
    settle 5 9 (unregisterEvents backlog) Fulfilled = Some c' /\
    currentEvent c' = idleEvent nat /\
    eventQueue c' = [] /\
    effects c' = repeat (ErrorNoComponent nat) 3.
Proof.
  assert (Hf : (List.length (eventQueue (unregisterEvents backlog)) < 5)%nat) by (cbn; lia).
  split; [ exact Hf | ]. split; [ reflexivity | ].
  destruct (settle 5 9 (unregisterEvents backlog) Fulfilled) as [c'|] eqn:E;
    [ | exfalso; vm_compute in E; discriminate E ].
  exists c'. split; [ reflexivity | ].
  exact (no_component_drains_the_queue nat 9 5 (unregisterEvents backlog) Fulfilled c'
           Hf eq_refl E).
Defined.


Lemma priority_is_forgotten_on_start_witness :
  (S (S (List.length (eventQueue (registerEvents (createCoordinator nat))))) < 5)%nat /\
  activeType (registerEvents (createCoordinator nat)) = None /\
  exists c1 c2,
    queueEvent 5 1 (registerEvents (createCoordinator nat)) "data_update" (Some 1%nat) "high"
      = Some c1 /\
    queueEvent 5 2 c1 "update_marker_mode" (Some 2%nat) "critical" = Some c2 /\
    priority (currentEvent c1) = Some "normal" /\
    eventQueue c1 = [] /\
    currentEvent c2 = activeSlot 2 "update_marker_mode" (Some 2%nat) "critical" /\
    eventQueue c2
    = [ {| q_type := "data_update"; q_data := Some 1%nat; q_priority := "normal";
           q_timestamp := 2 |} ].
Proof.
  assert (Hf : (S (S (List.length (eventQueue (registerEvents (createCoordinator nat))))) < 5)%nat)
    by (cbn; lia).
  split; [ exact Hf | ]. split; [ reflexivity | ].
  exact (priority_is_forgotten_on_start nat 1 2 5 (registerEvents (createCoordinator nat))
           "data_update" (Some 1%nat) "update_marker_mode" (Some 2%nat)
           UpdateMarkersFromData UpdateMarkerMode Hf eq_refl eq_refl eq_refl eq_refl).
Defined.

End CoordinatorRunExamples.

Section RealtimeRunExamples.
Import Js RealtimeManager RealtimeControl.

Lemma at_most_one_timeout_pending_witness :
  tidy initial = true /\
  tidy (run initial [Start None; Expire 1 true false Failed 100; Force Updated 200;
                     SetInterval 30%Q; Expire 4 false false NoData 300]) = true /\
  (List.length (timers (run initial [Start None; Expire 1 true false Failed 100;
                                     Force Updated 200; SetInterval 30%Q;
                                     Expire 4 false false NoData 300])) <= 1)%nat.
Proof.
  assert (H : tidy initial = true) by reflexivity.
  split; [ exact H | ].
  exact (at_most_one_timeout_pending initial
           [Start None; Expire 1 true false Failed 100; Force Updated 200;
            SetInterval 30%Q; Expire 4 false false NoData 300] H).
Defined.

Lemma stopUpdates_stops_witness :
  tidy (startUpdates initial None) = true /\
  timers (startUpdates initial None) = [(1%positive, Given 0)] /\
  timers (stopUpdates (startUpdates initial None)) = [] /\
  isActive (stopUpdates (startUpdates initial None)) = false.
Proof.
  assert (H : tidy (startUpdates initial None) = true) by reflexivity.
  split; [ exact H | ]. split; [ reflexivity | ].
  destruct (stopUpdates_stops (startUpdates initial None) H) as (H1 & H2 & _).
  split; [ exact H1 | exact H2 ].
Defined.

Lemma startUpdates_plainDelays : plainDelays (startUpdates initial None).
Proof.
  intros h d [E | []]. left. now injection E as _ <-.
Defined.

Lemma retry_interval_is_never_used_witness :
  tidy (startUpdates initial None) = true /\
  plainDelays (startUpdates initial None) /\
  plainDelays (run (startUpdates initial None)
                 [Expire 1 true false Failed 100; Expire 2 true false Failed 200;
                  Expire 3 true false Failed 300]).
Proof.
  assert (H : tidy (startUpdates initial None) = true) by reflexivity.
  split; [ exact H | ]. split; [ exact startUpdates_plainDelays | ].
  exact (retry_interval_is_never_used (startUpdates initial None)
           [Expire 1 true false Failed 100; Expire 2 true false Failed 200;
            Expire 3 true false Failed 300] H startUpdates_plainDelays).
Defined.

Lemma polling_goes_on_whatever_the_outcomes_witness :
  tidy initial = true /\
  errorCount (poll (startUpdates initial None) [Failed; Failed; Failed; Failed] 100) = 4%nat /\
  exists h d,
    timers (poll (startUpdates initial None) [Failed; Failed; Failed; Failed] 100) = [(h, d)] /\
    updateTimer (poll (startUpdates initial None) [Failed; Failed; Failed; Failed] 100) = Some h.
Proof.
  assert (H : tidy initial = true) by reflexivity.
  split; [ exact H | ].
  exact (polling_goes_on_whatever_the_outcomes initial [Failed; Failed; Failed; Failed] 100 H).
Defined.

Lemma forceUpdate_rearms_once_witness :
  tidy (startUpdates initial None) = true /\
  timers (forceUpdate (startUpdates initial None) Failed 100) = [(2%positive, Given 5000)] /\
  updateTimer (forceUpdate (startUpdates initial None) Failed 100) = Some 2%positive /\
  errorCount (forceUpdate (startUpdates initial None) Failed 100) = 1%nat.
Proof.
  assert (H : tidy (startUpdates initial None) = true) by reflexivity.
  split; [ exact H | ].
  exact (forceUpdate_rearms_once (startUpdates initial None) Failed 100 H).
Defined.

End RealtimeRunExamples.

Section MarkerLifecycleExamples.
Import Js MarkerManager MarkerSpec MarkerLookup.

Lemma full_rebuild_establishes_the_live_set_witness :
  forallb (fun m => withoutCoords m || drawable gauge m)
    [east; unplaced; site 1 (VNum 11) (VNum 30) 1] = false /\
  forallb (fun m => withoutCoords m || drawable gauge m)
    [east; site 1 (VNum 11) (VNum 30) 1] = true /\
  exists st',
    processMarkers gauge fleet (Some [east; site 1 (VNum 11) (VNum 30) 1]) = Done st' /\
    liveSet st' = true /\
    List.map id (markers st')
    = [Some "marker_0"; Some "marker_0_dateline"; Some "marker_1"].
Proof.
  split; [ reflexivity | ].
  assert (Hp : forallb (fun m => withoutCoords m || drawable gauge m)
                 [east; site 1 (VNum 11) (VNum 30) 1] = true) by reflexivity.
  assert (Hd : distinct (List.map id (flat_map (fun m => staged (prepare m))
                                        [east; site 1 (VNum 11) (VNum 30) 1])) = true)
    by reflexivity.
  split; [ exact Hp | ].
  destruct (full_rebuild_establishes_the_live_set gauge fleet _ Hp Hd)
    as (st' & E & H1 & _ & H3 & _).
  exists st'. split; [ exact E | ]. split; [ exact H1 | ].
  rewrite <- H3.
  change st' with (stateOf (Done st')). rewrite <- E. reflexivity.
Defined.

Lemma fleet_liveSet : liveSet fleet = true.
Proof. reflexivity. Defined.

Lemma removeMarker_keeps_the_live_set_witness :
  liveSet fleet = true /\
  liveSet (removeMarker fleet (Some "marker_1")) = true /\
  getMarkerById (removeMarker fleet (Some "marker_1")) (Some "marker_1") = None /\
  removeMarker fleet (Some "marker_9") = fleet.
Proof.
  split; [ exact fleet_liveSet | ].
  destruct (removeMarker_keeps_the_live_set fleet (Some "marker_1") fleet_liveSet)
    as (H1 & H2 & _).
  split; [ exact H1 | ]. split; [ exact (proj1 (H2 eq_refl)) | ].
  destruct (removeMarker_keeps_the_live_set fleet (Some "marker_9") fleet_liveSet)
    as (_ & _ & H3 & _).
  exact (H3 eq_refl).
Defined.

Lemma fleet_registryOk : registryOk (markerInstances fleet) = true.
Proof. reflexivity. Defined.

Lemma cluster_switch_loses_no_marker_witness :
  registryOk (markerInstances fleet) = true /\
  markerInstances (toggleClusterMode fleet true) = markerInstances fleet /\
  surface (toggleClusterMode fleet true)
  = surface fleet ++ [ClearLayers; CreateClusterGroup; AddLayer true (Some "marker_0");
                      AddLayer true (Some "marker_1"); AddLayer true (Some "marker_2")].
Proof.
  split; [ exact fleet_registryOk | ].
  destruct (cluster_switch_loses_no_marker fleet true fleet_registryOk)
    as (_ & H2 & _ & H4 & _).
  split; [ exact H2 | ]. apply H4. discriminate.
Defined.

Lemma cluster_group_is_not_put_back_on_the_map_witness :
  registryOk (markerInstances (toggleClusterMode fleet true)) = true /\
  currentClusterMode (toggleClusterMode fleet true) = true /\
  clusterGroup (toggleClusterMode fleet true) = true /\
  count (fun c => match c with CreateClusterGroup => true | _ => false end)
    (surface (toggleClusterMode (toggleClusterMode (toggleClusterMode fleet true) false) true))
  = 1%nat.
Proof.
  assert (H1 : registryOk (markerInstances (toggleClusterMode fleet true)) = true)
    by reflexivity.
  split; [ exact H1 | ]. split; [ reflexivity | ]. split; [ reflexivity | ].
  destruct (cluster_group_is_not_put_back_on_the_map (toggleClusterMode fleet true)
              H1 eq_refl eq_refl) as (_ & _ & H).
  rewrite H. reflexivity.
Defined.

Lemma empty_refresh_removes_every_marker_witness :
  liveSet fleet = true /\
  list_ (plain []) = Some [] /\
  exists st',
    updateMarkersFromData view fleet (Some (plain [])) = Done st' /\
    markers st' = [] /\
    getMarkerById st' (Some "marker_2") = None.
Proof.
  split; [ exact fleet_liveSet | ]. split; [ reflexivity | ].
  destruct (empty_refresh_removes_every_marker view fleet (plain []) fleet_liveSet eq_refl)
    as (st' & E & H1 & H2).
  exists st'. split; [ exact E | ]. split; [ exact H1 | ].
  apply (H2 (prepare (site 2 (VNum 12) (VNum 40) 2))).
  right. right. left. reflexivity.
Defined.

Lemma dateline_copies_do_not_survive_a_refresh_witness :
  forallb (fun m => withoutCoords m || drawable view m) [east] = true /\
  exists st1 st2,
    processMarkers view empty (Some [east]) = Done st1 /\
    List.map id (markers st1) = [Some "marker_0"; Some "marker_0_dateline"] /\
    updateChangedMarkers view st1 [east] = Done st2 /\
    markers st2 = [prepare east] /\
    getMarkerById st2 (Some "marker_0_dateline") = None.
Proof.
  assert (Hp : forallb (fun m => withoutCoords m || drawable view m) [east] = true)
    by reflexivity.
  assert (Hd : distinct (List.map id (flat_map (fun m => staged (prepare m)) [east])) = true)
    by reflexivity.
  split; [ exact Hp | ].
  destruct (dateline_copies_do_not_survive_a_refresh view empty [east] Hp Hd)
    as (st1 & st2 & E1 & E2 & H1 & _ & H3 & _).
  exists st1, st2. split; [ exact E1 | ].
  split; [ change st1 with (stateOf (Done st1)); rewrite <- E1; reflexivity | ].
  split; [ exact E2 | ]. split; [ exact H1 | ].
  apply (H3 east); [ now left | reflexivity ].
Defined.

End MarkerLifecycleExamples.

Section ZoomExamples.
Import Js IconSizeUtils InteractionManager.

Lemma zoomed_inStep : inStep (zoomed fresh [6]).
Proof. exists 6. repeat split. Defined.

Lemma stored_sizes_follow_the_zoom_witness :
  inStep (zoomed fresh [6]) /\
  inStep (zoomed (zoomed fresh [6]) [11; 3; 14]).
Proof.
  split; [ exact zoomed_inStep | ].
  exact (stored_sizes_follow_the_zoom (zoomed fresh [6]) [11; 3; 14] zoomed_inStep).
Defined.

Lemma first_zoom_change_updates_nothing_witness :
  previousZoom fresh = None /\
  iconSizes (handleZoomChange fresh 14) = Some (calculateIconSizes 5) /\
  requests (handleZoomChange fresh 14) = [].
Proof.
  split; [ reflexivity | ].
  destruct (first_zoom_change_updates_nothing fresh 14 eq_refl) as (H1 & _ & H3 & _).
  split; [ exact H1 | exact H3 ].
Defined.

Lemma unforced_update_skips_equal_sizes_witness :
  iconSizes fresh = Some (calculateIconSizes 5) /\
  updateIconSizes fresh 6 false = fresh /\
  iconSizes (updateIconSizes fresh 8 false) = Some (calculateIconSizes 8).
Proof.
  split; [ reflexivity | ].
  destruct (unforced_update_skips_equal_sizes fresh 6) as (H1 & _).
  destruct (unforced_update_skips_equal_sizes fresh 8) as (_ & H2 & _).
  split; [ exact (H1 _ eq_refl eq_refl) | exact (proj1 (H2 _ eq_refl eq_refl)) ].
Defined.

Lemma cluster_mode_round_trip_witness :
  previousZoom (zoomed fresh [12]) = Some 12 /\
  includes "cluster" (currentMarkerMode (zoomed fresh [12])) = false /\
  currentMarkerMode (handleZoomChange (zoomed fresh [12]) 6) = "num_state_cluster" /\
  currentMarkerMode (handleZoomChange (handleZoomChange (zoomed fresh [12]) 6) 11)
  = "num_state".
Proof.
  assert (Hp : previousZoom (zoomed fresh [12]) = Some 12) by reflexivity.
  assert (Hn : includes "cluster" (currentMarkerMode (zoomed fresh [12])) = false)
    by reflexivity.
  split; [ exact Hp | ]. split; [ exact Hn | ].
  assert (H1 : 8 < 12) by reflexivity.
  assert (H2 : 6 <= 8) by discriminate.
  assert (H3 : 8 < 11) by reflexivity.
  destruct (cluster_mode_round_trip (zoomed fresh [12]) 12 6 11 Hp H1 H2 H3 Hn)
    as (M1 & _ & _ & M2 & _).
  split; [ exact M1 | exact M2 ].
Defined.

Lemma mode_changes_only_across_the_cluster_threshold_witness :
  previousZoom (zoomed fresh [12]) = Some 12 /\
  (12 <= 8 <-> 14 <= 8) /\
  currentMarkerMode (handleZoomChange (zoomed fresh [12]) 14) = "num_state" /\
  requests (handleZoomChange (zoomed fresh [12]) 14)
  = [QueueEvent "update_icon_sizes" (calculateIconSizes 14) "high"; ClearIconCache].
Proof.
  assert (Hp : previousZoom (zoomed fresh [12]) = Some 12) by reflexivity.
  assert (Hs : 12 <= 8 <-> 14 <= 8).
  { split; intros H; exfalso; apply H; reflexivity. }
  split; [ exact Hp | ]. split; [ exact Hs | ].
  exact (mode_changes_only_across_the_cluster_threshold (zoomed fresh [12]) 12 14 Hp Hs).
Defined.

End ZoomExamples.

Section GeoExamples.
Import Js GeoUtils GeoPoints.

Lemma normalizeCoordinates_wraps_once_witness :
  -540 <= 190 <= 540 /\
  normalizeCoordinates (VNum 190) = VNum (190 - 360) /\
  exists y, normalizeCoordinates (VNum 190) = VNum y
            /\ normalizeCoordinates (VNum y) = VNum y.
Proof.
  assert (H : -540 <= 190 <= 540) by (split; discriminate).
  split; [ exact H | ]. split; [ reflexivity | ].
  destruct (normalizeCoordinates_wraps_once 190) as (y & E & _ & _ & Hi & _).
  exists y. split; [ exact E | exact (Hi H) ].
Defined.

End GeoExamples.
